(** * Ringtone editor: offline rendering and WAV / MP3 export

    A shallow embedding of the audio core of the editor:

    - [src/services/audioUtils.ts]: [writeString], [interleave], [encodeWAV],
      [floatTo16BitPCM], [writeFloat32], [audioBufferToWav], [audioBufferToMp3];
    - [src/components/WaveformEditor.tsx]: [processAudioRegion],
      [handleDownload] and the [tick] closure of [handlePreviewEffect];

    and, further down, of what surrounds it: the effect controls, the
    selection box with its drag handlers and [updateRegionDOM], the preview
    player ([stopPreview], [handlePreviewEffect], [onended]), the counters
    and screens of [App.tsx] and [processFile] of the uploader.

    Number model.  Sample data lives in [Float32Array]s: a sample is a finite
    dyadic rational, an infinity or NaN, modelled by [JS.Number] over [Q].
    Clamping to [-1, 1] and scaling by 32768, 32767 or 32767.5 is exact in
    double precision on such values, so the rational model of the two
    quantisers is exact.  The arithmetic of [processAudioRegion] involves
    [Math.pow]; there doubles are idealised as real numbers ([R]). *)

From Stdlib Require Import ZArith QArith Qround Reals Psatz String Ascii List.
From Stdlib.Strings Require Import Byte.
From Equations Require Import Equations.
From stdpp Require Import base list.
Import ListNotations.

Local Open Scope Z_scope.

(* ===================================================================== *)
(** ** JavaScript values, exceptions and integer conversions              *)
(* ===================================================================== *)

Module JS.

(** The exceptions the modelled code and the platform calls it makes can
    raise. *)
Inductive Error : Type :=
| RangeError
| IndexSizeError
| NotSupportedError
| GenericError (message : string).

(** A computation either returns or throws. *)
Inductive Completion (A : Type) : Type :=
| Return (a : A)
| Throw (e : Error).
Arguments Return {A} a.
Arguments Throw {A} e.

Definition bind {A B : Type} (m : Completion A) (k : A -> Completion B)
  : Completion B :=
  match m with
  | Return a => k a
  | Throw e => Throw e
  end.

(** A number held in a [Float32Array], or the result of arithmetic on one. *)
Inductive Number : Type :=
| Finite (q : Q)
| PosInfinity
| NegInfinity
| NaN.

Definition Qltb (p q : Q) : bool := negb (Qle_bool q p).

(** [Math.min(a, b)] and [Math.max(a, b)]: NaN is contagious. *)
Definition Math_min (a b : Number) : Number :=
  match a, b with
  | NaN, _ | _, NaN => NaN
  | NegInfinity, _ | _, NegInfinity => NegInfinity
  | PosInfinity, x | x, PosInfinity => x
  | Finite p, Finite q => if Qle_bool p q then Finite p else Finite q
  end.

Definition Math_max (a b : Number) : Number :=
  match a, b with
  | NaN, _ | _, NaN => NaN
  | PosInfinity, _ | _, PosInfinity => PosInfinity
  | NegInfinity, x | x, NegInfinity => x
  | Finite p, Finite q => if Qle_bool p q then Finite q else Finite p
  end.

(** [a < b]: false as soon as one side is NaN. *)
Definition lessThan (a b : Number) : bool :=
  match a, b with
  | NaN, _ | _, NaN => false
  | Finite p, Finite q => Qltb p q
  | NegInfinity, NegInfinity => false
  | NegInfinity, _ => true
  | _, PosInfinity => match a with PosInfinity => false | _ => true end
  | _, _ => false
  end.

Definition signed_infinity (negative : bool) : Number :=
  if negative then NegInfinity else PosInfinity.

(** [a * b]; an infinity times zero is NaN. *)
Definition multiply (a b : Number) : Number :=
  match a, b with
  | NaN, _ | _, NaN => NaN
  | Finite p, Finite q => Finite (p * q)
  | Finite p, PosInfinity | PosInfinity, Finite p =>
      if Qeq_bool p 0 then NaN else signed_infinity (Qltb p 0)
  | Finite p, NegInfinity | NegInfinity, Finite p =>
      if Qeq_bool p 0 then NaN else signed_infinity (negb (Qltb p 0))
  | PosInfinity, PosInfinity | NegInfinity, NegInfinity => PosInfinity
  | PosInfinity, NegInfinity | NegInfinity, PosInfinity => NegInfinity
  end.

(** Truncation toward zero of a rational. *)
Definition truncate (q : Q) : Z :=
  if Qle_bool 0 q then Qfloor q else Qceiling q.

(** The integer part used by every [ToIntN] / [ToUintN] conversion: NaN
    and the infinities convert to 0. *)
Definition ToIntegerOrZero (n : Number) : Z :=
  match n with
  | Finite q => truncate q
  | _ => 0
  end.

Definition ToUint8 (z : Z) : Z := z mod 256.
Definition ToUint16 (z : Z) : Z := z mod 65536.
Definition ToUint32 (z : Z) : Z := z mod 4294967296.

(** [ToInt16]: truncate, reduce modulo 2^16, reinterpret as signed. *)
Definition ToInt16 (n : Number) : Z :=
  let int16bit := ToIntegerOrZero n mod 65536 in
  if 32768 <=? int16bit then int16bit - 65536 else int16bit.

End JS.

Import JS.

#[global] Instance Completion_bind : MBind Completion :=
  fun A B k m => JS.bind m k.
#[global] Instance Completion_ret : MRet Completion := @JS.Return.

(* ===================================================================== *)
(** ** [ArrayBuffer] / [DataView]                                         *)
(* ===================================================================== *)

Module DataView.

(** A view over a whole [ArrayBuffer]: its bytes, in address order. *)
Definition t : Type := list byte.

Definition byte_of_Z (z : Z) : byte :=
  match Byte.of_N (Z.to_N (z mod 256)) with
  | Some b => b
  | None => x00
  end.

Definition Z_of_byte (b : byte) : Z := Z.of_N (Byte.to_N b).

(** [new ArrayBuffer(n)]: [n] zero bytes. *)
Definition alloc (byteLength : nat) : t := replicate byteLength x00.

(** The [n] low-order bytes of [z], least significant first. *)
Fixpoint le_bytes (n : nat) (z : Z) : list byte :=
  match n with
  | O => []
  | S n' => byte_of_Z z :: le_bytes n' (z / 256)
  end.

Definition ordered (littleEndian : bool) (bs : list byte) : list byte :=
  if littleEndian then bs else rev bs.

(** Every setter checks the whole field against the view's length first
    and throws a RangeError without writing when it does not fit. *)
Definition store (view : t) (byteOffset : nat) (bs : list byte) : Completion t :=
  if (byteOffset + length bs <=? length view)%nat
  then Return (list_inserts byteOffset bs view)
  else Throw RangeError.

Definition setUint8 (view : t) (byteOffset : nat) (value : Z) : Completion t :=
  store view byteOffset [byte_of_Z (ToUint8 value)].

Definition setUint16 (view : t) (byteOffset : nat) (value : Z)
    (littleEndian : bool) : Completion t :=
  store view byteOffset (ordered littleEndian (le_bytes 2 (ToUint16 value))).

Definition setUint32 (view : t) (byteOffset : nat) (value : Z)
    (littleEndian : bool) : Completion t :=
  store view byteOffset (ordered littleEndian (le_bytes 4 (ToUint32 value))).

Definition setInt16 (view : t) (byteOffset : nat) (value : Number)
    (littleEndian : bool) : Completion t :=
  store view byteOffset (ordered littleEndian (le_bytes 2 (ToInt16 value))).

(** The IEEE 754 binary32 bit pattern of a number is a platform primitive. *)
Class Float32Codec : Type := float32_bits : Number -> Z.

Definition setFloat32 `{Float32Codec} (view : t) (byteOffset : nat)
    (value : Number) (littleEndian : bool) : Completion t :=
  store view byteOffset
    (ordered littleEndian (le_bytes 4 (ToUint32 (float32_bits value)))).

(** Readers, used to state what a written file contains. *)
Definition getUint16 (view : t) (byteOffset : nat) : option Z :=
  match view !! byteOffset, view !! S byteOffset with
  | Some lo, Some hi => Some (Z_of_byte lo + 256 * Z_of_byte hi)
  | _, _ => None
  end.

Definition getInt16 (view : t) (byteOffset : nat) : option Z :=
  match getUint16 view byteOffset with
  | Some u => Some (if 32768 <=? u then u - 65536 else u)
  | None => None
  end.

Definition getUint32 (view : t) (byteOffset : nat) : option Z :=
  match getUint16 view byteOffset, getUint16 view (2 + byteOffset) with
  | Some lo, Some hi => Some (lo + 65536 * hi)
  | _, _ => None
  end.

End DataView.

Import DataView.

(* ===================================================================== *)
(** ** Platform objects: typed arrays, [AudioBuffer], [Blob], lamejs      *)
(* ===================================================================== *)

Module Web.

Definition Float32Array : Type := list Number.
Definition Int16Array : Type := list Z.

(** Reading a [Float32Array] out of range yields [undefined], which a
    [Float32Array] store turns into NaN. *)
Definition read_for_float32_store (a : Float32Array) (i : nat) : Number :=
  default NaN (a !! i).

(** An [AudioBuffer]: [sampleRate] is kept integral (44100, 48000, ...). *)
Record AudioBuffer : Type := {
  sampleRate : Z;
  bufferLength : nat;                 (* the [length] attribute, in frames *)
  channelData : list Float32Array
}.

Definition numberOfChannels (b : AudioBuffer) : nat := length (channelData b).

(** What every [AudioBuffer] the platform hands out satisfies. *)
Definition AudioBuffer_wf (b : AudioBuffer) : Prop :=
  (1 <= numberOfChannels b)%nat /\
  Forall (fun c => length c = bufferLength b) (channelData b).

(** [buffer.getChannelData(i)] throws an IndexSizeError out of range. *)
Definition getChannelData (b : AudioBuffer) (i : nat) : Completion Float32Array :=
  match channelData b !! i with
  | Some c => Return c
  | None => Throw IndexSizeError
  end.

Record Blob : Type := { blob_bytes : list byte; blob_type : string }.

(** [new Blob(parts, { type })]: the parts back to back. *)
Definition newBlob (parts : list (list byte)) (type : string) : Blob :=
  {| blob_bytes := concat parts; blob_type := type |}.

(** The interface of the global [lamejs] object that the MP3 path uses.
    [encodeBuffer] and [flush] return the compressed bytes they emit and
    the encoder's next state. *)
Record LameJs : Type := {
  Mp3Encoder : Type;
  Mp3Encoder_new : nat -> Z -> Z -> Mp3Encoder;
  encodeBuffer : Mp3Encoder -> Int16Array -> option Int16Array -> list byte * Mp3Encoder;
  flush : Mp3Encoder -> list byte * Mp3Encoder
}.

End Web.

Import Web.

(* ===================================================================== *)
(** ** [src/services/audioUtils.ts]                                       *)
(* ===================================================================== *)

Module AudioUtils.

Local Open Scope string_scope.

(** [for (i = 0; i < string.length; i++) view.setUint8(offset + i, string.charCodeAt(i))] *)
Fixpoint writeString (view : DataView.t) (offset : nat) (str : string)
  : Completion DataView.t :=
  match str with
  | EmptyString => Return view
  | String c rest =>
      view' ← setUint8 view offset (Z.of_nat (nat_of_ascii c));
      writeString view' (S offset) rest
  end.

(** The [while (index < length)] loop of [interleave]: two stores and
    [index += 2] per round.  Stores past the end of [result] are dropped
    and reads past the end of an input store NaN, as typed arrays do. *)
Equations? interleave_loop (inputL inputR result : Float32Array)
    (len index inputIndex : nat) : Float32Array by wf (len - index)%nat lt :=
  interleave_loop inputL inputR result len index inputIndex
    with decide (index < len)%nat := {
    | left _ =>
        interleave_loop inputL inputR
          (<[S index := read_for_float32_store inputR inputIndex]>
             (<[index := read_for_float32_store inputL inputIndex]> result))
          len (S (S index)) (S inputIndex)
    | right _ => result }.
Proof. lia. Qed.

Definition interleave (inputL inputR : Float32Array) : Float32Array :=
  let len := (length inputL + length inputR)%nat in
  let result := replicate len (Finite 0) in
  interleave_loop inputL inputR result len 0 0.

(** [for (i = 0; i < input.length; i++, offset += 2)] *)
Fixpoint floatTo16BitPCM (output : DataView.t) (offset : nat) (input : Float32Array)
  : Completion DataView.t :=
  match input with
  | [] => Return output
  | x :: rest =>
      let s := Math_max (Finite (-1)) (Math_min (Finite 1) x) in
      output' ← setInt16 output offset
                  (if JS.lessThan s (Finite 0) then JS.multiply s (Finite 32768)
                   else JS.multiply s (Finite 32767)) true;
      floatTo16BitPCM output' (offset + 2) rest
  end.

(** [for (i = 0; i < input.length; i++, offset += 4)] *)
Fixpoint writeFloat32 `{Float32Codec} (output : DataView.t) (offset : nat)
    (input : Float32Array) : Completion DataView.t :=
  match input with
  | [] => Return output
  | x :: rest =>
      output' ← setFloat32 output offset x true;
      writeFloat32 output' (offset + 4) rest
  end.

(** [bitDepth] is 16 or 32 at both call sites, so [bitDepth / 8] is exact. *)
Definition encodeWAV `{Float32Codec} (samples : Float32Array)
    (format sampleRate numChannels bitDepth : Z) : Completion Blob :=
  let bytesPerSample := bitDepth / 8 in
  let blockAlign := numChannels * bytesPerSample in
  let samples_length := Z.of_nat (length samples) in
  let view := alloc (Z.to_nat (44 + samples_length * bytesPerSample)) in
  view ← writeString view 0 "RIFF";
  view ← setUint32 view 4 (36 + samples_length * bytesPerSample) true;
  view ← writeString view 8 "WAVE";
  view ← writeString view 12 "fmt ";
  view ← setUint32 view 16 16 true;
  view ← setUint16 view 20 format true;
  view ← setUint16 view 22 numChannels true;
  view ← setUint32 view 24 sampleRate true;
  view ← setUint32 view 28 (sampleRate * blockAlign) true;
  view ← setUint16 view 32 blockAlign true;
  view ← setUint16 view 34 bitDepth true;
  view ← writeString view 36 "data";
  view ← setUint32 view 40 (samples_length * bytesPerSample) true;
  view ← (if (format =? 1)%Z then floatTo16BitPCM view 44 samples
          else writeFloat32 view 44 samples);
  mret (newBlob [view] "audio/wav").

(** The optional [opt] argument of [audioBufferToWav]. *)
Record WavOptions : Type := { float32 : option bool }.

(** Whether [opt?.float32] is truthy. *)
Definition requests_float32 (opt : option WavOptions) : bool :=
  match opt with
  | Some {| float32 := Some true |} => true
  | _ => false
  end.

Definition audioBufferToWav `{Float32Codec} (buffer : AudioBuffer)
    (opt : option WavOptions) : Completion Blob :=
  let numChannels := numberOfChannels buffer in
  let sampleRate := sampleRate buffer in
  let format := if requests_float32 opt then 3 else 1 in
  let bitDepth := if (format =? 3)%Z then 32 else 16 in
  result ← (if decide (numChannels = 2%nat)
            then inputL ← getChannelData buffer 0;
                 inputR ← getChannelData buffer 1;
                 mret (interleave inputL inputR)
            else getChannelData buffer 0);
  encodeWAV result format sampleRate (Z.of_nat numChannels) bitDepth.

(** The conversion loop that [audioBufferToMp3] runs on each channel it
    encodes: [sample[i] = Math.max(-1, Math.min(1, data[i])) * 32767.5],
    stored into an [Int16Array]. *)
Fixpoint floatToInt16 (data : Float32Array) (i : nat) (sample : Int16Array)
  : Int16Array :=
  match data with
  | [] => sample
  | x :: rest =>
      floatToInt16 rest (S i)
        (<[i := ToInt16 (JS.multiply
                           (Math_max (Finite (-1)) (Math_min (Finite 1) x))
                           (Finite (65535 # 2)))]> sample)
  end.

Definition push_if_nonempty (mp3Data : list (list byte)) (block : list byte)
  : list (list byte) :=
  if decide (0 < length block)%nat then mp3Data ++ [block] else mp3Data.

Definition audioBufferToMp3 (window_lamejs : option LameJs) (buffer : AudioBuffer)
  : Completion Blob :=
  match window_lamejs with
  | None => Throw (GenericError "lamejs library not loaded")
  | Some lamejs =>
      let channels := numberOfChannels buffer in
      let sampleRate := sampleRate buffer in
      let kbps := 192 in
      let mp3encoder := Mp3Encoder_new lamejs channels sampleRate kbps in
      let mp3Data := [] in
      let sampleLeft := replicate (bufferLength buffer) 0 in
      dataLeft ← getChannelData buffer 0;
      let sampleLeft := floatToInt16 dataLeft 0 sampleLeft in
      encoded ← (if decide (channels = 2%nat)
                 then
                   let sampleRight := replicate (bufferLength buffer) 0 in
                   dataRight ← getChannelData buffer 1;
                   let sampleRight := floatToInt16 dataRight 0 sampleRight in
                   mret (encodeBuffer lamejs mp3encoder sampleLeft (Some sampleRight))
                 else
                   mret (encodeBuffer lamejs mp3encoder sampleLeft None));
      let sampleBlock := fst encoded in
      let mp3encoder := snd encoded in
      let mp3Data := push_if_nonempty mp3Data sampleBlock in
      let endBlock := fst (flush lamejs mp3encoder) in
      let mp3Data := push_if_nonempty mp3Data endBlock in
      mret (newBlob mp3Data "audio/mp3")
  end.

End AudioUtils.

Import AudioUtils.

(* ===================================================================== *)
(** ** Web Audio: parameter automation and the offline context            *)
(* ===================================================================== *)

Module WebAudio.

Local Open Scope R_scope.

Inductive AutomationKind : Type := SetValue | LinearRamp.

Record AutomationEvent : Type := {
  ev_kind : AutomationKind;
  ev_value : R;
  ev_time : R
}.

Definition setValue (value time : R) : AutomationEvent :=
  {| ev_kind := SetValue; ev_value := value; ev_time := time |}.

Definition linearRamp (value time : R) : AutomationEvent :=
  {| ev_kind := LinearRamp; ev_value := value; ev_time := time |}.

Definition same_kind (a b : AutomationKind) : bool :=
  match a, b with
  | SetValue, SetValue | LinearRamp, LinearRamp => true
  | _, _ => false
  end.

(** The event list of an [AudioParam] is kept in time order.  A new event
    replaces an event of the same kind at the same time and otherwise
    goes after every event that is not later than it. *)
Fixpoint insertEvent (e : AutomationEvent) (events : list AutomationEvent)
  : list AutomationEvent :=
  match events with
  | [] => [e]
  | e' :: rest =>
      if Rlt_dec (ev_time e) (ev_time e') then e :: events
      else if Req_dec_T (ev_time e) (ev_time e') then
             if same_kind (ev_kind e) (ev_kind e') then e :: rest
             else e' :: insertEvent e rest
           else e' :: insertEvent e rest
  end.

(** [param.setValueAtTime(value, startTime)]; a negative time is a
    RangeError. *)
Definition setValueAtTime (events : list AutomationEvent) (value startTime : R)
  : Completion (list AutomationEvent) :=
  if Rlt_dec startTime 0 then Throw RangeError
  else Return (insertEvent (setValue value startTime) events).

(** [param.linearRampToValueAtTime(value, endTime)]. *)
Definition linearRampToValueAtTime (events : list AutomationEvent)
    (value endTime : R) : Completion (list AutomationEvent) :=
  if Rlt_dec endTime 0 then Throw RangeError
  else Return (insertEvent (linearRamp value endTime) events).

(** The value of the parameter at time [t], scanning the events in order.
    [prevT] and [prevV] are the time and value of the event just passed
    (initially time 0 and the parameter's default).  Up to the next event
    the value holds, unless that event is a ramp, which interpolates
    linearly from the previous event to its own value and time. *)
Fixpoint valueFrom (prevT prevV : R) (events : list AutomationEvent) (t : R) : R :=
  match events with
  | [] => prevV
  | e :: rest =>
      if Rlt_dec t (ev_time e) then
        match ev_kind e with
        | SetValue => prevV
        | LinearRamp =>
            prevV + (ev_value e - prevV) * ((t - prevT) / (ev_time e - prevT))
        end
      else valueFrom (ev_time e) (ev_value e) rest t
  end.

(** A [GainNode]'s [gain] defaults to 1. *)
Definition gainAtTime (events : list AutomationEvent) (t : R) : R :=
  valueFrom 0 1 events t.

(** Truncation toward zero of a real. *)
Definition truncR (x : R) : Z :=
  if Rle_dec 0 x then Int_part x else (- Int_part (- x))%Z.

(** An argument of IDL type [unsigned long]: truncated, then reduced
    modulo 2^32. *)
Definition to_unsigned_long (x : R) : Z := ToUint32 (truncR x).

Record OfflineAudioContext : Type := {
  ctx_numberOfChannels : nat;
  ctx_length : nat;
  ctx_sampleRate : Z
}.

(** [new OfflineAudioContext(numberOfChannels, length, sampleRate)]: a
    NotSupportedError when there is no channel or no frame to render. *)
Definition newOfflineAudioContext (numberOfChannels : nat) (length : R)
    (sampleRate : Z) : Completion OfflineAudioContext :=
  let frames := to_unsigned_long length in
  if decide (numberOfChannels = 0%nat) then Throw NotSupportedError
  else if decide (frames = 0%Z) then Throw NotSupportedError
  else Return {| ctx_numberOfChannels := numberOfChannels;
                 ctx_length := Z.to_nat frames;
                 ctx_sampleRate := sampleRate |}.

(** An [AudioBufferSourceNode] as [processAudioRegion] configures it. *)
Record BufferSource : Type := {
  src_buffer : AudioBuffer;
  src_playbackRate : R;
  src_detune : R;
  src_when : R;
  src_offset : R;
  src_duration : R
}.

(** [source.start(when, offset, duration)]: a RangeError when one of the
    three is negative. *)
Definition source_start (when offset duration : R) : Completion unit :=
  if Rlt_dec when 0 then Throw RangeError
  else if Rlt_dec offset 0 then Throw RangeError
  else if Rlt_dec duration 0 then Throw RangeError
  else Return tt.

(** source -> gain -> destination *)
Record RenderGraph : Type := {
  graph_context : OfflineAudioContext;
  graph_source : BufferSource;
  graph_gain : list AutomationEvent
}.

(** The signal processing of the platform: the sample that rendering a
    graph leaves in a given channel at a given frame. *)
Class RenderEngine : Type := rendered_sample : RenderGraph -> nat -> nat -> Number.

(** [offlineCtx.startRendering()]: a buffer with the context's channel
    count, length and sample rate. *)
Definition startRendering `{RenderEngine} (g : RenderGraph) : AudioBuffer :=
  let ctx := graph_context g in
  {| sampleRate := ctx_sampleRate ctx;
     bufferLength := ctx_length ctx;
     channelData :=
       map (fun c => map (rendered_sample g c) (seq 0 (ctx_length ctx)))
           (seq 0 (ctx_numberOfChannels ctx)) |}.

(** [buffer.duration], in seconds. *)
Definition duration (b : AudioBuffer) : R :=
  INR (bufferLength b) / IZR (sampleRate b).

End WebAudio.

Import WebAudio.

(* ===================================================================== *)
(** ** [src/components/WaveformEditor.tsx]                                *)
(* ===================================================================== *)

Module WaveformEditor.

Local Open Scope R_scope.

Inductive ExportFormat : Type := wav | mp3.

Record Region : Type := { region_start : R; region_end : R }.

(** The props, refs and state of the component that the audio code reads. *)
Record Editor : Type := {
  audioBuffer : AudioBuffer;
  regionRef : Region;
  exportFormat : ExportFormat;
  volume : R;
  fadeInDuration : R;
  fadeOutDuration : R;
  speed : R;
  pitch : R
}.

Definition detuneFactor (ed : Editor) : R := Rpower 2 (pitch ed / 12).
Definition effectiveRate (ed : Editor) : R := speed ed * detuneFactor ed.
Definition outputDuration (ed : Editor) : R :=
  (region_end (regionRef ed) - region_start (regionRef ed)) / effectiveRate ed.

(** The [length] argument that [processAudioRegion] passes to the offline
    context. *)
Definition requestedLength (ed : Editor) : R :=
  outputDuration ed * IZR (sampleRate (audioBuffer ed)).

(** The automation that [processAudioRegion] schedules on [gainNode.gain]. *)
Definition scheduleGain (fadeVolume fadeInDuration fadeOutDuration outputDuration : R)
  : Completion (list AutomationEvent) :=
  gain ← setValueAtTime [] 0 0;
  gain ← (if Rgt_dec fadeInDuration 0 then
            let safeFadeIn := Rmin fadeInDuration (outputDuration / 2) in
            linearRampToValueAtTime gain fadeVolume safeFadeIn
          else
            setValueAtTime gain fadeVolume 0);
  if Rgt_dec fadeOutDuration 0 then
    let safeFadeOut := Rmin fadeOutDuration (outputDuration / 2) in
    let fadeOutStart := outputDuration - safeFadeOut in
    gain ← setValueAtTime gain fadeVolume fadeOutStart;
    linearRampToValueAtTime gain 0 outputDuration
  else
    mret gain.

(** The event list those calls leave behind when none of them throws: the
    fade-in pair or the plain volume, then the fade-out pair if any. *)
Definition fade_events (volume fadeIn fadeOut D : R) : list AutomationEvent :=
  (if Rgt_dec fadeIn 0
   then [setValue 0 0; linearRamp volume (Rmin fadeIn (D / 2))]
   else [setValue volume 0])
  ++ (if Rgt_dec fadeOut 0
      then [setValue volume (D - Rmin fadeOut (D / 2)); linearRamp 0 D]
      else []).

(** [processAudioRegion]: nothing for an empty region; otherwise the
    offline context, the source started at the region ([source.start(0,
    start, duration)]), the gain automation and the render, each of which
    can throw. *)
Definition processAudioRegion `{RenderEngine} (ed : Editor)
  : Completion (option AudioBuffer) :=
  let start := region_start (regionRef ed) in
  let end_ := region_end (regionRef ed) in
  let duration := end_ - start in
  if Rle_dec duration 0 then mret None
  else
    let detuneFactor := Rpower 2 (pitch ed / 12) in
    let effectiveRate := speed ed * detuneFactor in
    let outputDuration := duration / effectiveRate in
    offlineCtx ← newOfflineAudioContext
                   (numberOfChannels (audioBuffer ed))
                   (outputDuration * IZR (sampleRate (audioBuffer ed)))
                   (sampleRate (audioBuffer ed));
    let source := {| src_buffer := audioBuffer ed;
                     src_playbackRate := speed ed;
                     src_detune := pitch ed * 100;
                     src_when := 0;
                     src_offset := start;
                     src_duration := duration |} in
    _ ← source_start 0 start duration;
    gain ← scheduleGain (volume ed) (fadeInDuration ed) (fadeOutDuration ed)
             outputDuration;
    mret (Some (startRendering {| graph_context := offlineCtx;
                                  graph_source := source;
                                  graph_gain := gain |})).

(** What one run of [tick] does. *)
Inductive TickResult : Type :=
| TickReturned                             (* plain [return]: nothing set, no new frame *)
| TickMoved (currentWaveformTime : R).     (* playhead set, next frame requested *)

(** The [tick] closure of [handlePreviewEffect].  [previewContext] is
    [previewContextRef.current]: the [currentTime] of the live context, or
    nothing once [stopPreview] has cleared it. *)
Definition tick (previewContext : option R)
    (startTime duration start regionDuration : R) : TickResult :=
  match previewContext with
  | None => TickReturned
  | Some currentTime =>
      let elapsed := currentTime - startTime in
      if Rgt_dec elapsed duration then TickReturned
      else
        let progress := elapsed / duration in
        let currentWaveformTime := start + progress * regionDuration in
        TickMoved currentWaveformTime
  end.

(** [tick] as [handlePreviewEffect] instantiates it for a rendered buffer. *)
Definition previewTick (ed : Editor) (processedBuffer : AudioBuffer)
    (previewContext : option R) (startTime : R) : TickResult :=
  let start := region_start (regionRef ed) in
  let regionDuration := region_end (regionRef ed) - region_start (regionRef ed) in
  tick previewContext startTime (WebAudio.duration processedBuffer) start regionDuration.

(** What [handleDownload] does that is visible outside of it, in order. *)
Inductive Effect : Type :=
| CallAudioBufferToWav (processedBuffer : AudioBuffer)
| CallAudioBufferToMp3 (processedBuffer : AudioBuffer)
| SaveFile (blob : Blob) (extension : string)
| DownloadSuccess
| ExportFailedAlert.

Definition afterEncoding (encoded : Completion Blob) (extension : string)
  : list Effect :=
  match encoded with
  | Return blob => [SaveFile blob extension; DownloadSuccess]
  | Throw _ => [ExportFailedAlert]
  end.

Definition handleDownload `{RenderEngine} `{Float32Codec}
    (window_lamejs : option LameJs) (ed : Editor) : list Effect :=
  match processAudioRegion ed with
  | Throw _ => [ExportFailedAlert]
  | Return None => []
  | Return (Some processedBuffer) =>
      match exportFormat ed with
      | wav =>
          CallAudioBufferToWav processedBuffer
            :: afterEncoding (audioBufferToWav processedBuffer None) "wav"
      | mp3 =>
          CallAudioBufferToMp3 processedBuffer
            :: afterEncoding (audioBufferToMp3 window_lamejs processedBuffer) "mp3"
      end
  end.

End WaveformEditor.

Import WaveformEditor.


(* ===================================================================== *)
(** ** The specification's own formulas                                   *)
(* ===================================================================== *)

Module Spec.

(** Clamping a finite sample to [-1, 1]. *)
Definition clamp (q : Q) : Q :=
  if Qltb q (-1) then -1 else if Qltb 1 q then 1 else q.

(** PCM16 quantisation: the clamped sample times 32768 when the sample is
    negative and times 32767 otherwise, truncated.  The infinities clamp
    to the ends of the range; NaN has no clamped value and is stored as 0. *)
Definition pcm16 (x : Number) : Z :=
  match x with
  | Finite q => truncate (clamp q * (if Qltb q 0 then 32768 else 32767))
  | PosInfinity => 32767
  | NegInfinity => -32768
  | NaN => 0
  end.

(** The MP3 adapter's conversion: the clamped sample times 32767.5,
    truncated. *)
Definition mp3_int16 (x : Number) : Z :=
  match x with
  | Finite q => truncate (clamp q * (65535 # 2))
  | PosInfinity => 32767
  | NegInfinity => -32767
  | NaN => 0
  end.

(** Frame-by-frame interleaving: channel 0, channel 1, channel 0, ... *)
Fixpoint frames (channel0 channel1 : Float32Array) : Float32Array :=
  match channel0, channel1 with
  | l :: channel0', r :: channel1' => l :: r :: frames channel0' channel1'
  | _, _ => []
  end.

(** What the WAV encoder serialises: the interleaved frames of a
    two-channel buffer, and channel 0 alone of any other buffer. *)
Definition serialized_samples (b : AudioBuffer) : Float32Array :=
  match channelData b with
  | [channel0; channel1] => frames channel0 channel1
  | channel0 :: _ => channel0
  | [] => []
  end.

Definition bytesPerSample (bitsPerSample : Z) : Z := bitsPerSample / 8.

(** The canonical 44-byte header, every multi-byte field little-endian. *)
Definition wav_header (formatTag channels sampleRate bitsPerSample dataSize : Z)
  : list byte :=
  let blockAlign := channels * bytesPerSample bitsPerSample in
  let byteRate := sampleRate * blockAlign in
  list_byte_of_string "RIFF" ++ le_bytes 4 (36 + dataSize)
    ++ list_byte_of_string "WAVE"
    ++ list_byte_of_string "fmt " ++ le_bytes 4 16
    ++ le_bytes 2 formatTag ++ le_bytes 2 channels
    ++ le_bytes 4 sampleRate ++ le_bytes 4 byteRate
    ++ le_bytes 2 blockAlign ++ le_bytes 2 bitsPerSample
    ++ list_byte_of_string "data" ++ le_bytes 4 dataSize.

(** The sample data of a PCM16 file: two little-endian bytes per sample. *)
Definition pcm16_data (samples : Float32Array) : list byte :=
  flat_map (fun x => le_bytes 2 (pcm16 x)) samples.

(** The sample data of a Float32 file: four little-endian bytes per sample. *)
Definition float32_data `{Float32Codec} (samples : Float32Array) : list byte :=
  flat_map (fun x => le_bytes 4 (float32_bits x)) samples.

(** The bytes that encode a list of samples in the chosen format. *)
Definition sample_data `{Float32Codec} (float32 : bool) (samples : Float32Array)
  : list byte :=
  if float32 then float32_data samples else pcm16_data samples.

(** The whole file for a buffer: format tag 1 and 16 bits per sample for
    PCM16, format tag 3 and 32 bits for Float32. *)
Definition wav_file `{Float32Codec} (float32 : bool) (b : AudioBuffer) : list byte :=
  let samples := serialized_samples b in
  let bitsPerSample := if float32 then 32 else 16 in
  wav_header (if float32 then 3 else 1) (Z.of_nat (numberOfChannels b))
    (sampleRate b) bitsPerSample
    (Z.of_nat (length samples) * bytesPerSample bitsPerSample)
  ++ sample_data float32 samples.

(** One second of mono silence at 44100 Hz. *)
Definition silence_1s_mono_44100 : AudioBuffer :=
  {| sampleRate := 44100;
     bufferLength := Z.to_nat 44100;
     channelData := [replicate (Z.to_nat 44100) (Finite 0)] |}.

(** The 44 header bytes for given RIFF and data sizes of that buffer as
    PCM16: RIFF, size, WAVE, "fmt ", 16, format 1, 1 channel, 44100 Hz,
    byte rate 88200, block align 2, 16 bits, data, size. *)
Definition header_1s_mono_44100 (riffSize dataSize : list byte) : list byte :=
  list_byte_of_string "RIFF" ++ riffSize
    ++ list_byte_of_string "WAVE"
    ++ list_byte_of_string "fmt " ++ [x10; x00; x00; x00]
    ++ [x01; x00] ++ [x01; x00]
    ++ [x44; xac; x00; x00] ++ [x88; x58; x01; x00]
    ++ [x02; x00] ++ [x10; x00]
    ++ list_byte_of_string "data" ++ dataSize.

(** The header as the specification lists it, with RIFF size 88244
    (0x000158B4) and data size 88200 (0x00015888). *)
Definition header_silence_as_listed : list byte :=
  header_1s_mono_44100 [xb4; x58; x01; x00] [x88; x58; x01; x00].

(** The same header with RIFF size 36 + 88200 = 88236 (0x000158AC). *)
Definition header_silence_riff_36_plus_data : list byte :=
  header_1s_mono_44100 [xac; x58; x01; x00] [x88; x58; x01; x00].

(** [Math.round]: the nearest integer, ties upward. *)
Definition round (x : R) : Z := Int_part (x + / 2).

(** The number of frames the renderer should produce per channel. *)
Definition expected_frames (regionStart regionEnd speed pitchSemitones : R)
    (sampleRate : Z) : Z :=
  round ((regionEnd - regionStart) / (speed * Rpower 2 (pitchSemitones / 12))
         * IZR sampleRate)%R.

(** The gain envelope over an output of duration [D]: a ramp from 0 to
    [volume] over the first [min(fadeInSeconds, D/2)], [volume] between
    the ramps, a ramp from [volume] to 0 over the last
    [min(fadeOutSeconds, D/2)]. *)
Definition envelope (volume fadeInSeconds fadeOutSeconds D t : R) : R :=
  let fadeIn := Rmin fadeInSeconds (D / 2) in
  let fadeOut := Rmin fadeOutSeconds (D / 2) in
  if Rlt_dec t fadeIn then (volume * (t / fadeIn))%R
  else if Rle_dec t (D - fadeOut) then volume
  else (volume * ((D - t) / fadeOut))%R.

(** The playhead projection of the preview clock. *)
Definition projectedTime (regionStart regionEnd outputDuration elapsed : R) : R :=
  (regionStart + (elapsed / outputDuration) * (regionEnd - regionStart))%R.

End Spec.

(* ===================================================================== *)
(** ** Concrete inputs used to exercise the theorems                      *)
(* ===================================================================== *)

Module Examples.

(** A stand-in for the binary32 encoder of the platform. *)
Definition zero_codec : Float32Codec := fun _ => 0.

(** A stand-in for the signal processing of the platform: silence. *)
Definition silent_engine : RenderEngine := fun _ _ _ => Finite 0.

(** One frame on three channels. *)
Definition three_channels : AudioBuffer :=
  {| sampleRate := 8000;
     bufferLength := 1;
     channelData := [[Finite 1]; [Finite (1 # 2)]; [Finite (-1)]] |}.

(** Two frames on two channels. *)
Definition stereo : AudioBuffer :=
  {| sampleRate := 8000;
     bufferLength := 2;
     channelData := [[Finite 1; Finite (1 # 2)]; [Finite (-1); Finite (-2)]] |}.

(** An encoder that emits one byte per input sample and a one-byte
    trailer on [flush]. *)
Definition toy_lame : LameJs :=
  {| Mp3Encoder := unit;
     Mp3Encoder_new := fun _ _ _ => tt;
     encodeBuffer := fun _ left _ => (map byte_of_Z left, tt);
     flush := fun _ => ([xff], tt) |}.

(** Ten seconds selected, one octave up, on a mono 44100 Hz source. *)
Definition octave_up : Editor :=
  {| audioBuffer := Spec.silence_1s_mono_44100;
     regionRef := {| region_start := 0; region_end := 10 |};
     exportFormat := mp3;
     volume := 1;
     fadeInDuration := 1;
     fadeOutDuration := 1;
     speed := 1;
     pitch := 12 |}.

(** An empty selection. *)
Definition empty_region : Editor :=
  {| audioBuffer := Spec.silence_1s_mono_44100;
     regionRef := {| region_start := 3; region_end := 3 |};
     exportFormat := mp3;
     volume := 1;
     fadeInDuration := 1;
     fadeOutDuration := 1;
     speed := 1;
     pitch := 0 |}.

(** Three seconds selected from 2 s, rendered to three frames at 1 Hz. *)
Definition preview_editor : Editor :=
  {| audioBuffer := Spec.silence_1s_mono_44100;
     regionRef := {| region_start := 2; region_end := 5 |};
     exportFormat := wav;
     volume := 1;
     fadeInDuration := 1;
     fadeOutDuration := 1;
     speed := 1;
     pitch := 0 |}.

Definition preview_buffer : AudioBuffer :=
  {| sampleRate := 1;
     bufferLength := 3;
     channelData := [[Finite 0; Finite 0; Finite 0]] |}.

End Examples.

(* ===================================================================== *)
(** ** Reading interleaved data back, and negation of a sample           *)
(* ===================================================================== *)

Module Decode.

(** Every second element of a list, from the first one on: channel 0 of a
    two-channel interleaved stream.  Channel 1 is the same on the tail. *)
Fixpoint every_other {A : Type} (l : list A) : list A :=
  match l with
  | [] => []
  | x :: rest =>
      x :: match rest with
           | [] => []
           | _ :: rest' => every_other rest'
           end
  end.

Definition channel0 {A : Type} (frames : list A) : list A := every_other frames.
Definition channel1 {A : Type} (frames : list A) : list A := every_other (tail frames).

(** [-x] on a sample. *)
Definition negate (x : Number) : Number :=
  match x with
  | Finite q => Finite (- q)
  | PosInfinity => NegInfinity
  | NegInfinity => PosInfinity
  | NaN => NaN
  end.

(** The number that a 32-bit word stands for as an IEEE 754 binary32: one
    sign bit, eight exponent bits, 23 fraction bits.  A [Number] has one
    zero, so both zeros read as [Finite 0]. *)
Definition binary32_value (bits : Z) : Number :=
  let w := bits mod 4294967296 in
  let negative := (w / 2147483648 =? 1)%Z in
  let e := (w / 8388608) mod 256 in
  let m := w mod 8388608 in
  let signed (q : Q) := Finite (Qred (if negative then (- q)%Q else q)) in
  if (e =? 255)%Z then
    if (m =? 0)%Z then (if negative then NegInfinity else PosInfinity) else NaN
  else if (e =? 0)%Z then signed (inject_Z m * Qpower 2 (-149))%Q
  else signed (inject_Z (8388608 + m) * Qpower 2 (e - 150))%Q.

(** [view.getFloat32(byteOffset, true)] *)
Definition getFloat32 (view : DataView.t) (byteOffset : nat) : option Number :=
  binary32_value <$> getUint32 view byteOffset.

End Decode.

Module CodecExamples.

(** A stand-in for the binary32 encoder that is right on 2 and on -1.5. *)
Definition two_values : Float32Codec :=
  fun x =>
    match x with
    | Finite q =>
        if Qeq_bool q 2 then 1073741824
        else if Qeq_bool q ((-3) # 2) then 3217031168
        else 0
    | _ => 0
    end.

End CodecExamples.

(* ===================================================================== *)
(** ** The effect controls of the editor                                  *)
(* ===================================================================== *)

Module Controls.

Local Open Scope R_scope.

(** The state setters behind the sliders. *)
Definition setSpeed (value : R) (ed : Editor) : Editor :=
  {| audioBuffer := audioBuffer ed;
     regionRef := regionRef ed;
     exportFormat := exportFormat ed;
     volume := volume ed;
     fadeInDuration := fadeInDuration ed;
     fadeOutDuration := fadeOutDuration ed;
     speed := value;
     pitch := pitch ed |}.

Definition setPitch (value : R) (ed : Editor) : Editor :=
  {| audioBuffer := audioBuffer ed;
     regionRef := regionRef ed;
     exportFormat := exportFormat ed;
     volume := volume ed;
     fadeInDuration := fadeInDuration ed;
     fadeOutDuration := fadeOutDuration ed;
     speed := speed ed;
     pitch := value |}.

Definition setFadeInDuration (value : R) (ed : Editor) : Editor :=
  {| audioBuffer := audioBuffer ed;
     regionRef := regionRef ed;
     exportFormat := exportFormat ed;
     volume := volume ed;
     fadeInDuration := value;
     fadeOutDuration := fadeOutDuration ed;
     speed := speed ed;
     pitch := pitch ed |}.

Definition setFadeOutDuration (value : R) (ed : Editor) : Editor :=
  {| audioBuffer := audioBuffer ed;
     regionRef := regionRef ed;
     exportFormat := exportFormat ed;
     volume := volume ed;
     fadeInDuration := fadeInDuration ed;
     fadeOutDuration := value;
     speed := speed ed;
     pitch := pitch ed |}.

Definition setVolume (value : R) (ed : Editor) : Editor :=
  {| audioBuffer := audioBuffer ed;
     regionRef := regionRef ed;
     exportFormat := exportFormat ed;
     volume := value;
     fadeInDuration := fadeInDuration ed;
     fadeOutDuration := fadeOutDuration ed;
     speed := speed ed;
     pitch := pitch ed |}.

(** The click handler of the reset button:
    [setSpeed(1); setPitch(0); setFadeInDuration(1); setFadeOutDuration(1);
     setVolume(1)]. *)
Definition resetEffects (ed : Editor) : Editor :=
  setVolume 1 (setFadeOutDuration 1 (setFadeInDuration 1 (setPitch 0 (setSpeed 1 ed)))).

End Controls.

Module MoreExamples.

Local Open Scope R_scope.

(** Half a frame selected on a mono 44100 Hz source. *)
Definition half_frame : Editor :=
  {| audioBuffer := Spec.silence_1s_mono_44100;
     regionRef := {| region_start := 0; region_end := / 88200 |};
     exportFormat := wav;
     volume := 1;
     fadeInDuration := 1;
     fadeOutDuration := 1;
     speed := 1;
     pitch := 0 |}.

End MoreExamples.

(* ===================================================================== *)
(** ** The preview player of [WaveformEditor.tsx]                         *)
(* ===================================================================== *)

Module Preview.

Local Open Scope R_scope.

(** The handlers [stopPreview], [handlePreviewEffect] and [source.onended],
    and the [tick] closure, as transitions on the refs they share and on a
    record of the calls they make.  Clock readings are idealised as real
    numbers.

    What the preview code asks of the platform and of WaveSurfer.  A
    context is named by the order of its creation, and the one source node
    made on it by the same number. *)
Inductive Call : Type :=
| SourceStop (context : nat)                   (* [previewSourceRef.current.stop()] *)
| ContextClose (context : nat)                 (* [previewContextRef.current.close()] *)
| CancelAnimationFrame (handle : nat)
| WaveSurferPause
| NewAudioContext (context : nat)
| SourceStart (context : nat) (buffer : AudioBuffer)
| WaveSurferSetTime (time : R)
| RequestAnimationFrame (handle : nat)
| ConsoleError.

(** The refs and state that the preview code reads and writes. *)
Record Refs : Type := {
  previewSourceRef : option nat;
  previewContextRef : option nat;
  animationFrameRef : option nat;
  isPreviewing : bool;
  currentTime : R
}.

(** The platform: the number of contexts made so far, the last animation
    frame handle given out (handles start at 1), and the calls received,
    oldest first. *)
Record Platform : Type := {
  nextContext : nat;
  lastHandle : nat;
  calls : list Call
}.

Definition call (c : Call) (p : Platform) : Platform :=
  {| nextContext := nextContext p;
     lastHandle := lastHandle p;
     calls := calls p ++ [c] |}.

(** [if (animationFrameRef.current)]: a handle of 0 counts as absent. *)
Definition truthy (handle : option nat) : bool :=
  match handle with
  | Some (S _) => true
  | _ => false
  end.

Definition stopPreview (st : Refs * Platform) : Refs * Platform :=
  let r := fst st in
  let p := snd st in
  let p := match previewSourceRef r with
           | Some source => call (SourceStop source) p
           | None => p
           end in
  let p := match previewContextRef r with
           | Some context => call (ContextClose context) p
           | None => p
           end in
  let p := match animationFrameRef r with
           | Some handle =>
               if truthy (Some handle) then call (CancelAnimationFrame handle) p
               else p
           | None => p
           end in
  ({| previewSourceRef := None;
      previewContextRef := None;
      animationFrameRef :=
        if truthy (animationFrameRef r) then None else animationFrameRef r;
      isPreviewing := false;
      currentTime := currentTime r |}, p).

(** What a [tick] closure has captured. *)
Record TickClosure : Type := {
  tick_startTime : R;
  tick_duration : R;
  tick_start : R;
  tick_regionDuration : R
}.

(** One run of a [tick] closure; [contextTime] is the [currentTime] of the
    context that [previewContextRef] holds at that moment, if it holds
    one, and [wavesurfer] tells whether [wavesurferRef.current] is set. *)
Definition runTick (k : TickClosure) (wavesurfer : bool) (contextTime : R)
    (st : Refs * Platform) : Refs * Platform :=
  let r := fst st in
  let p := snd st in
  match tick (match previewContextRef r with
              | Some _ => Some contextTime
              | None => None
              end)
          (tick_startTime k) (tick_duration k) (tick_start k)
          (tick_regionDuration k) with
  | TickReturned => st
  | TickMoved currentWaveformTime =>
      let p := if wavesurfer then call (WaveSurferSetTime currentWaveformTime) p
               else p in
      let handle := S (lastHandle p) in
      ({| previewSourceRef := previewSourceRef r;
          previewContextRef := previewContextRef r;
          animationFrameRef := Some handle;
          isPreviewing := isPreviewing r;
          currentTime := currentWaveformTime |},
       {| nextContext := nextContext p;
          lastHandle := handle;
          calls := calls p ++ [RequestAnimationFrame handle] |})
  end.

(** [handlePreviewEffect] up to its [await]: the result tells whether it
    goes on to render. *)
Definition handlePreviewEffect (isPlaying wavesurfer : bool)
    (st : Refs * Platform) : Refs * Platform * bool :=
  if isPreviewing (fst st) then (stopPreview st, false)
  else
    (fst st, if isPlaying && wavesurfer then call WaveSurferPause (snd st)
             else snd st,
     true).

(** [handlePreviewEffect] from its [await] on, given how
    [processAudioRegion] settled, [regionRef.current] at that moment and
    the new context's [currentTime]; the constructor of the context is
    taken to succeed.  The first [tick] runs in the same task, so it reads
    the same [currentTime]. *)
Definition previewRendered (result : Completion (option AudioBuffer))
    (region : Region) (wavesurfer : bool) (contextTime : R)
    (st : Refs * Platform) : Refs * Platform :=
  let r := fst st in
  let p := snd st in
  match result with
  | Throw _ => (r, call ConsoleError p)
  | Return None => st
  | Return (Some processedBuffer) =>
      let start := region_start region in
      let regionDuration := region_end region - region_start region in
      let ctx := nextContext p in
      let p := {| nextContext := S ctx;
                  lastHandle := lastHandle p;
                  calls := calls p ++ [NewAudioContext ctx] |} in
      let startTime := contextTime in
      let duration := WebAudio.duration processedBuffer in
      let p := call (SourceStart ctx processedBuffer) p in
      let r := {| previewSourceRef := Some ctx;
                  previewContextRef := Some ctx;
                  animationFrameRef := animationFrameRef r;
                  isPreviewing := true;
                  currentTime := currentTime r |} in
      runTick {| tick_startTime := startTime;
                 tick_duration := duration;
                 tick_start := start;
                 tick_regionDuration := regionDuration |}
        wavesurfer contextTime (r, p)
  end.

(** [source.onended]. *)
Definition onended (st : Refs * Platform) : Refs * Platform :=
  let r := fst st in
  let p := snd st in
  ({| previewSourceRef := previewSourceRef r;
      previewContextRef := previewContextRef r;
      animationFrameRef := animationFrameRef r;
      isPreviewing := false;
      currentTime := currentTime r |},
   match animationFrameRef r with
   | Some handle =>
       if truthy (Some handle) then call (CancelAnimationFrame handle) p else p
   | None => p
   end).

(** What can happen to the preview player, one task at a time. *)
Inductive Event : Type :=
| Click (isPlaying wavesurfer : bool)
| Rendered (result : Completion (option AudioBuffer)) (region : Region)
    (wavesurfer : bool) (contextTime : R)
| Ended
| Frame (k : TickClosure) (wavesurfer : bool) (contextTime : R)
| Stop.                  (* [stopPreview] from [handleUp], [play] or unmount *)

Definition step (st : Refs * Platform) (e : Event) : Refs * Platform :=
  match e with
  | Click isPlaying wavesurfer => fst (handlePreviewEffect isPlaying wavesurfer st)
  | Rendered result region wavesurfer contextTime =>
      previewRendered result region wavesurfer contextTime st
  | Ended => onended st
  | Frame k wavesurfer contextTime => runTick k wavesurfer contextTime st
  | Stop => stopPreview st
  end.

Definition run (st : Refs * Platform) (events : list Event) : Refs * Platform :=
  fold_left step events st.

(** One preview from the click to its natural end: the click, the render
    settling with a buffer, and the source's [ended] event. *)
Definition played_to_the_end (round : AudioBuffer * Region * R) : list Event :=
  [Click false true;
   Rendered (Return (Some (fst (fst round)))) (snd (fst round)) true (snd round);
   Ended].

(** The component as mounted, before any preview. *)
Definition initial : Refs * Platform :=
  ({| previewSourceRef := None;
      previewContextRef := None;
      animationFrameRef := None;
      isPreviewing := false;
      currentTime := 0 |},
   {| nextContext := 0; lastHandle := 0; calls := [] |}).

(** The contexts made, the contexts closed and the sources stopped by a
    list of calls, in order. *)
Definition createdContexts (l : list Call) : list nat :=
  flat_map (fun c => match c with NewAudioContext n => [n] | _ => [] end) l.

Definition closedContexts (l : list Call) : list nat :=
  flat_map (fun c => match c with ContextClose n => [n] | _ => [] end) l.

Definition stoppedSources (l : list Call) : list nat :=
  flat_map (fun c => match c with SourceStop n => [n] | _ => [] end) l.

(** The three things a task can do to the two refs while it adds [extra]
    to the calls: stop what they hold and clear them, leave them alone, or
    make the next context and put it in both. *)
Definition task_shape (st st' : Refs * Platform) (extra : list Call) : Prop :=
  (closedContexts extra = option_list (previewContextRef (fst st)) /\
   stoppedSources extra = option_list (previewSourceRef (fst st)) /\
   createdContexts extra = [] /\
   previewContextRef (fst st') = None /\
   previewSourceRef (fst st') = None /\
   nextContext (snd st') = nextContext (snd st))
  \/
  (closedContexts extra = [] /\
   stoppedSources extra = [] /\
   createdContexts extra = [] /\
   previewContextRef (fst st') = previewContextRef (fst st) /\
   previewSourceRef (fst st') = previewSourceRef (fst st) /\
   nextContext (snd st') = nextContext (snd st))
  \/
  (closedContexts extra = [] /\
   stoppedSources extra = [] /\
   createdContexts extra = [nextContext (snd st)] /\
   previewContextRef (fst st') = Some (nextContext (snd st)) /\
   previewSourceRef (fst st') = Some (nextContext (snd st)) /\
   nextContext (snd st') = S (nextContext (snd st))).

(** What holds of the player at every moment: the contexts made so far are
    numbered below [nextContext], both refs hold the same thing, and what
    they hold has been made and neither closed nor stopped. *)
Definition player_ok (st : Refs * Platform) : Prop :=
  previewSourceRef (fst st) = previewContextRef (fst st) /\
  createdContexts (calls (snd st)) = seq 0 (nextContext (snd st)) /\
  NoDup (closedContexts (calls (snd st))) /\
  NoDup (stoppedSources (calls (snd st))) /\
  (forall c : nat, In c (closedContexts (calls (snd st))) ->
                   (c < nextContext (snd st))%nat) /\
  (forall c : nat, In c (stoppedSources (calls (snd st))) ->
                   (c < nextContext (snd st))%nat) /\
  (forall c : nat, previewContextRef (fst st) = Some c ->
     (c < nextContext (snd st))%nat /\
     ~ In c (closedContexts (calls (snd st))) /\
     ~ In c (stoppedSources (calls (snd st)))).

(** A context that is open, whose source has not been stopped, and that
    the refs no longer hold. *)
Definition orphaned (c : nat) (st : Refs * Platform) : Prop :=
  (c < nextContext (snd st))%nat /\
  previewContextRef (fst st) <> Some c /\
  previewSourceRef (fst st) <> Some c /\
  ~ In c (closedContexts (calls (snd st))) /\
  ~ In c (stoppedSources (calls (snd st))).

End Preview.

(* ===================================================================== *)
(** ** The region box of [WaveformEditor.tsx] and its drag handlers        *)
(* ===================================================================== *)

Module RegionUI.

Local Open Scope R_scope.

(** The handlers [handleDown], [handleMove], [handleUp], the [ready]
    handler and [updateRegionDOM], as transitions on the component's refs
    and state.  Times in seconds and positions in pixels are idealised as
    real numbers; [Math.min] and [Math.max] are then [Rmin] and [Rmax], and
    the divisions by [duration] and by [pxPerSec] mean what they mean in
    the code as long as both are positive.  The code computes in binary64:
    its sums, differences and quotients are these, rounded, a few units in
    the last place away. *)

(** ['start' | 'end' | 'box'] *)
Inductive DragTarget : Type := target_start | target_end | target_box.

Record DragState : Type := {
  target : option DragTarget;
  startX : R;
  startScrollLeft : R;
  startTimeState : Region
}.

(** What the handlers read from WaveSurfer. *)
Record Wrapper : Type := { scrollWidth : R; scrollLeft : R }.
Record WaveSurfer : Type := { getDuration : R; getWrapper : Wrapper }.

(** The inline styles that [updateRegionDOM] sets, in pixels. *)
Record BoxStyle : Type := { layer_width : R; box_left : R; box_width : R }.

Record Component : Type := {
  regionRef : Region;
  dragRef : DragState;
  currentDuration : R;
  totalDuration : R;
  isReady : bool;
  boxStyle : option BoxStyle;        (* nothing until the first update *)
  preview : Preview.Refs * Preview.Platform
}.

(** The layout part of [updateRegionDOM]; [elements] tells whether the
    layer and the box exist.  The text of the two time labels, which the
    function also sets, is not represented. *)
Definition updateRegionDOM (ws : option WaveSurfer) (elements : bool)
    (c : Component) : Component :=
  match ws with
  | None => c
  | Some ws =>
      if negb elements then c
      else
        let start := region_start (regionRef c) in
        let end_ := region_end (regionRef c) in
        let duration := getDuration ws in
        if Rle_dec duration 0 then c
        else
          let scrollWidth := scrollWidth (getWrapper ws) in
          let pxPerSec := scrollWidth / duration in
          let leftPx := start * pxPerSec in
          let widthPx := (end_ - start) * pxPerSec in
          {| regionRef := regionRef c;
             dragRef := dragRef c;
             currentDuration := currentDuration c;
             totalDuration := totalDuration c;
             isReady := isReady c;
             boxStyle := Some {| layer_width := scrollWidth;
                                 box_left := leftPx;
                                 box_width := widthPx |};
             preview := preview c |}
  end.

(** [handleDown]: the three flags tell which elements contain the event's
    target, [clientX] is what [getClientX] returns for the event. *)
Definition handleDown (ws : option WaveSurfer) (elements : bool)
    (inHandleStart inHandleEnd inBox : bool) (clientX : R) (c : Component)
  : Component :=
  if negb elements then c
  else
    match (if inHandleStart then Some target_start
           else if inHandleEnd then Some target_end
           else if inBox then Some target_box
           else None) with
    | None => c
    | Some targetType =>
        {| regionRef := regionRef c;
           dragRef := {| target := Some targetType;
                         startX := clientX;
                         startScrollLeft :=
                           match ws with
                           | Some ws => scrollLeft (getWrapper ws)
                           | None => 0
                           end;
                         startTimeState := regionRef c |};
           currentDuration := currentDuration c;
           totalDuration := totalDuration c;
           isReady := isReady c;
           boxStyle := boxStyle c;
           preview := preview c |}
    end.

Definition handleMove (ws : option WaveSurfer) (elements : bool) (clientX : R)
    (c : Component) : Component :=
  match target (dragRef c), ws with
  | Some target, Some ws =>
      let startTimeState := startTimeState (dragRef c) in
      let duration := getDuration ws in
      let scrollWidth := scrollWidth (getWrapper ws) in
      let currentX := clientX in
      let currentScrollLeft := scrollLeft (getWrapper ws) in
      let pxDeltaScreen := currentX - startX (dragRef c) in
      let pxDeltaScroll := currentScrollLeft - startScrollLeft (dragRef c) in
      let totalPxDelta := pxDeltaScreen + pxDeltaScroll in
      let pxPerSec := scrollWidth / duration in
      let timeDelta := totalPxDelta / pxPerSec in
      let newRegion :=
        match target with
        | target_start =>
            {| region_start :=
                 Rmin (Rmax 0 (region_start startTimeState + timeDelta))
                      (region_end startTimeState - 1 / 10);
               region_end := region_end (regionRef c) |}
        | target_end =>
            {| region_start := region_start (regionRef c);
               region_end :=
                 Rmax (Rmin duration (region_end startTimeState + timeDelta))
                      (region_start startTimeState + 1 / 10) |}
        | target_box =>
            let span := region_end startTimeState - region_start startTimeState in
            let newStart :=
              Rmax 0 (Rmin (duration - span)
                           (region_start startTimeState + timeDelta)) in
            {| region_start := newStart; region_end := newStart + span |}
        end in
      updateRegionDOM (Some ws) elements
        {| regionRef := newRegion;
           dragRef := dragRef c;
           currentDuration := region_end newRegion - region_start newRegion;
           totalDuration := totalDuration c;
           isReady := isReady c;
           boxStyle := boxStyle c;
           preview := preview c |}
  | _, _ => c
  end.

Definition handleUp (c : Component) : Component :=
  {| regionRef := regionRef c;
     dragRef := {| target := None;
                   startX := startX (dragRef c);
                   startScrollLeft := startScrollLeft (dragRef c);
                   startTimeState := startTimeState (dragRef c) |};
     currentDuration := currentDuration c;
     totalDuration := totalDuration c;
     isReady := isReady c;
     boxStyle := boxStyle c;
     preview := Preview.stopPreview (preview c) |}.

(** The handler of WaveSurfer's [ready] event. *)
Definition ready (ws : WaveSurfer) (elements : bool) (c : Component) : Component :=
  let d := getDuration ws in
  let initEnd := Rmin d 30 in
  updateRegionDOM (Some ws) elements
    {| regionRef := {| region_start := 0; region_end := initEnd |};
       dragRef := dragRef c;
       currentDuration := initEnd;
       totalDuration := d;
       isReady := true;
       boxStyle := boxStyle c;
       preview := preview c |}.

(** The component before [ready]. *)
Definition mounted : Component :=
  {| regionRef := {| region_start := 0; region_end := 0 |};
     dragRef := {| target := None;
                   startX := 0;
                   startScrollLeft := 0;
                   startTimeState := {| region_start := 0; region_end := 0 |} |};
     currentDuration := 0;
     totalDuration := 0;
     isReady := false;
     boxStyle := None;
     preview := Preview.initial |}.

(** Pointer and layout events, each with what WaveSurfer shows then. *)
Inductive Event : Type :=
| Down (ws : option WaveSurfer) (elements : bool)
    (inHandleStart inHandleEnd inBox : bool) (clientX : R)
| Move (ws : option WaveSurfer) (elements : bool) (clientX : R)
| Up
| Redraw (ws : option WaveSurfer) (elements : bool).  (* [redraw], [zoom], scroll *)

Definition step (c : Component) (e : Event) : Component :=
  match e with
  | Down ws elements inHandleStart inHandleEnd inBox clientX =>
      handleDown ws elements inHandleStart inHandleEnd inBox clientX c
  | Move ws elements clientX => handleMove ws elements clientX c
  | Up => handleUp c
  | Redraw ws elements => updateRegionDOM ws elements c
  end.

Definition run (c : Component) (events : list Event) : Component :=
  fold_left step events c.

(** A run of moves, each with what WaveSurfer shows, whether the
    elements exist, and the pointer's [clientX]. *)
Definition moves_of (moves : list (option WaveSurfer * bool * R)) : list Event :=
  map (fun m => Move (fst (fst m)) (snd (fst m)) (snd m)) moves.



(** A selection inside a clip of [d] seconds that is at least a tenth of
    a second long. *)
Definition selection_ok (d : R) (r : Region) : Prop :=
  0 <= region_start r /\
  region_start r + 1 / 10 <= region_end r /\
  region_end r <= d.


End RegionUI.

Module UIExamples.

Local Open Scope R_scope.

(** A clip of twelve seconds drawn 600 pixels wide, not scrolled. *)
Definition clip_12s : RegionUI.WaveSurfer :=
  {| RegionUI.getDuration := 12;
     RegionUI.getWrapper := {| RegionUI.scrollWidth := 600;
                               RegionUI.scrollLeft := 0 |} |}.

(** A clip of a twentieth of a second. *)
Definition short_clip : RegionUI.WaveSurfer :=
  {| RegionUI.getDuration := 1 / 20;
     RegionUI.getWrapper := {| RegionUI.scrollWidth := 600;
                               RegionUI.scrollLeft := 0 |} |}.

(** The component with seconds 2 to 5 selected and no drag going on. *)
Definition selected : RegionUI.Component :=
  {| RegionUI.regionRef := {| region_start := 2; region_end := 5 |};
     RegionUI.dragRef := RegionUI.dragRef RegionUI.mounted;
     RegionUI.currentDuration := 3;
     RegionUI.totalDuration := 12;
     RegionUI.isReady := true;
     RegionUI.boxStyle := None;
     RegionUI.preview := Preview.initial |}.

End UIExamples.

From Stdlib Require Import DecimalString DecimalZ DecimalPos.
From stdpp Require gmap strings.

(* ===================================================================== *)
(** ** [App.tsx]: the two counters kept in [localStorage], and the steps  *)
(* ===================================================================== *)

Module App.

Local Open Scope string_scope.
Local Open Scope Z_scope.

(** A counter: an integer, or NaN.  A JavaScript number holds an integer
    exactly as long as it is below 2^53 in absolute value; the counters
    are modelled on that range, where [n + 1], [toString] and [parseInt]
    are exact and [toString] writes plain decimal digits. *)
Definition Count : Type := option Z.

Definition NaN : Count := None.

(** The integers that a number holds exactly. *)
Definition safe (z : Z) : Prop := - 2 ^ 53 < z < 2 ^ 53.

(** [n + 1] *)
Definition plus_one (n : Count) : Count :=
  match n with
  | Some z => Some (z + 1)
  | None => None
  end.

(** [n.toString()] for a counter. *)
Definition toString (n : Count) : string :=
  match n with
  | Some z => NilEmpty.string_of_int (Z.to_int z)
  | None => "NaN"
  end.

(** The white space and line terminators that fit one byte. *)
Definition isStrWhiteSpaceChar (c : ascii) : bool :=
  match nat_of_ascii c with
  | 9%nat | 10%nat | 11%nat | 12%nat | 13%nat | 32%nat | 160%nat => true
  | _ => false
  end.

Fixpoint trimStart (s : string) : string :=
  match s with
  | String c rest => if isStrWhiteSpaceChar c then trimStart rest else s
  | EmptyString => s
  end.

(** The value of a character as a digit of the given radix, if it is one. *)
Definition digitValue (radix : N) (c : ascii) : option N :=
  let code := N_of_ascii c in
  let value :=
    if ((48 <=? code) && (code <=? 57))%N then Some (code - 48)%N
    else if ((97 <=? code) && (code <=? 122))%N then Some (code - 87)%N
    else if ((65 <=? code) && (code <=? 90))%N then Some (code - 55)%N
    else None in
  match value with
  | Some v => if (v <? radix)%N then Some v else None
  | None => None
  end.

(** The integer that the longest prefix of digits spells, after [acc]. *)
Fixpoint parseDigits (radix : N) (s : string) (acc : N) : N :=
  match s with
  | String c rest =>
      match digitValue radix c with
      | Some v => parseDigits radix rest (radix * acc + v)%N
      | None => acc
      end
  | EmptyString => acc
  end.

(** [parseInt(string)] with no radix: leading white space is skipped, a
    sign is read, [0x] or [0X] switches to radix 16, and the longest prefix
    of digits is the value; NaN when there is no digit. *)
Definition parseInt (string : string) : Count :=
  let S := trimStart string in
  let sign := match S with String "-" _ => -1 | _ => 1 end in
  let S := match S with
           | String "-" rest | String "+" rest => rest
           | _ => S
           end in
  let R := match S with
           | String "0" (String "x" _) | String "0" (String "X" _) => 16%N
           | _ => 10%N
           end in
  let S := match S with
           | String "0" (String "x" rest) | String "0" (String "X" rest) => rest
           | _ => S
           end in
  match S with
  | String c _ =>
      match digitValue R c with
      | Some _ => Some (sign * Z.of_N (parseDigits R S 0))
      | None => NaN
      end
  | EmptyString => NaN
  end.

(** [localStorage]. *)
Definition Storage : Type := gmap.gmap string string.

Definition getItem (key : string) (storage : Storage) : option string :=
  storage !! key.

Definition setItem (key value : string) (storage : Storage) : Storage :=
  <[key := value]> storage.

(** [localStorage.getItem(key) || '0']: absent and empty both give ['0']. *)
Definition getItem_or_0 (key : string) (storage : Storage) : string :=
  match getItem key storage with
  | Some EmptyString | None => "0"
  | Some value => value
  end.

(** [AppStep] of [types.ts]. *)
Inductive AppStep : Type := UPLOAD | EDIT | DOWNLOAD.

Record Stats : Type := { visitors : Count; downloads : Count }.

Record State : Type := {
  step : AppStep;
  audioBuffer : option AudioBuffer;
  originalFileName : string;
  thumbnailBase64 : option string;
  stats : Stats
}.

(** The state a page load starts from. *)
Definition initial : State :=
  {| step := UPLOAD;
     audioBuffer := None;
     originalFileName := "";
     thumbnailBase64 := None;
     stats := {| visitors := Some 0; downloads := Some 0 |} |}.

Definition setStats (value : Stats) (st : State) : State :=
  {| step := step st;
     audioBuffer := audioBuffer st;
     originalFileName := originalFileName st;
     thumbnailBase64 := thumbnailBase64 st;
     stats := value |}.

(** The effect that runs once when the component mounts. *)
Definition mountEffect (app : State * Storage) : State * Storage :=
  let st := fst app in
  let localStorage := snd app in
  let savedVisitors := parseInt (getItem_or_0 "rt_visitors" localStorage) in
  let savedDownloads := parseInt (getItem_or_0 "rt_downloads" localStorage) in
  let currentVisitors := plus_one savedVisitors in
  let currentDownloads := savedDownloads in
  (setStats {| visitors := currentVisitors; downloads := currentDownloads |} st,
   setItem "rt_visitors" (toString currentVisitors) localStorage).

Definition handleDownloadIncrement (app : State * Storage) : State * Storage :=
  let prev := stats (fst app) in
  let newCount := plus_one (downloads prev) in
  (setStats {| visitors := visitors prev; downloads := newCount |} (fst app),
   setItem "rt_downloads" (toString newCount) (snd app)).

(** [file.name] is all that [handleFileLoaded] reads of the file. *)
Definition handleFileLoaded (buffer : AudioBuffer) (file_name : string)
    (thumbnail : option string) (st : State) : State :=
  {| step := EDIT;
     audioBuffer := Some buffer;
     originalFileName := file_name;
     thumbnailBase64 := thumbnail;
     stats := stats st |}.

Definition handleReset (st : State) : State :=
  {| step := UPLOAD;
     audioBuffer := None;
     originalFileName := "";
     thumbnailBase64 := None;
     stats := stats st |}.

(** Which of the two screens the component renders. *)
Definition showsUploader (st : State) : bool :=
  match step st with UPLOAD => true | _ => false end.

Definition showsEditor (st : State) : bool :=
  match step st, audioBuffer st with
  | EDIT, Some _ => true
  | _, _ => false
  end.

(** Opening the page: a fresh component mounts over what is stored. *)
Definition pageLoad (localStorage : Storage) : State * Storage :=
  mountEffect (initial, localStorage).

(** Opening the page [n] times in a row; the state is that of the last
    load. *)
Fixpoint pageLoads (n : nat) (localStorage : Storage) : State * Storage :=
  match n with
  | O => (initial, localStorage)
  | S n' => pageLoad (snd (pageLoads n' localStorage))
  end.

(** The editor's [onDownloadSuccess] prop is [handleDownloadIncrement]:
    what a run of [handleDownload] does to the application. *)
Definition afterDownload (effects : list Effect) (app : State * Storage)
  : State * Storage :=
  fold_left (fun app e => match e with
                          | DownloadSuccess => handleDownloadIncrement app
                          | _ => app
                          end) effects app.

(** What happens to the application once it has mounted. *)
Inductive Event : Type :=
| FileLoaded (buffer : AudioBuffer) (file_name : string) (thumbnail : option string)
| Reset
| Downloaded.

Definition handle (app : State * Storage) (e : Event) : State * Storage :=
  match e with
  | FileLoaded buffer file_name thumbnail =>
      (handleFileLoaded buffer file_name thumbnail (fst app), snd app)
  | Reset => (handleReset (fst app), snd app)
  | Downloaded => handleDownloadIncrement app
  end.

Definition run (app : State * Storage) (events : list Event) : State * Storage :=
  fold_left handle events app.

End App.

(* ===================================================================== *)
(** ** [VideoUploader]: [processFile]                                     *)
(* ===================================================================== *)

Module VideoUploader.

(** [string.startsWith(prefix)] *)
Fixpoint startsWith (s prefix : string) : bool :=
  match prefix, s with
  | EmptyString, _ => true
  | String p prefix', String c s' => Ascii.eqb c p && startsWith s' prefix'
  | String _ _, EmptyString => false
  end.

(** How the asynchronous steps of one [processFile] call settle:
    [generateThumbnail], [file.arrayBuffer()], the [AudioContext]
    constructor, [decodeAudioData], and the [onFileLoaded] callback. *)
Record Outcome : Type := {
  thumbnail_result : Completion string;
  arrayBuffer_result : Completion (list byte);
  context_result : Completion unit;
  decode_result : list byte -> Completion AudioBuffer;
  onFileLoaded_result : Completion unit
}.

Inductive Effect : Type :=
| SetIsProcessing (value : bool)
| GenerateThumbnail
| ConsoleWarn
| NewAudioContext
| DecodeAudioData (data : list byte)
| OnFileLoaded (buffer : AudioBuffer) (file_name : string) (thumbnail : option string)
| ConsoleError
| Alert
| CloseAudioContext.

(** The body of the outer [try]: the effects so far, whether the context
    was made, and whether the block completed or threw. *)
Definition tryBlock (file_type file_name : string) (o : Outcome)
  : list Effect * bool * bool :=
  let thumbnailStep :=
    if startsWith file_type "video/"%string then
      match thumbnail_result o with
      | Return t => ([GenerateThumbnail], Some t)
      | Throw _ => ([GenerateThumbnail; ConsoleWarn], None)
      end
    else ([], None) in
  let effects := fst thumbnailStep in
  let thumbnail := snd thumbnailStep in
  match arrayBuffer_result o with
  | Throw _ => (effects, false, false)
  | Return arrayBuffer =>
      match context_result o with
      | Throw _ => (effects ++ [NewAudioContext], false, false)
      | Return _ =>
          let effects := effects ++ [NewAudioContext; DecodeAudioData arrayBuffer] in
          match decode_result o arrayBuffer with
          | Throw _ => (effects, true, false)
          | Return audioBuffer =>
              let effects := effects ++ [OnFileLoaded audioBuffer file_name thumbnail] in
              match onFileLoaded_result o with
              | Throw _ => (effects, true, false)
              | Return _ => (effects, true, true)
              end
          end
      end
  end.

Definition processFile (file_type file_name : string) (o : Outcome) : list Effect :=
  let attempt := tryBlock file_type file_name o in
  let effects := fst (fst attempt) in
  let audioContext := snd (fst attempt) in
  let completed := snd attempt in
  [SetIsProcessing true]
  ++ effects
  ++ (if completed then [] else [ConsoleError; Alert])
  ++ [SetIsProcessing false]
  ++ (if audioContext then [CloseAudioContext] else []).

(** [isProcessing] after a list of effects, starting from [false]. *)
Definition isProcessing (effects : list Effect) : bool :=
  fold_left (fun value e => match e with
                            | SetIsProcessing v => v
                            | _ => value
                            end) effects false.

End VideoUploader.

(* ===================================================================== *)
(** ** Facts about bytes and [DataView] stores                            *)
(* ===================================================================== *)

Section DataViewFacts.

Lemma Z_of_byte_of_Z (z : Z) : Z_of_byte (byte_of_Z z) = z mod 256.
Proof.
  unfold Z_of_byte, byte_of_Z.
  assert (Hr : 0 <= z mod 256 < 256) by (apply Z.mod_pos_bound; lia).
  destruct (Byte.of_N (Z.to_N (z mod 256))) as [b|] eqn:E.
  - apply Byte.to_of_N in E. rewrite E. lia.
  - apply Byte.of_N_None_iff in E. lia.
Qed.

Lemma length_le_bytes (n : nat) (z : Z) : length (le_bytes n z) = n.
Proof. revert z; induction n as [|n IH]; intros z; simpl; [|rewrite IH]; reflexivity. Qed.

(** A store that fits inside a prefix of the view leaves the rest alone. *)
Lemma store_app_l (a b : list byte) (off : nat) (bs : list byte) :
  (off + length bs <= length a)%nat ->
  store (a ++ b) off bs = Return (list_inserts off bs a ++ b).
Proof.
  intros Hfit. unfold store.
  rewrite length_app.
  destruct (Nat.leb_spec (off + length bs) (length a + length b)) as [_|Hno]; [|lia].
  f_equal. revert off Hfit.
  induction bs as [|x bs IH]; intros off Hfit; simpl in *; [reflexivity|].
  rewrite IH by lia.
  rewrite insert_app_l; [reflexivity|].
  rewrite length_inserts. lia.
Qed.

(** A store right after [pre] that overwrites exactly [old]. *)
Lemma store_middle (pre old post bs : list byte) :
  length bs = length old ->
  store (pre ++ old ++ post) (length pre) bs = Return (pre ++ bs ++ post).
Proof.
  intros Hlen. unfold store.
  rewrite !length_app.
  destruct (Nat.leb_spec (length pre + length bs)
              (length pre + (length old + length post))) as [_|Hno]; [|lia].
  f_equal.
  replace (length pre) with (length pre + 0)%nat at 1 by lia.
  rewrite list_inserts_app_r.
  rewrite list_inserts_0_r by assumption. reflexivity.
Qed.

Lemma getUint16_le_bytes (pre post : list byte) (z : Z) :
  getUint16 (pre ++ le_bytes 2 z ++ post) (length pre) = Some (z mod 65536).
Proof.
  unfold getUint16. simpl.
  rewrite (lookup_app_r pre) by lia.
  rewrite (lookup_app_r pre) by lia.
  replace (length pre - length pre)%nat with 0%nat by lia.
  replace (S (length pre) - length pre)%nat with 1%nat by lia.
  simpl. rewrite !Z_of_byte_of_Z. f_equal.
  assert (E : z mod 65536 = z mod 256 + 256 * ((z / 256) mod 256)).
  { change 65536 with (256 * 256). rewrite Z.rem_mul_r by lia. reflexivity. }
  lia.
Qed.

End DataViewFacts.


(* ===================================================================== *)
(** ** Facts about the two quantisers                                     *)
(* ===================================================================== *)

Section QuantiserFacts.

Local Open Scope Q_scope.

Lemma Qle_bool_reflect (p q : Q) : reflect (p <= q) (Qle_bool p q).
Proof.
  destruct (Qle_bool p q) eqn:E; constructor.
  - apply Qle_bool_iff; assumption.
  - intros H. apply Qle_bool_iff in H. congruence.
Qed.

Lemma Qltb_reflect (p q : Q) : reflect (p < q) (Qltb p q).
Proof.
  unfold Qltb. destruct (Qle_bool_reflect q p); constructor; lra.
Qed.

Lemma truncate_comp (p q : Q) : p == q -> truncate p = truncate q.
Proof.
  intros E. unfold truncate.
  rewrite (Qfloor_comp _ _ E), (Qceiling_comp _ _ E).
  destruct (Qle_bool_reflect 0 p), (Qle_bool_reflect 0 q); try reflexivity; lra.
Qed.

Lemma truncate_mono (p q : Q) : p <= q -> (truncate p <= truncate q)%Z.
Proof.
  intros Hpq. unfold truncate.
  destruct (Qle_bool_reflect 0 p) as [Hp|Hp], (Qle_bool_reflect 0 q) as [Hq|Hq].
  - apply Qfloor_resp_le; exact Hpq.
  - lra.
  - transitivity 0%Z.
    + rewrite <- (Qceiling_Z 0). apply Qceiling_resp_le.
      change (inject_Z 0) with 0. lra.
    + rewrite <- (Qfloor_Z 0). apply Qfloor_resp_le. exact Hq.
  - apply Qceiling_resp_le; exact Hpq.
Qed.

Lemma truncate_bounds (lo hi q : Q) :
  lo <= q <= hi -> (truncate lo <= truncate q <= truncate hi)%Z.
Proof. intros [Hlo Hhi]. split; apply truncate_mono; assumption. Qed.

Lemma clamp_bounds (q : Q) : -1 <= Spec.clamp q <= 1.
Proof.
  unfold Spec.clamp.
  destruct (Qltb_reflect q (-1)); [lra|].
  destruct (Qltb_reflect 1 q); lra.
Qed.

(** [Math.max(-1, Math.min(1, x))] on a finite sample is the clamp. *)
Lemma Math_clamp_finite (q : Q) :
  exists c, Math_max (Finite (-1)) (Math_min (Finite 1) (Finite q)) = Finite c
            /\ c == Spec.clamp q.
Proof.
  unfold Spec.clamp. simpl.
  destruct (Qle_bool_reflect 1 q) as [H1|H1]; simpl.
  - exists 1. split; [reflexivity|].
    destruct (Qltb_reflect q (-1)); [lra|].
    destruct (Qltb_reflect 1 q); lra.
  - destruct (Qle_bool_reflect (-1) q) as [H2|H2].
    + exists q. split; [reflexivity|].
      destruct (Qltb_reflect q (-1)); [lra|].
      destruct (Qltb_reflect 1 q); lra.
    + exists (-1). split; [reflexivity|].
      destruct (Qltb_reflect q (-1)); lra.
Qed.

(** [ToInt16] does not wrap a value whose integer part is in range. *)
Lemma ToInt16_in_range (v : Q) :
  (-32768 <= truncate v <= 32767)%Z -> ToInt16 (Finite v) = truncate v.
Proof.
  intros Hr. unfold ToInt16. simpl ToIntegerOrZero.
  destruct (Z_lt_le_dec (truncate v) 0) as [Hneg|Hpos].
  - replace (truncate v mod 65536)%Z with (truncate v + 65536)%Z.
    + destruct (Z.leb_spec 32768 (truncate v + 65536)); lia.
    + apply Z.mod_unique with (q := (-1)%Z); lia.
  - rewrite Z.mod_small by lia.
    destruct (Z.leb_spec 32768 (truncate v)); lia.
Qed.

Lemma pcm16_range (x : Number) : (-32768 <= Spec.pcm16 x <= 32767)%Z.
Proof.
  destruct x as [q| | |]; simpl; try lia.
  apply (truncate_bounds (-32768) 32767).
  unfold Spec.clamp.
  destruct (Qltb_reflect q 0) as [Hq|Hq];
    destruct (Qltb_reflect q (-1)); try lra;
    destruct (Qltb_reflect 1 q); lra.
Qed.

(** The value [floatTo16BitPCM] hands to [setInt16], converted. *)
Lemma floatTo16BitPCM_sample (x : Number) :
  ToInt16 (if JS.lessThan (Math_max (Finite (-1)) (Math_min (Finite 1) x)) (Finite 0)
           then JS.multiply (Math_max (Finite (-1)) (Math_min (Finite 1) x)) (Finite 32768)
           else JS.multiply (Math_max (Finite (-1)) (Math_min (Finite 1) x)) (Finite 32767))
  = Spec.pcm16 x.
Proof.
  destruct x as [q| | |]; try reflexivity.
  pose proof (pcm16_range (Finite q)) as Hr.
  destruct (Math_clamp_finite q) as (c & -> & Hc).
  simpl JS.lessThan. simpl in Hr |- *.
  assert (Hs : Qltb c 0 = Qltb q 0).
  { unfold Spec.clamp in Hc.
    destruct (Qltb_reflect c 0), (Qltb_reflect q 0); try reflexivity;
      destruct (Qltb_reflect q (-1)); try lra;
      destruct (Qltb_reflect 1 q); lra. }
  rewrite Hs.
  destruct (Qltb q 0); simpl JS.multiply.
  - assert (E : truncate (c * 32768) = truncate (Spec.clamp q * 32768))
      by (apply truncate_comp; rewrite Hc; reflexivity).
    rewrite <- E in *. apply ToInt16_in_range. exact Hr.
  - assert (E : truncate (c * 32767) = truncate (Spec.clamp q * 32767))
      by (apply truncate_comp; rewrite Hc; reflexivity).
    rewrite <- E in *. apply ToInt16_in_range. exact Hr.
Qed.


(** The value [audioBufferToMp3] stores into its [Int16Array]s. *)
Lemma mp3_int16_range (x : Number) : (-32767 <= Spec.mp3_int16 x <= 32767)%Z.
Proof.
  destruct x as [q| | |]; simpl; try lia.
  apply (truncate_bounds (- (65535 # 2)) (65535 # 2)).
  pose proof (clamp_bounds q). lra.
Qed.

Lemma audioBufferToMp3_sample (x : Number) :
  ToInt16 (JS.multiply (Math_max (Finite (-1)) (Math_min (Finite 1) x))
                       (Finite (65535 # 2))) = Spec.mp3_int16 x.
Proof.
  destruct x as [q| | |]; try reflexivity.
  pose proof (mp3_int16_range (Finite q)) as Hr.
  destruct (Math_clamp_finite q) as (c & -> & Hc).
  simpl in Hr |- *.
  assert (E : truncate (c * (65535 # 2)) = truncate (Spec.clamp q * (65535 # 2)))
    by (apply truncate_comp; rewrite Hc; reflexivity).
  rewrite <- E in *. apply ToInt16_in_range. lia.
Qed.

End QuantiserFacts.

(* ===================================================================== *)
(** ** The WAV encoder writes the header and the data it should           *)
(* ===================================================================== *)

Section WavEncoderFacts.

Context `{Float32Codec}.

Lemma byte_of_charCode (c : ascii) :
  byte_of_Z (ToUint8 (Z.of_nat (nat_of_ascii c))) = byte_of_ascii c.
Proof. destruct c as [[] [] [] [] [] [] [] []]; reflexivity. Qed.

Lemma writeString_app_l (s : string) (a b : list byte) (off : nat) :
  (off + String.length s <= length a)%nat ->
  writeString (a ++ b) off s
  = Return (list_inserts off (list_byte_of_string s) a ++ b).
Proof.
  revert a off. induction s as [|c s IH]; intros a off Hfit; simpl in *.
  - reflexivity.
  - unfold setUint8. rewrite store_app_l by (simpl; lia). simpl.
    change (writeString (<[off:=byte_of_Z (ToUint8 (Z.of_nat (nat_of_ascii c)))]> a ++ b)
              (S off) s
            = Return (<[off:=byte_of_ascii c]>
                        (list_inserts (S off) (list_byte_of_string s) a) ++ b)).
    rewrite IH by (rewrite length_insert; lia).
    rewrite byte_of_charCode.
    rewrite list_insert_inserts_lt by lia. reflexivity.
Qed.

Lemma byte_of_Z_mod (z : Z) : byte_of_Z (z mod 256) = byte_of_Z z.
Proof. unfold byte_of_Z. rewrite Z.mod_mod by lia. reflexivity. Qed.

Lemma le_bytes_mod (n : nat) (z : Z) :
  le_bytes n (z mod 256 ^ Z.of_nat n) = le_bytes n z.
Proof.
  revert z. induction n as [|n IH]; intros z; [reflexivity|].
  rewrite Nat2Z.inj_succ, Z.pow_succ_r by lia.
  assert (Hp : 0 < 256 ^ Z.of_nat n) by (apply Z.pow_pos_nonneg; lia).
  simpl. f_equal.
  - rewrite <- byte_of_Z_mod, <- (byte_of_Z_mod z). f_equal.
    rewrite Z.rem_mul_r by lia.
    rewrite (Z.mul_comm 256 ((z / 256) mod 256 ^ Z.of_nat n)).
    rewrite Z.mod_add by lia.
    apply Z.mod_mod. lia.
  - rewrite <- (IH (z / 256)). f_equal.
    rewrite Z.rem_mul_r by lia.
    rewrite (Z.mul_comm 256 ((z / 256) mod 256 ^ Z.of_nat n)).
    rewrite Z.div_add by lia.
    rewrite (Z.div_small (z mod 256)) by (apply Z.mod_pos_bound; lia).
    lia.
Qed.

Lemma le_bytes_ToUint32 (z : Z) : le_bytes 4 (ToUint32 z) = le_bytes 4 z.
Proof. exact (le_bytes_mod 4 z). Qed.

Lemma le_bytes_ToUint16 (z : Z) : le_bytes 2 (ToUint16 z) = le_bytes 2 z.
Proof. exact (le_bytes_mod 2 z). Qed.

(** The PCM loop fills the bytes right after [pre] and nothing else. *)
Lemma floatTo16BitPCM_middle (input : Float32Array) :
  forall (pre mid post : list byte) (off : nat),
    off = length pre ->
    length mid = (2 * length input)%nat ->
    floatTo16BitPCM (pre ++ mid ++ post) off input
    = Return (pre ++ Spec.pcm16_data input ++ post).
Proof.
  induction input as [|x input IH]; intros pre mid post off -> Hmid.
  - destruct mid; [reflexivity|discriminate].
  - destruct mid as [|m0 [|m1 mid]]; simpl in Hmid; try lia.
    cbn [floatTo16BitPCM]. cbv zeta.
    unfold setInt16, ordered.
    rewrite floatTo16BitPCM_sample.
    rewrite (store_middle pre [m0; m1] (mid ++ post)) by reflexivity.
    change (floatTo16BitPCM
              (pre ++ le_bytes 2 (Spec.pcm16 x) ++ mid ++ post)
              (length pre + 2) input
            = Return (pre ++ Spec.pcm16_data (x :: input) ++ post)).
    rewrite (app_assoc pre).
    rewrite IH; [| rewrite length_app; simpl; lia | lia ].
    unfold Spec.pcm16_data. cbn [flat_map].
    rewrite <- !app_assoc. reflexivity.
Qed.


Lemma writeFloat32_middle (input : Float32Array) :
  forall (pre mid post : list byte) (off : nat),
    off = length pre ->
    length mid = (4 * length input)%nat ->
    writeFloat32 (pre ++ mid ++ post) off input
    = Return (pre ++ Spec.float32_data input ++ post).
Proof.
  induction input as [|x input IH]; intros pre mid post off -> Hmid.
  - destruct mid; [reflexivity|discriminate].
  - destruct mid as [|m0 [|m1 [|m2 [|m3 mid]]]]; simpl in Hmid; try lia.
    cbn [writeFloat32].
    unfold setFloat32, ordered.
    rewrite le_bytes_ToUint32.
    rewrite (store_middle pre [m0; m1; m2; m3] (mid ++ post)) by reflexivity.
    change (writeFloat32
              (pre ++ le_bytes 4 (float32_bits x) ++ mid ++ post)
              (length pre + 4) input
            = Return (pre ++ Spec.float32_data (x :: input) ++ post)).
    rewrite (app_assoc pre).
    rewrite IH; [| rewrite length_app; simpl; lia | lia ].
    unfold Spec.float32_data. cbn [flat_map].
    rewrite <- !app_assoc. reflexivity.
Qed.

Lemma bind_Return {A B : Type} (a : A) (k : A -> Completion B) :
  (Return a ≫= k) = k a.
Proof. reflexivity. Qed.

Lemma alloc_split (n m : nat) : alloc (n + m) = alloc n ++ alloc m.
Proof. unfold alloc. apply replicate_add. Qed.

Lemma length_alloc (n : nat) : length (alloc n) = n.
Proof. apply length_replicate. Qed.

Lemma setUint32_app_l (a b : list byte) (off : nat) (v : Z) :
  (off + 4 <= length a)%nat ->
  setUint32 (a ++ b) off v true = Return (list_inserts off (le_bytes 4 v) a ++ b).
Proof.
  intros Hfit. unfold setUint32, ordered. rewrite le_bytes_ToUint32.
  apply store_app_l. rewrite length_le_bytes. exact Hfit.
Qed.

Lemma setUint16_app_l (a b : list byte) (off : nat) (v : Z) :
  (off + 2 <= length a)%nat ->
  setUint16 (a ++ b) off v true = Return (list_inserts off (le_bytes 2 v) a ++ b).
Proof.
  intros Hfit. unfold setUint16, ordered. rewrite le_bytes_ToUint16.
  apply store_app_l. rewrite length_le_bytes. exact Hfit.
Qed.

(** One header store: it fits in the 44-byte prefix, so it lands there. *)
Ltac header_store :=
  first
    [ rewrite writeString_app_l
        by (rewrite ?length_inserts, length_alloc; simpl; lia)
    | rewrite setUint32_app_l
        by (rewrite ?length_inserts, length_alloc; simpl; lia)
    | rewrite setUint16_app_l
        by (rewrite ?length_inserts, length_alloc; simpl; lia) ];
  rewrite bind_Return.

(** The thirteen header stores of [encodeWAV], on any view of at least 44
    bytes that starts with zeros. *)
Lemma encodeWAV_header (tail : list byte)
    (format sampleRate numChannels bitDepth dataSize : Z)
    (k : DataView.t -> Completion Blob) :
  (view ← writeString (alloc 44 ++ tail) 0 "RIFF";
   view ← setUint32 view 4 (36 + dataSize) true;
   view ← writeString view 8 "WAVE";
   view ← writeString view 12 "fmt ";
   view ← setUint32 view 16 16 true;
   view ← setUint16 view 20 format true;
   view ← setUint16 view 22 numChannels true;
   view ← setUint32 view 24 sampleRate true;
   view ← setUint32 view 28 (sampleRate * (numChannels * (bitDepth / 8))) true;
   view ← setUint16 view 32 (numChannels * (bitDepth / 8)) true;
   view ← setUint16 view 34 bitDepth true;
   view ← writeString view 36 "data";
   view ← setUint32 view 40 dataSize true;
   k view)
  = k (Spec.wav_header format numChannels sampleRate bitDepth dataSize ++ tail).
Proof.
  do 13 header_store.
  reflexivity.
Qed.


Lemma length_wav_header (format numChannels sampleRate bitDepth dataSize : Z) :
  length (Spec.wav_header format numChannels sampleRate bitDepth dataSize) = 44%nat.
Proof. reflexivity. Qed.

(** [encodeWAV] on its PCM16 call: header, then two bytes per sample. *)
Lemma encodeWAV_pcm16 (samples : Float32Array) (sampleRate numChannels : Z) :
  encodeWAV samples 1 sampleRate numChannels 16
  = Return (newBlob
              [Spec.wav_header 1 numChannels sampleRate 16
                 (Z.of_nat (length samples) * 2)
               ++ Spec.pcm16_data samples] "audio/wav").
Proof.
  unfold encodeWAV. cbv zeta.
  replace (Z.to_nat (44 + Z.of_nat (length samples) * (16 / 8)))
    with (44 + 2 * length samples)%nat by (change (16 / 8) with 2; lia).
  rewrite alloc_split.
  rewrite encodeWAV_header.
  change (1 =? 1) with true. cbv iota.
  rewrite <- (app_nil_r (alloc (2 * length samples))).
  rewrite (floatTo16BitPCM_middle samples _ (alloc (2 * length samples)) [] 44)
    by (rewrite ?length_alloc; reflexivity).
  rewrite bind_Return, app_nil_r. reflexivity.
Qed.

(** [encodeWAV] on its Float32 call: header, then four bytes per sample. *)
Lemma encodeWAV_float32 (samples : Float32Array) (sampleRate numChannels : Z) :
  encodeWAV samples 3 sampleRate numChannels 32
  = Return (newBlob
              [Spec.wav_header 3 numChannels sampleRate 32
                 (Z.of_nat (length samples) * 4)
               ++ Spec.float32_data samples] "audio/wav").
Proof.
  unfold encodeWAV. cbv zeta.
  replace (Z.to_nat (44 + Z.of_nat (length samples) * (32 / 8)))
    with (44 + 4 * length samples)%nat by (change (32 / 8) with 4; lia).
  rewrite alloc_split.
  rewrite encodeWAV_header.
  change (3 =? 1) with false. cbv iota.
  rewrite <- (app_nil_r (alloc (4 * length samples))).
  rewrite (writeFloat32_middle samples _ (alloc (4 * length samples)) [] 44)
    by (rewrite ?length_alloc; reflexivity).
  rewrite bind_Return, app_nil_r. reflexivity.
Qed.

Lemma interleave_loop_unfold (inputL inputR result : Float32Array)
    (len index inputIndex : nat) :
  interleave_loop inputL inputR result len index inputIndex
  = if decide (index < len)%nat
    then interleave_loop inputL inputR
           (<[S index := read_for_float32_store inputR inputIndex]>
              (<[index := read_for_float32_store inputL inputIndex]> result))
           len (S (S index)) (S inputIndex)
    else result.
Proof.
  rewrite interleave_loop_equation_1.
  destruct (decide (index < len)%nat); reflexivity.
Qed.


(** The loop invariant of [interleave]: [done] holds the frames written so
    far, [preL] and [preR] the samples already consumed. *)
Lemma interleave_loop_frames (l : Float32Array) :
  forall (r preL preR done rest : Float32Array),
    length l = length r ->
    length preL = length preR ->
    length rest = (2 * length l)%nat ->
    interleave_loop (preL ++ l) (preR ++ r) (done ++ rest)
      (length done + length rest) (length done) (length preL)
    = done ++ Spec.frames l r.
Proof.
  induction l as [|x l IH]; intros r preL preR done rest Hlr Hpre Hrest;
    rewrite interleave_loop_unfold.
  - destruct rest; [|discriminate].
    destruct (decide (length done < length done + length (@nil Number))%nat) as [Hlt|_];
      [simpl in Hlt; lia|].
    destruct r; reflexivity.
  - destruct r as [|y r]; [discriminate|].
    destruct rest as [|a [|b rest]]; simpl in Hrest; try lia.
    destruct (decide (length done < length done + length (a :: b :: rest))%nat) as [_|Hge];
      [|simpl in Hge; lia].
    unfold read_for_float32_store.
    rewrite (list_lookup_middle preL l x) by reflexivity.
    rewrite Hpre.
    rewrite (list_lookup_middle preR r y) by reflexivity.
    cbn [default].
    rewrite (insert_app_r_alt done) by lia.
    rewrite (insert_app_r_alt done) by lia.
    replace (length done - length done)%nat with 0%nat by lia.
    replace (S (length done) - length done)%nat with 1%nat by lia.
    cbn [insert list_insert]. unfold Datatypes.id.
    replace (done ++ x :: y :: rest) with ((done ++ [x; y]) ++ rest)
      by (rewrite <- app_assoc; reflexivity).
    replace (length done + length (a :: b :: rest))%nat
      with (length (done ++ [x; y]) + length rest)%nat
      by (rewrite length_app; simpl; lia).
    replace (S (S (length done))) with (length (done ++ [x; y]))
      by (rewrite length_app; simpl; lia).
    replace (S (length preR)) with (length (preL ++ [x]))
      by (rewrite length_app; simpl; lia).
    replace (preL ++ x :: l) with ((preL ++ [x]) ++ l)
      by (rewrite <- app_assoc; reflexivity).
    replace (preR ++ y :: r) with ((preR ++ [y]) ++ r)
      by (rewrite <- app_assoc; reflexivity).
    rewrite IH.
    + rewrite <- app_assoc. reflexivity.
    + simpl in Hlr. lia.
    + rewrite !length_app. simpl. lia.
    + lia.
Qed.

(** On two channels of one length [interleave] is frame interleaving. *)
Lemma interleave_frames (inputL inputR : Float32Array) :
  length inputL = length inputR ->
  interleave inputL inputR = Spec.frames inputL inputR.
Proof.
  intros Hlen. unfold interleave. cbv zeta.
  pose proof (interleave_loop_frames inputL inputR [] [] []
                (replicate (length inputL + length inputR) (Finite 0))
                Hlen eq_refl) as Hloop.
  rewrite length_replicate in Hloop.
  apply Hloop. lia.
Qed.

Lemma length_frames (l r : Float32Array) :
  length l = length r -> length (Spec.frames l r) = (2 * length l)%nat.
Proof.
  revert r. induction l as [|x l IH]; intros [|y r] Hlen; simpl in *;
    try discriminate; [reflexivity|].
  rewrite IH by lia. lia.
Qed.

(** What [audioBufferToWav] returns on a well-formed buffer. *)
Lemma audioBufferToWav_wav_file (buffer : AudioBuffer) (opt : option WavOptions) :
  AudioBuffer_wf buffer ->
  audioBufferToWav buffer opt
  = Return (newBlob [Spec.wav_file (requests_float32 opt) buffer] "audio/wav").
Proof.
  intros [Hch Hlen].
  assert (Henc : forall samples,
             encodeWAV samples (if requests_float32 opt then 3 else 1)
               (sampleRate buffer) (Z.of_nat (length (channelData buffer)))
               (if (if requests_float32 opt then 3 else 1) =? 3 then 32 else 16)
             = Return (newBlob
                 [Spec.wav_header (if requests_float32 opt then 3 else 1)
                    (Z.of_nat (length (channelData buffer))) (sampleRate buffer)
                    (if requests_float32 opt then 32 else 16)
                    (Z.of_nat (length samples)
                     * Spec.bytesPerSample (if requests_float32 opt then 32 else 16))
                  ++ Spec.sample_data (requests_float32 opt) samples] "audio/wav")).
  { intros samples. destruct (requests_float32 opt).
    - apply encodeWAV_float32.
    - apply encodeWAV_pcm16. }
  unfold audioBufferToWav, Spec.wav_file, Spec.serialized_samples,
    numberOfChannels, getChannelData in *.
  cbv zeta.
  destruct (channelData buffer) as [|c0 [|c1 [|c2 cs]]] eqn:Hcd;
    [ simpl in Hch; lia | | | ];
    (destruct (decide (_ = 2%nat)) as [Hd|Hd]; simpl in Hd; try lia);
    cbn [lookup list_lookup]; cbv iota.
  - apply Henc.
  - rewrite <- (interleave_frames c0 c1).
    + exact (Henc (interleave c0 c1)).
    + inversion Hlen as [|? ? H0 Hrest]; subst.
      inversion Hrest as [|? ? H1 _]; subst. congruence.
  - apply Henc.
Qed.

Lemma length_float32_data (samples : Float32Array) :
  length (Spec.float32_data samples) = (4 * length samples)%nat.
Proof.
  unfold Spec.float32_data.
  induction samples as [|x samples IH]; [reflexivity|].
  cbn [flat_map]. rewrite length_app, IH. simpl. lia.
Qed.

Lemma length_pcm16_data (samples : Float32Array) :
  length (Spec.pcm16_data samples) = (2 * length samples)%nat.
Proof.
  unfold Spec.pcm16_data.
  induction samples as [|x samples IH]; [reflexivity|].
  cbn [flat_map]. rewrite length_app, IH. simpl. lia.
Qed.

Lemma getUint32_le_bytes (pre post : list byte) (z : Z) :
  getUint32 (pre ++ le_bytes 4 z ++ post) (length pre) = Some (z mod 4294967296).
Proof.
  unfold getUint32, getUint16. simpl.
  rewrite !(lookup_app_r pre) by lia.
  replace (length pre - length pre)%nat with 0%nat by lia.
  replace (S (length pre) - length pre)%nat with 1%nat by lia.
  replace (S (S (length pre)) - length pre)%nat with 2%nat by lia.
  replace (S (S (S (length pre))) - length pre)%nat with 3%nat by lia.
  simpl. rewrite !Z_of_byte_of_Z. f_equal.
  change 4294967296 with (256 * (256 * (256 * 256))).
  rewrite !Z.rem_mul_r by lia. lia.
Qed.

Lemma getInt16_le_bytes (pre post : list byte) (z : Z) :
  -32768 <= z <= 32767 ->
  getInt16 (pre ++ le_bytes 2 z ++ post) (length pre) = Some z.
Proof.
  intros Hr. unfold getInt16. rewrite getUint16_le_bytes. f_equal.
  destruct (Z_lt_le_dec z 0) as [Hneg|Hpos].
  - replace (z mod 65536) with (z + 65536)
      by (apply Z.mod_unique with (q := -1); lia).
    destruct (Z.leb_spec 32768 (z + 65536)); lia.
  - rewrite Z.mod_small by lia.
    destruct (Z.leb_spec 32768 z); lia.
Qed.

End WavEncoderFacts.

(* ===================================================================== *)
(** ** The WAV encoder: quantisation, header, channel layout              *)
(* ===================================================================== *)

Section WavEncoder.

Context `{Float32Codec}.

Lemma pcm16_data_middle (a b : Float32Array) (x : Number) :
  Spec.pcm16_data (a ++ x :: b)
  = Spec.pcm16_data a ++ le_bytes 2 (Spec.pcm16 x) ++ Spec.pcm16_data b.
Proof. unfold Spec.pcm16_data. rewrite flat_map_app. reflexivity. Qed.

Lemma pcm16_clips_high (x : Number) :
  JS.lessThan (Finite 1) x = true -> Spec.pcm16 x = 32767.
Proof.
  destruct x as [q| | |]; simpl; try discriminate; try reflexivity.
  intros Hq. unfold Spec.clamp.
  destruct (Qltb_reflect 1 q) as [H1|H1]; [|discriminate].
  destruct (Qltb_reflect q (-1)); [lra|].
  destruct (Qltb_reflect q 0); [lra|]. reflexivity.
Qed.

Lemma pcm16_clips_low (x : Number) :
  JS.lessThan x (Finite (-1)) = true -> Spec.pcm16 x = -32768.
Proof.
  destruct x as [q| | |]; simpl; try discriminate; try reflexivity.
  intros Hq. unfold Spec.clamp.
  destruct (Qltb_reflect q (-1)) as [H1|H1]; [|discriminate].
  destruct (Qltb_reflect q 0); [|lra]. reflexivity.
Qed.

(** C4.  On any view with room for the samples at [offset],
    [floatTo16BitPCM] returns, and the 16-bit little-endian integer it
    leaves for sample [x] is the spec's quantisation of [x]: the sample
    clamped to [-1, 1], times 32768 when negative and 32767 otherwise,
    truncated.  That integer lies in [-32768, 32767]; a sample above 1
    gives 32767 and a sample below -1 gives -32768, so nothing wraps. *)
Theorem floatTo16BitPCM_quantises (output : DataView.t) (offset : nat)
    (input : Float32Array) :
  (offset + 2 * length input <= length output)%nat ->
  exists output',
    floatTo16BitPCM output offset input = Return output' /\
    forall (i : nat) (x : Number),
      input !! i = Some x ->
      getInt16 output' (offset + 2 * i) = Some (Spec.pcm16 x) /\
      -32768 <= Spec.pcm16 x <= 32767 /\
      (JS.lessThan (Finite 1) x = true -> Spec.pcm16 x = 32767) /\
      (JS.lessThan x (Finite (-1)) = true -> Spec.pcm16 x = -32768).
Proof.
  intros Hfit.
  set (pre := take offset output).
  set (mid := take (2 * length input) (drop offset output)).
  set (post := drop (2 * length input) (drop offset output)).
  assert (Hout : output = pre ++ mid ++ post).
  { unfold pre, mid, post. rewrite !take_drop. reflexivity. }
  assert (Hpre : length pre = offset)
    by (unfold pre; rewrite length_take; lia).
  assert (Hmid : length mid = (2 * length input)%nat)
    by (unfold mid; rewrite length_take, length_drop; lia).
  exists (pre ++ Spec.pcm16_data input ++ post). split.
  - rewrite Hout at 1.
    apply floatTo16BitPCM_middle; [symmetry; exact Hpre | exact Hmid].
  - intros i x Hx.
    pose proof (pcm16_range x) as Hr.
    repeat split; try lia;
      [| apply pcm16_clips_high | apply pcm16_clips_low].
    pose proof (lookup_lt_Some _ _ _ Hx) as Hi.
    rewrite <- (take_drop_middle input i x Hx).
    rewrite pcm16_data_middle, <- !app_assoc.
    rewrite (app_assoc pre).
    replace (offset + 2 * i)%nat
      with (length (pre ++ Spec.pcm16_data (take i input))).
    + apply getInt16_le_bytes. exact Hr.
    + rewrite length_app, length_pcm16_data, length_take, Hpre. lia.
Qed.

(** The numeric fields of the header, read back as little-endian. *)
Lemma wav_header_fields (formatTag channels sampleRate bits dataSize : Z)
    (tail : list byte) :
  let file := Spec.wav_header formatTag channels sampleRate bits dataSize ++ tail in
  getUint32 file 4 = Some (ToUint32 (36 + dataSize)) /\
  getUint32 file 16 = Some 16 /\
  getUint16 file 20 = Some (ToUint16 formatTag) /\
  getUint16 file 22 = Some (ToUint16 channels) /\
  getUint32 file 24 = Some (ToUint32 sampleRate) /\
  getUint32 file 28
  = Some (ToUint32 (sampleRate * (channels * Spec.bytesPerSample bits))) /\
  getUint16 file 32 = Some (ToUint16 (channels * Spec.bytesPerSample bits)) /\
  getUint16 file 34 = Some (ToUint16 bits) /\
  getUint32 file 40 = Some (ToUint32 dataSize).
Proof.
  cbv zeta. unfold Spec.wav_header. cbv zeta.
  set (riff := list_byte_of_string "RIFF").
  set (wave := list_byte_of_string "WAVE").
  set (fmt := list_byte_of_string "fmt ").
  set (data := list_byte_of_string "data").
  set (f1 := le_bytes 4 (36 + dataSize)).
  set (f2 := le_bytes 4 16).
  set (f3 := le_bytes 2 formatTag).
  set (f4 := le_bytes 2 channels).
  set (f5 := le_bytes 4 sampleRate).
  set (f6 := le_bytes 4 (sampleRate * (channels * Spec.bytesPerSample bits))).
  set (f7 := le_bytes 2 (channels * Spec.bytesPerSample bits)).
  set (f8 := le_bytes 2 bits).
  set (f9 := le_bytes 4 dataSize).
  rewrite <- !app_assoc.
  repeat apply conj.
  - exact (getUint32_le_bytes riff _ _).
  - rewrite !(app_assoc _ _ (f2 ++ _)).
    exact (getUint32_le_bytes (((riff ++ f1) ++ wave) ++ fmt) _ 16).
  - rewrite !(app_assoc _ _ (f3 ++ _)).
    exact (getUint16_le_bytes ((((riff ++ f1) ++ wave) ++ fmt) ++ f2) _ _).
  - rewrite !(app_assoc _ _ (f4 ++ _)).
    exact (getUint16_le_bytes (((((riff ++ f1) ++ wave) ++ fmt) ++ f2) ++ f3) _ _).
  - rewrite !(app_assoc _ _ (f5 ++ _)).
    exact (getUint32_le_bytes
             ((((((riff ++ f1) ++ wave) ++ fmt) ++ f2) ++ f3) ++ f4) _ _).
  - rewrite !(app_assoc _ _ (f6 ++ _)).
    exact (getUint32_le_bytes
             (((((((riff ++ f1) ++ wave) ++ fmt) ++ f2) ++ f3) ++ f4) ++ f5) _ _).
  - rewrite !(app_assoc _ _ (f7 ++ _)).
    exact (getUint16_le_bytes
             ((((((((riff ++ f1) ++ wave) ++ fmt) ++ f2) ++ f3) ++ f4) ++ f5) ++ f6)
             _ _).
  - rewrite !(app_assoc _ _ (f8 ++ _)).
    exact (getUint16_le_bytes
             (((((((((riff ++ f1) ++ wave) ++ fmt) ++ f2) ++ f3) ++ f4) ++ f5) ++ f6)
                ++ f7) _ _).
  - rewrite !(app_assoc _ _ (f9 ++ _)).
    exact (getUint32_le_bytes
             ((((((((((((riff ++ f1) ++ wave) ++ fmt) ++ f2) ++ f3) ++ f4) ++ f5)
                   ++ f6) ++ f7) ++ f8) ++ data)) _ _).
Qed.


Lemma blob_bytes_newBlob (bytes : list byte) (type : string) :
  blob_bytes (newBlob [bytes] type) = bytes.
Proof. unfold newBlob. simpl. apply app_nil_r. Qed.

Lemma silence_wf : AudioBuffer_wf Spec.silence_1s_mono_44100.
Proof.
  split; [exact (le_n 1)|].
  constructor; [|constructor]. apply length_replicate.
Qed.

(** The file that [audioBufferToWav] produces for the second of silence. *)
Lemma audioBufferToWav_silence :
  audioBufferToWav Spec.silence_1s_mono_44100 None
  = Return (newBlob
              [Spec.header_silence_riff_36_plus_data
               ++ Spec.pcm16_data (replicate (Z.to_nat 44100) (Finite 0))]
              "audio/wav").
Proof.
  rewrite (audioBufferToWav_wav_file _ None silence_wf).
  unfold Spec.wav_file.
  change (requests_float32 None) with false. cbv iota zeta.
  change (Spec.serialized_samples Spec.silence_1s_mono_44100)
    with (replicate (Z.to_nat 44100) (Finite 0)).
  unfold Spec.sample_data.
  rewrite length_replicate.
  do 3 f_equal.
Qed.

(** C5, amended.  Encoding one second of mono silence at 44100 Hz as PCM16
    yields 88244 bytes whose first 44 are exactly RIFF, 88236, WAVE,
    "fmt ", 16, 1, 1, 44100, 88200, 2, 16, data, 88200, little-endian: the
    RIFF size is 36 + 88200, not the file length.  For every
    well-formed buffer and either format, the header fields read back as
    RIFF size = 36 + dataSize, byte rate = sampleRate * blockAlign and
    blockAlign = channels * bytesPerSample, where dataSize is the number
    of bytes that follow the header. *)
Theorem wav_header_byte_exact :
  (exists blob,
     audioBufferToWav Spec.silence_1s_mono_44100 None = Return blob /\
     take 44 (blob_bytes blob) = Spec.header_silence_riff_36_plus_data /\
     Z.of_nat (length (blob_bytes blob)) = 88244) /\
  (forall (buffer : AudioBuffer) (opt : option WavOptions),
     AudioBuffer_wf buffer ->
     exists blob,
       audioBufferToWav buffer opt = Return blob /\
       let bytesPerSample := if requests_float32 opt then 4 else 2 in
       let channels := Z.of_nat (numberOfChannels buffer) in
       let blockAlign := channels * bytesPerSample in
       let dataSize := Z.of_nat (length (blob_bytes blob)) - 44 in
       dataSize
       = Z.of_nat (length (Spec.serialized_samples buffer)) * bytesPerSample /\
       take 4 (blob_bytes blob) = list_byte_of_string "RIFF" /\
       getUint32 (blob_bytes blob) 4 = Some (ToUint32 (36 + dataSize)) /\
       getUint16 (blob_bytes blob) 20
       = Some (if requests_float32 opt then 3 else 1) /\
       getUint16 (blob_bytes blob) 22 = Some (ToUint16 channels) /\
       getUint32 (blob_bytes blob) 24 = Some (ToUint32 (sampleRate buffer)) /\
       getUint32 (blob_bytes blob) 28
       = Some (ToUint32 (sampleRate buffer * blockAlign)) /\
       getUint16 (blob_bytes blob) 32 = Some (ToUint16 blockAlign) /\
       getUint16 (blob_bytes blob) 34
       = Some (if requests_float32 opt then 32 else 16) /\
       getUint32 (blob_bytes blob) 40 = Some (ToUint32 dataSize)).
Proof.
  split.
  - eexists. split; [apply audioBufferToWav_silence|].
    rewrite blob_bytes_newBlob. split.
    + rewrite take_app_length' by reflexivity. reflexivity.
    + rewrite length_app, length_pcm16_data, length_replicate. reflexivity.
  - intros buffer opt Hwf.
    eexists. split; [apply audioBufferToWav_wav_file, Hwf|].
    rewrite blob_bytes_newBlob. unfold Spec.wav_file. cbv zeta.
    set (samples := Spec.serialized_samples buffer).
    assert (Hsize :
              Z.of_nat (length (Spec.wav_header
                                  (if requests_float32 opt then 3 else 1)
                                  (Z.of_nat (numberOfChannels buffer))
                                  (sampleRate buffer)
                                  (if requests_float32 opt then 32 else 16)
                                  (Z.of_nat (length samples)
                                   * Spec.bytesPerSample
                                       (if requests_float32 opt then 32 else 16))
                                ++ Spec.sample_data (requests_float32 opt) samples))
              - 44
              = Z.of_nat (length samples)
                * Spec.bytesPerSample (if requests_float32 opt then 32 else 16)).
    { rewrite length_app, length_wav_header. unfold Spec.sample_data.
      destruct (requests_float32 opt);
        rewrite ?length_float32_data, ?length_pcm16_data;
        [change (Spec.bytesPerSample 32) with 4
        |change (Spec.bytesPerSample 16) with 2]; lia. }
    rewrite Hsize.
    pose proof (wav_header_fields
                  (if requests_float32 opt then 3 else 1)
                  (Z.of_nat (numberOfChannels buffer)) (sampleRate buffer)
                  (if requests_float32 opt then 32 else 16)
                  (Z.of_nat (length samples)
                   * Spec.bytesPerSample (if requests_float32 opt then 32 else 16))
                  (Spec.sample_data (requests_float32 opt) samples)) as Hf.
    cbv zeta in Hf.
    destruct Hf as (F4 & _ & F20 & F22 & F24 & F28 & F32 & F34 & F40).
    destruct (requests_float32 opt);
      [change (Spec.bytesPerSample 32) with 4 in *
      |change (Spec.bytesPerSample 16) with 2 in *];
      repeat apply conj; try assumption; reflexivity.
Qed.


Lemma frames_lookup (channel0 : Float32Array) :
  forall (channel1 : Float32Array) (i : nat),
    length channel0 = length channel1 ->
    Spec.frames channel0 channel1 !! (2 * i)%nat = channel0 !! i /\
    Spec.frames channel0 channel1 !! (2 * i + 1)%nat = channel1 !! i.
Proof.
  induction channel0 as [|l channel0 IH]; intros [|r channel1] i Hlen;
    try discriminate.
  - split; reflexivity.
  - destruct i as [|i]; [split; reflexivity|].
    replace (2 * S i)%nat with (S (S (2 * i))) by lia.
    replace (S (S (2 * i)) + 1)%nat with (S (S (2 * i + 1))) by lia.
    simpl in Hlen. apply (IH channel1 i). lia.
Qed.

(** C10.  The header always declares the buffer's channel count.  The
    data after the header is the frame-by-frame interleaving of channel 0
    and channel 1 when the buffer has exactly two channels, and channel 0
    alone for every other channel count, so with three or more channels
    the declared count does not match the single channel written. *)
Theorem audioBufferToWav_channel_layout (buffer : AudioBuffer)
    (opt : option WavOptions) :
  AudioBuffer_wf buffer ->
  exists (blob : Blob) (channel0 : Float32Array),
    audioBufferToWav buffer opt = Return blob /\
    channelData buffer !! 0%nat = Some channel0 /\
    getUint16 (blob_bytes blob) 22
    = Some (ToUint16 (Z.of_nat (numberOfChannels buffer))) /\
    (forall channel1 : Float32Array,
       channelData buffer = [channel0; channel1] ->
       drop 44 (blob_bytes blob)
       = Spec.sample_data (requests_float32 opt) (Spec.frames channel0 channel1) /\
       forall i : nat,
         Spec.frames channel0 channel1 !! (2 * i)%nat = channel0 !! i /\
         Spec.frames channel0 channel1 !! (2 * i + 1)%nat = channel1 !! i) /\
    (numberOfChannels buffer <> 2%nat ->
     drop 44 (blob_bytes blob)
     = Spec.sample_data (requests_float32 opt) channel0).
Proof.
  intros Hwf.
  pose proof (audioBufferToWav_wav_file buffer opt Hwf) as Hfile.
  destruct Hwf as [Hch Hlen].
  assert (Hcd : exists channel0 rest, channelData buffer = channel0 :: rest).
  { unfold numberOfChannels in Hch.
    destruct (channelData buffer) as [|channel0 rest]; [simpl in Hch; lia|eauto]. }
  destruct Hcd as (channel0 & rest & Hcd).
  eexists. exists channel0. split; [exact Hfile|].
  rewrite blob_bytes_newBlob. unfold Spec.wav_file. cbv zeta.
  split; [rewrite Hcd; reflexivity|]. split.
  - match goal with
    | |- getUint16 (Spec.wav_header ?f ?c ?sr ?b ?d ++ ?t) _ = _ =>
        destruct (wav_header_fields f c sr b d t) as (_ & _ & _ & F22 & _)
    end.
    exact F22.
  - rewrite drop_app_length' by reflexivity.
    unfold Spec.serialized_samples, numberOfChannels. rewrite Hcd in *.
    split.
    + intros channel1 E. injection E as ->. split; [reflexivity|].
      intros i. apply frames_lookup.
      inversion Hlen as [|? ? H0 Hrest]; subst.
      inversion Hrest as [|? ? H1 _]; subst. congruence.
    + intros Hne. destruct rest as [|c1 [|c2 rest]]; try reflexivity.
      simpl in Hne. lia.
Qed.

End WavEncoder.

(** C5 as stated fails: the RIFF size field of that file is 88236, so the
    header is not the listed one with 88244. *)
Lemma wav_header_riff_size_counterexample :
  exists blob,
    @audioBufferToWav Examples.zero_codec Spec.silence_1s_mono_44100 None
    = Return blob /\
    getUint32 (blob_bytes blob) 4 = Some 88236 /\
    getUint32 (blob_bytes blob) 4 <> Some 88244 /\
    take 44 (blob_bytes blob) <> Spec.header_silence_as_listed.
Proof.
  eexists. split; [apply audioBufferToWav_silence|].
  rewrite blob_bytes_newBlob.
  assert (Hsize : getUint32
                    (Spec.header_silence_riff_36_plus_data
                     ++ Spec.pcm16_data (replicate (Z.to_nat 44100) (Finite 0))) 4
                  = Some 88236) by reflexivity.
  repeat apply conj.
  - exact Hsize.
  - rewrite Hsize. discriminate.
  - rewrite take_app_length' by reflexivity. discriminate.
Defined.

Lemma wav_header_byte_exact_witness :
  exists blob,
    @audioBufferToWav Examples.zero_codec Examples.three_channels None = Return blob /\
    getUint16 (blob_bytes blob) 22 = Some 3 /\
    getUint16 (blob_bytes blob) 32 = Some 6 /\
    getUint32 (blob_bytes blob) 40 = Some 2.
Proof.
  assert (Hwf : AudioBuffer_wf Examples.three_channels)
    by (split; [cbv; lia | repeat constructor]).
  destruct (@wav_header_byte_exact Examples.zero_codec) as [_ Hgeneral].
  destruct (Hgeneral Examples.three_channels None Hwf) as (blob & Hblob & Hfields).
  exists blob. split; [exact Hblob|].
  cbv zeta in Hfields.
  destruct Hfields as (Hsize & _ & _ & _ & F22 & _ & _ & F32 & _ & F40).
  rewrite Hsize in F40.
  repeat apply conj; [exact F22 | exact F32 | exact F40].
Defined.

Lemma floatTo16BitPCM_quantises_witness :
  exists output',
    floatTo16BitPCM (alloc 6) 2 [Finite (3 # 2); Finite (- (1 # 2))]
    = Return output' /\
    forall (i : nat) (x : Number),
      [Finite (3 # 2); Finite (- (1 # 2))] !! i = Some x ->
      getInt16 output' (2 + 2 * i) = Some (Spec.pcm16 x) /\
      -32768 <= Spec.pcm16 x <= 32767 /\
      (JS.lessThan (Finite 1) x = true -> Spec.pcm16 x = 32767) /\
      (JS.lessThan x (Finite (-1)) = true -> Spec.pcm16 x = -32768).
Proof.
  apply (floatTo16BitPCM_quantises (alloc 6) 2 [Finite (3 # 2); Finite (- (1 # 2))]).
  simpl. lia.
Defined.



Lemma audioBufferToWav_channel_layout_witness :
  exists blob,
    @audioBufferToWav Examples.zero_codec Examples.three_channels None = Return blob /\
    getUint16 (blob_bytes blob) 22 = Some 3 /\
    drop 44 (blob_bytes blob) = [xff; x7f].
Proof.
  assert (Hwf : AudioBuffer_wf Examples.three_channels)
    by (split; [cbv; lia | repeat constructor]).
  destruct (@audioBufferToWav_channel_layout Examples.zero_codec
              Examples.three_channels None Hwf)
    as (blob & channel0 & Hblob & Hc0 & Hcount & _ & Hmono).
  exists blob. repeat apply conj.
  - exact Hblob.
  - exact Hcount.
  - rewrite Hmono by (cbv; lia).
    injection Hc0 as <-. reflexivity.
Defined.

(* ===================================================================== *)
(** ** The MP3 adapter                                                    *)
(* ===================================================================== *)

Section Mp3Adapter.

(** The conversion loop fills the slots right after [done]. *)
Lemma floatToInt16_fill (data : Float32Array) :
  forall (done rest : Int16Array),
    length rest = length data ->
    floatToInt16 data (length done) (done ++ rest)
    = done ++ map Spec.mp3_int16 data.
Proof.
  induction data as [|x data IH]; intros done rest Hlen.
  - destruct rest; [reflexivity|discriminate].
  - destruct rest as [|r rest]; [discriminate|].
    cbn [floatToInt16].
    rewrite audioBufferToMp3_sample.
    rewrite (insert_app_r_alt done) by lia.
    replace (length done - length done)%nat with 0%nat by lia.
    cbn [insert list_insert map]. unfold Datatypes.id.
    replace (done ++ Spec.mp3_int16 x :: rest)
      with ((done ++ [Spec.mp3_int16 x]) ++ rest)
      by (rewrite <- app_assoc; reflexivity).
    replace (S (length done)) with (length (done ++ [Spec.mp3_int16 x]))
      by (rewrite length_app; simpl; lia).
    rewrite IH by (simpl in Hlen; lia).
    rewrite <- app_assoc. reflexivity.
Qed.

Lemma floatToInt16_channel (data : Float32Array) :
  floatToInt16 data 0 (replicate (length data) 0) = map Spec.mp3_int16 data.
Proof.
  apply (floatToInt16_fill data [] (replicate (length data) 0)).
  apply length_replicate.
Qed.

Lemma concat_push_if_nonempty (mp3Data : list (list byte)) (block : list byte) :
  concat (push_if_nonempty mp3Data block) = concat mp3Data ++ block.
Proof.
  unfold push_if_nonempty.
  destruct (decide (0 < length block)%nat) as [_|Hempty].
  - rewrite concat_app. simpl. rewrite app_nil_r. reflexivity.
  - destruct block; [rewrite app_nil_r; reflexivity | simpl in Hempty; lia].
Qed.

(** What [audioBufferToMp3] returns when lamejs is loaded. *)
Lemma audioBufferToMp3_loaded (lamejs : LameJs) (buffer : AudioBuffer)
    (left : Float32Array) :
  AudioBuffer_wf buffer ->
  channelData buffer !! 0%nat = Some left ->
  let right :=
    if decide (numberOfChannels buffer = 2%nat)
    then map Spec.mp3_int16 <$> channelData buffer !! 1%nat
    else None in
  let mp3encoder :=
    Mp3Encoder_new lamejs (numberOfChannels buffer) (sampleRate buffer) 192 in
  let encoded := encodeBuffer lamejs mp3encoder (map Spec.mp3_int16 left) right in
  audioBufferToMp3 (Some lamejs) buffer
  = Return {| blob_bytes := fst encoded ++ fst (flush lamejs (snd encoded));
              blob_type := "audio/mp3" |}.
Proof.
  intros [Hch Hlen] Hleft. cbv zeta.
  unfold audioBufferToMp3, getChannelData. cbv zeta.
  rewrite Hleft. cbn [mbind Completion_bind JS.bind].
  assert (Hl : length left = bufferLength buffer).
  { apply (proj1 (Forall_lookup _ _) Hlen 0%nat left Hleft). }
  destruct (decide (numberOfChannels buffer = 2%nat)) as [H2|H2].
  - unfold numberOfChannels in H2.
    destruct (channelData buffer !! 1%nat) as [right|] eqn:Hright.
    + assert (Hr : length right = bufferLength buffer).
      { apply (proj1 (Forall_lookup _ _) Hlen 1%nat right Hright). }
      cbn [mbind Completion_bind JS.bind fmap option_fmap option_map
             mret Completion_ret].
      rewrite <- Hl. rewrite floatToInt16_channel.
      replace (length left) with (length right) by congruence.
      rewrite floatToInt16_channel.
      unfold newBlob. rewrite !concat_push_if_nonempty. reflexivity.
    + apply lookup_ge_None in Hright. lia.
  - cbn [mbind Completion_bind JS.bind mret Completion_ret].
    rewrite <- Hl. rewrite floatToInt16_channel.
    unfold newBlob. rewrite !concat_push_if_nonempty. reflexivity.
Qed.

(** C6.  With lamejs loaded, every sample of every channel handed to the
    encoder is the Int16 obtained from the float sample by clamping to
    [-1, 1], scaling by 32767.5 and truncating; channel 0 is always
    handed over, channel 1 exactly when the buffer has two channels.  The
    blob is what [encodeBuffer] emits followed by what [flush] emits.  The
    scale differs from the WAV path: -1 becomes -32767 here and -32768
    there. *)
Theorem audioBufferToMp3_int16_and_concatenation (lamejs : LameJs)
    (buffer : AudioBuffer) :
  AudioBuffer_wf buffer ->
  exists (blob : Blob) (left : Float32Array),
    audioBufferToMp3 (Some lamejs) buffer = Return blob /\
    channelData buffer !! 0%nat = Some left /\
    (let right :=
       if decide (numberOfChannels buffer = 2%nat)
       then map Spec.mp3_int16 <$> channelData buffer !! 1%nat
       else None in
     let mp3encoder :=
       Mp3Encoder_new lamejs (numberOfChannels buffer) (sampleRate buffer) 192 in
     let encoded := encodeBuffer lamejs mp3encoder (map Spec.mp3_int16 left) right in
     blob_bytes blob = fst encoded ++ fst (flush lamejs (snd encoded))) /\
    (forall x : Number, -32767 <= Spec.mp3_int16 x <= 32767) /\
    (forall q : Q,
       Spec.mp3_int16 (Finite q) = truncate (Spec.clamp q * (65535 # 2))) /\
    Spec.mp3_int16 (Finite (-1)) = -32767 /\
    Spec.pcm16 (Finite (-1)) = -32768.
Proof.
  intros Hwf.
  assert (Hleft : exists left, channelData buffer !! 0%nat = Some left).
  { destruct Hwf as [Hch _]. unfold numberOfChannels in Hch.
    destruct (channelData buffer) as [|left rest]; [simpl in Hch; lia|].
    exists left. reflexivity. }
  destruct Hleft as [left Hleft].
  eexists. exists left.
  split; [apply (audioBufferToMp3_loaded lamejs buffer left Hwf Hleft)|].
  split; [exact Hleft|].
  split; [reflexivity|].
  split; [apply mp3_int16_range|].
  split; [reflexivity|].
  split; reflexivity.
Qed.

(** C7, amended.  Every blob the MP3 adapter returns has type
    [audio/mp3]. *)
Theorem audioBufferToMp3_blob_type (window_lamejs : option LameJs)
    (buffer : AudioBuffer) (blob : Blob) :
  audioBufferToMp3 window_lamejs buffer = Return blob ->
  blob_type blob = "audio/mp3"%string.
Proof.
  unfold audioBufferToMp3.
  destruct window_lamejs as [lamejs|]; [|discriminate].
  cbv zeta. unfold getChannelData.
  destruct (channelData buffer !! 0%nat) as [left|]; [|discriminate].
  cbn [mbind Completion_bind JS.bind].
  destruct (decide (numberOfChannels buffer = 2%nat)) as [H2|H2].
  - destruct (channelData buffer !! 1%nat) as [right|]; [|discriminate].
    cbn [mbind Completion_bind JS.bind mret Completion_ret].
    intros E. injection E as <-. reflexivity.
  - cbn [mbind Completion_bind JS.bind mret Completion_ret].
    intros E. injection E as <-. reflexivity.
Qed.

End Mp3Adapter.

Lemma stereo_wf : AudioBuffer_wf Examples.stereo.
Proof. split; [cbv; lia | repeat constructor]. Qed.

Lemma audioBufferToMp3_int16_and_concatenation_witness :
  exists blob : Blob,
    audioBufferToMp3 (Some Examples.toy_lame) Examples.stereo = Return blob /\
    blob_bytes blob = [xff; xff; xff].
Proof.
  destruct (audioBufferToMp3_int16_and_concatenation Examples.toy_lame
              Examples.stereo stereo_wf)
    as (blob & left & Hblob & Hleft & Hbytes & _).
  exists blob. split; [exact Hblob|].
  injection Hleft as <-. rewrite Hbytes. reflexivity.
Defined.

(** C7 as stated fails: the blob's type is [audio/mp3], not [audio/mpeg]. *)
Lemma audioBufferToMp3_blob_type_counterexample :
  exists blob : Blob,
    audioBufferToMp3 (Some Examples.toy_lame) Examples.stereo = Return blob /\
    blob_type blob = "audio/mp3"%string /\
    blob_type blob <> "audio/mpeg"%string.
Proof.
  eexists. split; [reflexivity|]. split; [reflexivity|discriminate].
Defined.

Lemma audioBufferToMp3_blob_type_witness :
  blob_type {| blob_bytes := [xff; xff; xff]; blob_type := "audio/mp3" |}
  = "audio/mp3"%string.
Proof.
  apply (audioBufferToMp3_blob_type (Some Examples.toy_lame) Examples.stereo).
  reflexivity.
Defined.

(* ===================================================================== *)
(** ** The gain automation of [processAudioRegion]                        *)
(* ===================================================================== *)

Section GainEnvelope.

Local Open Scope R_scope.

Lemma safeFade_bounds (fade D : R) :
  0 < fade -> 0 < D -> 0 < Rmin fade (D / 2) <= D / 2.
Proof.
  intros Hf HD. split.
  - apply Rmin_glb_lt; lra.
  - apply Rmin_r.
Qed.

Ltac decide_reals :=
  repeat match goal with
         | |- context [Rlt_dec ?a ?b] => destruct (Rlt_dec a b); try lra
         | |- context [Req_dec_T ?a ?b] => destruct (Req_dec_T a b); try lra
         | |- context [Rle_dec ?a ?b] => destruct (Rle_dec a b); try lra
         | |- context [Rgt_dec ?a ?b] => destruct (Rgt_dec a b); try lra
         end.

Lemma setValueAtTime_returns (events : list AutomationEvent) (value time : R) :
  0 <= time ->
  setValueAtTime events value time = Return (insertEvent (setValue value time) events).
Proof.
  intros Ht. unfold setValueAtTime. destruct (Rlt_dec time 0); [lra|reflexivity].
Qed.

Lemma linearRampToValueAtTime_returns (events : list AutomationEvent)
    (value time : R) :
  0 <= time ->
  linearRampToValueAtTime events value time
  = Return (insertEvent (linearRamp value time) events).
Proof.
  intros Ht. unfold linearRampToValueAtTime.
  destruct (Rlt_dec time 0); [lra|reflexivity].
Qed.

Ltac insert_events :=
  repeat (progress
            (cbn [insertEvent setValue linearRamp ev_time ev_kind same_kind app];
             decide_reals));
  try reflexivity.

(** With a positive output duration no automation call throws, and the
    events end up in the order they were scheduled. *)
Lemma scheduleGain_events (volume fadeIn fadeOut D : R) :
  0 < D ->
  scheduleGain volume fadeIn fadeOut D
  = Return (fade_events volume fadeIn fadeOut D).
Proof.
  intros HD. unfold scheduleGain, fade_events.
  rewrite setValueAtTime_returns by lra. rewrite bind_Return.
  destruct (Rgt_dec fadeIn 0) as [Hin|Hin].
  - pose proof (safeFade_bounds fadeIn D Hin HD) as Ha.
    set (a := Rmin fadeIn (D / 2)) in *.
    rewrite linearRampToValueAtTime_returns by lra. rewrite bind_Return.
    destruct (Rgt_dec fadeOut 0) as [Hout|Hout].
    + pose proof (safeFade_bounds fadeOut D Hout HD) as Hc.
      set (c := Rmin fadeOut (D / 2)) in *.
      rewrite setValueAtTime_returns by lra. rewrite bind_Return.
      rewrite linearRampToValueAtTime_returns by lra.
      f_equal. insert_events.
    + change (mret ?x) with (Return x). f_equal. insert_events.
  - rewrite setValueAtTime_returns by lra. rewrite bind_Return.
    destruct (Rgt_dec fadeOut 0) as [Hout|Hout].
    + pose proof (safeFade_bounds fadeOut D Hout HD) as Hc.
      set (c := Rmin fadeOut (D / 2)) in *.
      rewrite setValueAtTime_returns by lra. rewrite bind_Return.
      rewrite linearRampToValueAtTime_returns by lra.
      f_equal. insert_events.
    + change (mret ?x) with (Return x). f_equal. insert_events.
Qed.

(** The scheduled gain is the envelope of the specification on the whole
    output timeline. *)
Lemma fade_events_envelope (volume fadeIn fadeOut D t : R) :
  0 < D -> 0 <= fadeIn -> 0 <= fadeOut -> 0 <= t <= D ->
  gainAtTime (fade_events volume fadeIn fadeOut D) t
  = Spec.envelope volume fadeIn fadeOut D t.
Proof.
  intros HD Hin0 Hout0 Ht.
  unfold gainAtTime, fade_events, Spec.envelope. cbv zeta.
  destruct (Rgt_dec fadeIn 0) as [Hin|Hin];
    destruct (Rgt_dec fadeOut 0) as [Hout|Hout].
  - pose proof (safeFade_bounds fadeIn D Hin HD) as Ha.
    pose proof (safeFade_bounds fadeOut D Hout HD) as Hc.
    set (a := Rmin fadeIn (D / 2)) in *.
    set (c := Rmin fadeOut (D / 2)) in *.
    cbn [app valueFrom setValue linearRamp ev_time ev_kind ev_value].
    decide_reals;
      first [ field; lra
            | replace t with D by lra; field; lra
            | replace t with (D - c) by lra; field; lra ].
  - pose proof (safeFade_bounds fadeIn D Hin HD) as Ha.
    set (a := Rmin fadeIn (D / 2)) in *.
    replace (Rmin fadeOut (D / 2)) with 0
      by (replace fadeOut with 0 by lra; symmetry; apply Rmin_left; lra).
    cbn [app valueFrom setValue linearRamp ev_time ev_kind ev_value].
    decide_reals; first [ reflexivity | field; lra ].
  - pose proof (safeFade_bounds fadeOut D Hout HD) as Hc.
    set (c := Rmin fadeOut (D / 2)) in *.
    replace (Rmin fadeIn (D / 2)) with 0
      by (replace fadeIn with 0 by lra; symmetry; apply Rmin_left; lra).
    cbn [app valueFrom setValue linearRamp ev_time ev_kind ev_value].
    decide_reals;
      first [ reflexivity
            | field; lra
            | replace t with D by lra; field; lra
            | replace t with (D - c) by lra; field; lra ].
  - replace (Rmin fadeIn (D / 2)) with 0
      by (replace fadeIn with 0 by lra; symmetry; apply Rmin_left; lra).
    replace (Rmin fadeOut (D / 2)) with 0
      by (replace fadeOut with 0 by lra; symmetry; apply Rmin_left; lra).
    cbn [app valueFrom setValue linearRamp ev_time ev_kind ev_value].
    decide_reals; reflexivity.
Qed.

End GainEnvelope.

(* ===================================================================== *)
(** ** [processAudioRegion]: length of the rendered buffer                *)
(* ===================================================================== *)

Section RegionRenderer.

Context `{RenderEngine}.

Local Open Scope R_scope.

Lemma Rpower_2_pos (y : R) : 0 < Rpower 2 y.
Proof. unfold Rpower. apply exp_pos. Qed.

Lemma Rpower_2_octave : Rpower 2 (12 / 12) = 2.
Proof. replace (12 / 12) with 1 by lra. apply Rpower_1. lra. Qed.

Lemma effectiveRate_pos (ed : Editor) : 0 < speed ed -> 0 < effectiveRate ed.
Proof.
  intros Hs. unfold effectiveRate, detuneFactor.
  apply Rmult_lt_0_compat; [exact Hs | apply Rpower_2_pos].
Qed.

Lemma outputDuration_pos (ed : Editor) :
  region_start (regionRef ed) < region_end (regionRef ed) ->
  0 < speed ed ->
  0 < outputDuration ed.
Proof.
  intros Hr Hs. unfold outputDuration.
  apply Rdiv_lt_0_compat; [lra | apply effectiveRate_pos; exact Hs].
Qed.

Lemma Int_part_bounds (x : R) : IZR (Int_part x) <= x < IZR (Int_part x) + 1.
Proof. destruct (base_Int_part x). lra. Qed.

Lemma Int_part_IZR (n : Z) : Int_part (IZR n) = n.
Proof. symmetry. apply Int_part_spec. lra. Qed.

(** Truncating and rounding to nearest differ by at most one. *)
Lemma Int_part_round (x : R) : (0 <= Spec.round x - Int_part x <= 1)%Z.
Proof.
  unfold Spec.round.
  pose proof (Int_part_bounds x) as Hx.
  pose proof (Int_part_bounds (x + / 2)) as Hr.
  split.
  - apply Z.le_0_sub. apply Z.lt_succ_r. apply lt_IZR.
    rewrite succ_IZR. lra.
  - assert (Hlt : (Int_part (x + / 2) < Int_part x + 2)%Z).
    { apply lt_IZR. rewrite plus_IZR. lra. }
    lia.
Qed.

(** A length of at least one frame that fits in 32 bits is truncated and
    nothing else. *)
Lemma to_unsigned_long_in_range (x : R) :
  1 <= x < 4294967296 ->
  to_unsigned_long x = Int_part x /\ (1 <= Int_part x < 4294967296)%Z.
Proof.
  intros [Hlo Hhi].
  pose proof (Int_part_bounds x) as Hx.
  assert (Hr : (1 <= Int_part x < 4294967296)%Z).
  { split.
    - apply Z.lt_succ_r. apply lt_IZR. rewrite succ_IZR. lra.
    - apply lt_IZR. lra. }
  split; [|exact Hr].
  unfold to_unsigned_long, truncR, ToUint32.
  destruct (Rle_dec 0 x) as [_|Hneg]; [|lra].
  apply Z.mod_small. lia.
Qed.

(** What [processAudioRegion] returns on a non-empty region whose
    requested length the offline context accepts. *)
Lemma source_start_returns (offset duration : R) :
  0 <= offset -> 0 <= duration -> source_start 0 offset duration = Return tt.
Proof.
  intros Ho Hd. unfold source_start.
  destruct (Rlt_dec 0 0); [lra|].
  destruct (Rlt_dec offset 0); [lra|].
  destruct (Rlt_dec duration 0); [lra|]. reflexivity.
Qed.

Lemma Int_part_small (x : R) : 0 <= x < 1 -> Int_part x = 0%Z.
Proof.
  intros Hx. pose proof (Int_part_bounds x) as Hb.
  assert (Int_part x < 1)%Z by (apply lt_IZR; lra).
  assert (-1 < Int_part x)%Z by (apply lt_IZR; lra).
  lia.
Qed.

(** A region that is not empty but asks for less than one frame: the
    constructor of the offline context throws. *)
Lemma processAudioRegion_rejects_sub_frame (ed : Editor) :
  region_start (regionRef ed) < region_end (regionRef ed) ->
  0 <= requestedLength ed < 1 ->
  processAudioRegion ed = Throw NotSupportedError.
Proof.
  intros Hregion Hlen.
  unfold processAudioRegion. cbv zeta.
  destruct (Rle_dec (region_end (regionRef ed) - region_start (regionRef ed)) 0)
    as [Hempty|_]; [lra|].
  change ((region_end (regionRef ed) - region_start (regionRef ed))
          / (speed ed * Rpower 2 (pitch ed / 12)))
    with (outputDuration ed).
  change (outputDuration ed * IZR (sampleRate (audioBuffer ed)))
    with (requestedLength ed).
  unfold newOfflineAudioContext. cbv zeta.
  destruct (decide (numberOfChannels (audioBuffer ed) = 0%nat));
    [reflexivity|].
  unfold to_unsigned_long, truncR.
  destruct (Rle_dec 0 (requestedLength ed)) as [_|Hneg]; [|lra].
  rewrite (Int_part_small _ Hlen).
  reflexivity.
Qed.

Lemma processAudioRegion_renders (ed : Editor) :
  region_start (regionRef ed) < region_end (regionRef ed) ->
  0 <= region_start (regionRef ed) ->
  0 < speed ed ->
  (1 <= numberOfChannels (audioBuffer ed))%nat ->
  1 <= requestedLength ed < 4294967296 ->
  processAudioRegion ed
  = Return (Some (startRendering
      {| graph_context :=
           {| ctx_numberOfChannels := numberOfChannels (audioBuffer ed);
              ctx_length := Z.to_nat (Int_part (requestedLength ed));
              ctx_sampleRate := sampleRate (audioBuffer ed) |};
         graph_source :=
           {| src_buffer := audioBuffer ed;
              src_playbackRate := speed ed;
              src_detune := pitch ed * 100;
              src_when := 0;
              src_offset := region_start (regionRef ed);
              src_duration :=
                region_end (regionRef ed) - region_start (regionRef ed) |};
         graph_gain :=
           fade_events (volume ed) (fadeInDuration ed) (fadeOutDuration ed)
             (outputDuration ed) |})).
Proof.
  intros Hregion Hstart Hspeed Hch Hlen.
  pose proof (outputDuration_pos ed Hregion Hspeed) as HD.
  destruct (to_unsigned_long_in_range _ Hlen) as [Hul Hrange].
  unfold processAudioRegion. cbv zeta.
  destruct (Rle_dec (region_end (regionRef ed) - region_start (regionRef ed)) 0)
    as [Hempty|_]; [lra|].
  change ((region_end (regionRef ed) - region_start (regionRef ed))
          / (speed ed * Rpower 2 (pitch ed / 12)))
    with (outputDuration ed).
  change (outputDuration ed * IZR (sampleRate (audioBuffer ed)))
    with (requestedLength ed).
  unfold newOfflineAudioContext. cbv zeta.
  destruct (decide (numberOfChannels (audioBuffer ed) = 0%nat)) as [H0|_]; [lia|].
  rewrite Hul.
  destruct (decide (Int_part (requestedLength ed) = 0%Z)) as [H0|_]; [lia|].
  rewrite bind_Return.
  rewrite source_start_returns by lra.
  rewrite bind_Return.
  rewrite scheduleGain_events by exact HD.
  rewrite bind_Return. reflexivity.
Qed.

Lemma startRendering_shape (g : RenderGraph) :
  numberOfChannels (startRendering g) = ctx_numberOfChannels (graph_context g) /\
  sampleRate (startRendering g) = ctx_sampleRate (graph_context g) /\
  bufferLength (startRendering g) = ctx_length (graph_context g) /\
  Forall (fun c => length c = bufferLength (startRendering g))
    (channelData (startRendering g)).
Proof.
  unfold startRendering, numberOfChannels. simpl.
  repeat apply conj; try reflexivity.
  - rewrite length_map, length_seq. reflexivity.
  - apply Forall_map. apply Forall_forall. intros c _.
    simpl. rewrite length_map, length_seq. reflexivity.
Qed.

End RegionRenderer.

(* ===================================================================== *)
(** ** The renderer, the export path and the preview clock                *)
(* ===================================================================== *)

Section Editor.

Context `{RenderEngine} `{Float32Codec}.

Local Open Scope R_scope.

(** C1.  For a region with [0 <= start < end], speed in [0.5, 2] and
    pitch in [-12, 12], whenever the requested length
    [(end - start) / (speed * 2^(pitch/12)) * sampleRate] is one the
    offline context accepts (at least one frame, below 2^32),
    [processAudioRegion] returns a buffer with the source's channel count
    and sample rate whose channels all have one length, and that length is
    within one sample of the requested length rounded to the nearest
    integer (the platform truncates it).  For region [0, 10], speed 1 and
    pitch 12 the buffer has [5 * sampleRate] frames and lasts 5 s.
    Without the conditions on the region nothing is rendered: see the
    counterexample below. *)
Theorem processAudioRegion_output_length (ed : Editor) :
  region_start (regionRef ed) < region_end (regionRef ed) ->
  0 <= region_start (regionRef ed) ->
  / 2 <= speed ed <= 2 ->
  -12 <= pitch ed <= 12 ->
  (1 <= numberOfChannels (audioBuffer ed))%nat ->
  1 <= requestedLength ed < 4294967296 ->
  exists processedBuffer : AudioBuffer,
    processAudioRegion ed = Return (Some processedBuffer) /\
    numberOfChannels processedBuffer = numberOfChannels (audioBuffer ed) /\
    sampleRate processedBuffer = sampleRate (audioBuffer ed) /\
    Forall (fun c => length c = bufferLength processedBuffer)
      (channelData processedBuffer) /\
    (-1 <= Z.of_nat (bufferLength processedBuffer)
           - Spec.expected_frames (region_start (regionRef ed))
               (region_end (regionRef ed)) (speed ed) (pitch ed)
               (sampleRate (audioBuffer ed)) <= 1)%Z /\
    (region_start (regionRef ed) = 0 -> region_end (regionRef ed) = 10 ->
     speed ed = 1 -> pitch ed = 12 ->
     Z.of_nat (bufferLength processedBuffer)
     = (5 * sampleRate (audioBuffer ed))%Z /\
     WebAudio.duration processedBuffer = 5).
Proof.
  intros Hregion Hstart Hspeed Hpitch Hch Hlen.
  eexists. split.
  { apply processAudioRegion_renders;
      [exact Hregion | exact Hstart | lra | exact Hch | exact Hlen]. }
  destruct (to_unsigned_long_in_range _ Hlen) as [_ Hrange].
  match goal with
  | |- context [startRendering ?g] =>
      destruct (startRendering_shape g) as (Sch & Ssr & Slen & Sall)
  end.
  split; [exact Sch|]. split; [exact Ssr|]. split; [exact Sall|].
  rewrite Slen. cbn [graph_context ctx_length].
  rewrite Z2Nat.id by lia.
  split.
  - pose proof (Int_part_round (requestedLength ed)) as Hround.
    unfold Spec.expected_frames.
    change ((region_end (regionRef ed) - region_start (regionRef ed))
            / (speed ed * Rpower 2 (pitch ed / 12))
            * IZR (sampleRate (audioBuffer ed)))
      with (requestedLength ed).
    lia.
  - intros Hs He Hsp Hpi.
    assert (Hreq : requestedLength ed
                   = IZR (5 * sampleRate (audioBuffer ed))).
    { unfold requestedLength, outputDuration, effectiveRate, detuneFactor.
      rewrite Hs, He, Hsp, Hpi, Rpower_2_octave, mult_IZR. lra. }
    rewrite Hreq, Int_part_IZR in Hrange.
    split; [rewrite Hreq, Int_part_IZR; reflexivity|].
    unfold WebAudio.duration. rewrite Slen, Ssr.
    cbn [graph_context ctx_length ctx_sampleRate].
    rewrite Hreq, Int_part_IZR.
    rewrite INR_IZR_INZ, Z2Nat.id by lia.
    rewrite mult_IZR.
    assert (Hsr : 0 < IZR (sampleRate (audioBuffer ed))).
    { apply IZR_lt. lia. }
    field. lra.
Qed.

(** The three pieces of the envelope, and its two ends. *)
Lemma envelope_pieces (volume fadeIn fadeOut D : R) :
  0 < D -> / 2 <= volume -> 0 <= fadeIn -> 0 <= fadeOut ->
  let a := Rmin fadeIn (D / 2) in
  let c := Rmin fadeOut (D / 2) in
  (forall t, 0 < fadeIn -> 0 <= t <= a ->
             Spec.envelope volume fadeIn fadeOut D t = volume * (t / a)) /\
  (forall t, a <= t <= D - c ->
             Spec.envelope volume fadeIn fadeOut D t = volume) /\
  (forall t, 0 < fadeOut -> D - c <= t <= D ->
             Spec.envelope volume fadeIn fadeOut D t = volume * ((D - t) / c)) /\
  (fadeIn = 0 -> Spec.envelope volume fadeIn fadeOut D 0 = volume) /\
  (fadeOut = 0 -> Spec.envelope volume fadeIn fadeOut D D = volume) /\
  (Spec.envelope volume fadeIn fadeOut D 0 = 0 <-> fadeIn > 0) /\
  (Spec.envelope volume fadeIn fadeOut D D = 0 <-> fadeOut > 0).
Proof.
  intros HD Hv Hin Hout. cbv zeta. unfold Spec.envelope.
  assert (Ha : 0 <= Rmin fadeIn (D / 2) <= D / 2)
    by (split; [apply Rmin_glb; lra | apply Rmin_r]).
  assert (Hc : 0 <= Rmin fadeOut (D / 2) <= D / 2)
    by (split; [apply Rmin_glb; lra | apply Rmin_r]).
  assert (Ha' : 0 < fadeIn -> 0 < Rmin fadeIn (D / 2))
    by (intros; apply Rmin_glb_lt; lra).
  assert (Hc' : 0 < fadeOut -> 0 < Rmin fadeOut (D / 2))
    by (intros; apply Rmin_glb_lt; lra).
  assert (Ha0 : fadeIn = 0 -> Rmin fadeIn (D / 2) = 0)
    by (intros ->; apply Rmin_left; lra).
  assert (Hc0 : fadeOut = 0 -> Rmin fadeOut (D / 2) = 0)
    by (intros ->; apply Rmin_left; lra).
  set (a := Rmin fadeIn (D / 2)) in *.
  set (c := Rmin fadeOut (D / 2)) in *.
  repeat apply conj.
  - intros t Hpos Ht. specialize (Ha' Hpos).
    destruct (Rlt_dec t a); [reflexivity|].
    destruct (Rle_dec t (D - c)); [|lra].
    replace t with a by lra. field. lra.
  - intros t Ht.
    destruct (Rlt_dec t a); [lra|].
    destruct (Rle_dec t (D - c)); [reflexivity|lra].
  - intros t Hpos Ht. specialize (Hc' Hpos).
    destruct (Rlt_dec t a); [lra|].
    destruct (Rle_dec t (D - c)); [|reflexivity].
    replace t with (D - c) by lra. field. lra.
  - intros E. specialize (Ha0 E).
    destruct (Rlt_dec 0 a); [lra|].
    destruct (Rle_dec 0 (D - c)); [reflexivity|lra].
  - intros E. specialize (Hc0 E).
    destruct (Rlt_dec D a); [lra|].
    destruct (Rle_dec D (D - c)); [reflexivity|lra].
  - intros E0.
    destruct (Rgt_dec fadeIn 0) as [Hg|Hng]; [exact Hg|].
    assert (E : fadeIn = 0) by lra. specialize (Ha0 E).
    destruct (Rlt_dec 0 a); [lra|].
    destruct (Rle_dec 0 (D - c)); lra.
  - intros Hg. apply Rgt_lt in Hg. specialize (Ha' Hg).
    destruct (Rlt_dec 0 a); [|lra]. unfold Rdiv. ring.
  - intros E0.
    destruct (Rgt_dec fadeOut 0) as [Hg|Hng]; [exact Hg|].
    assert (E : fadeOut = 0) by lra. specialize (Hc0 E).
    destruct (Rlt_dec D a); [lra|].
    destruct (Rle_dec D (D - c)); lra.
  - intros Hg. apply Rgt_lt in Hg. specialize (Hc' Hg).
    destruct (Rlt_dec D a); [lra|].
    destruct (Rle_dec D (D - c)); [lra|]. unfold Rdiv. ring.
Qed.


(** C2.  For a non-empty region and valid parameters, the gain that
    [processAudioRegion] schedules and renders with is, over the output
    timeline [0, D] with [D] the output duration: a linear ramp from 0 to
    [volume] over [0, min(fadeIn, D/2)], [volume] between the ramps, and a
    linear ramp from [volume] to 0 over the last [min(fadeOut, D/2)].
    With [fadeIn = 0] the gain is [volume] at 0 and with [fadeOut = 0] it
    is [volume] at [D]; the gain at 0 is 0 exactly when [fadeIn > 0], and
    the gain at [D] is 0 exactly when [fadeOut > 0]. *)
Theorem processAudioRegion_gain_envelope (ed : Editor) :
  region_start (regionRef ed) < region_end (regionRef ed) ->
  / 2 <= speed ed <= 2 ->
  -12 <= pitch ed <= 12 ->
  / 2 <= volume ed <= 2 ->
  0 <= fadeInDuration ed ->
  0 <= fadeOutDuration ed ->
  let D := outputDuration ed in
  let safeFadeIn := Rmin (fadeInDuration ed) (D / 2) in
  let safeFadeOut := Rmin (fadeOutDuration ed) (D / 2) in
  exists gain : list AutomationEvent,
    scheduleGain (volume ed) (fadeInDuration ed) (fadeOutDuration ed) D
    = Return gain /\
    (forall processedBuffer : AudioBuffer,
       processAudioRegion ed = Return (Some processedBuffer) ->
       exists context source,
         processedBuffer
         = startRendering {| graph_context := context;
                             graph_source := source;
                             graph_gain := gain |}) /\
    (forall t, 0 <= t <= D ->
       gainAtTime gain t
       = Spec.envelope (volume ed) (fadeInDuration ed) (fadeOutDuration ed) D t) /\
    (forall t, 0 < fadeInDuration ed -> 0 <= t <= safeFadeIn ->
       gainAtTime gain t = volume ed * (t / safeFadeIn)) /\
    (forall t, safeFadeIn <= t <= D - safeFadeOut ->
       gainAtTime gain t = volume ed) /\
    (forall t, 0 < fadeOutDuration ed -> D - safeFadeOut <= t <= D ->
       gainAtTime gain t = volume ed * ((D - t) / safeFadeOut)) /\
    (fadeInDuration ed = 0 -> gainAtTime gain 0 = volume ed) /\
    (fadeOutDuration ed = 0 -> gainAtTime gain D = volume ed) /\
    (gainAtTime gain 0 = 0 <-> fadeInDuration ed > 0) /\
    (gainAtTime gain D = 0 <-> fadeOutDuration ed > 0).
Proof.
  intros Hregion Hspeed Hpitch Hvol Hin Hout. cbv zeta.
  assert (HD : 0 < outputDuration ed)
    by (apply outputDuration_pos; [exact Hregion | lra]).
  set (D := outputDuration ed) in *.
  exists (fade_events (volume ed) (fadeInDuration ed) (fadeOutDuration ed) D).
  split; [apply scheduleGain_events; exact HD|].
  split.
  { intros processedBuffer. unfold processAudioRegion. cbv zeta.
    destruct (Rle_dec (region_end (regionRef ed) - region_start (regionRef ed)) 0);
      [discriminate|].
    destruct (newOfflineAudioContext _ _ _) as [context|e]; [|discriminate].
    rewrite bind_Return.
    destruct (source_start _ _ _) as [[]|e]; [|discriminate].
    rewrite bind_Return.
    change ((region_end (regionRef ed) - region_start (regionRef ed))
            / (speed ed * Rpower 2 (pitch ed / 12)))
      with D.
    rewrite scheduleGain_events by exact HD.
    rewrite bind_Return.
    intros E. injection E as <-. eauto. }
  assert (Henv : forall t, 0 <= t <= D ->
            gainAtTime (fade_events (volume ed) (fadeInDuration ed)
                          (fadeOutDuration ed) D) t
            = Spec.envelope (volume ed) (fadeInDuration ed)
                (fadeOutDuration ed) D t).
  { intros t Ht. apply fade_events_envelope; assumption. }
  destruct (envelope_pieces (volume ed) (fadeInDuration ed) (fadeOutDuration ed) D
              HD (proj1 Hvol) Hin Hout)
    as (Pin & Pmid & Pout & Pin0 & Pout0 & Pstart & Pend).
  assert (Ha : 0 <= Rmin (fadeInDuration ed) (D / 2) <= D / 2)
    by (split; [apply Rmin_glb; lra | apply Rmin_r]).
  assert (Hc : 0 <= Rmin (fadeOutDuration ed) (D / 2) <= D / 2)
    by (split; [apply Rmin_glb; lra | apply Rmin_r]).
  split; [exact Henv|].
  split; [intros t Hpos Ht; rewrite Henv by lra; apply Pin; assumption|].
  split; [intros t Ht; rewrite Henv by lra; apply Pmid; assumption|].
  split; [intros t Hpos Ht; rewrite Henv by lra; apply Pout; assumption|].
  split; [intros E; rewrite Henv by lra; apply Pin0; assumption|].
  split; [intros E; rewrite Henv by lra; apply Pout0; assumption|].
  split; rewrite Henv by lra; assumption.
Qed.

(** C3.  On a region with [end - start <= 0], [processAudioRegion]
    returns [null] (no buffer, not an empty one) without throwing, and
    [handleDownload] returns without calling either encoder or doing
    anything else, whatever the export format. *)
Theorem empty_region_is_not_exported (window_lamejs : option LameJs) (ed : Editor) :
  region_end (regionRef ed) - region_start (regionRef ed) <= 0 ->
  processAudioRegion ed = Return None /\
  handleDownload window_lamejs ed = [].
Proof.
  intros Hempty.
  assert (Hnull : processAudioRegion ed = Return None).
  { unfold processAudioRegion. cbv zeta.
    destruct (Rle_dec (region_end (regionRef ed) - region_start (regionRef ed)) 0);
      [reflexivity|lra]. }
  split; [exact Hnull|].
  unfold handleDownload. rewrite Hnull. reflexivity.
Qed.

(** C8.  Without lamejs, [audioBufferToMp3] throws before doing anything
    else; an MP3 export of a rendered buffer then ends in the failure
    alert with no file saved and no WAV encoding attempted.  A WAV export
    does the same thing whether or not lamejs is there. *)
Theorem missing_lamejs_fails_mp3_only :
  (forall buffer : AudioBuffer,
     audioBufferToMp3 None buffer
     = Throw (GenericError "lamejs library not loaded")) /\
  (forall (ed : Editor) (processedBuffer : AudioBuffer),
     exportFormat ed = mp3 ->
     processAudioRegion ed = Return (Some processedBuffer) ->
     handleDownload None ed
     = [CallAudioBufferToMp3 processedBuffer; ExportFailedAlert]) /\
  (forall (ed : Editor) (lamejs : LameJs),
     exportFormat ed = wav ->
     handleDownload None ed = handleDownload (Some lamejs) ed).
Proof.
  repeat apply conj.
  - reflexivity.
  - intros ed processedBuffer Hfmt Hrender.
    unfold handleDownload. rewrite Hrender, Hfmt. reflexivity.
  - intros ed lamejs Hfmt.
    unfold handleDownload. rewrite Hfmt. reflexivity.
Qed.

(** C9, amended.  With the preview context alive, a tick at elapsed time
    up to and including the rendered buffer's duration sets the playhead
    to [start + (elapsed / duration) * (end - start)] and requests another
    frame; a tick at a strictly larger elapsed time returns without
    touching the playhead, as does any tick after the context is gone. *)
Theorem previewTick_projection (ed : Editor) (processedBuffer : AudioBuffer)
    (startTime currentTime : R) :
  let elapsed := currentTime - startTime in
  let outputDuration := WebAudio.duration processedBuffer in
  (elapsed <= outputDuration ->
   previewTick ed processedBuffer (Some currentTime) startTime
   = TickMoved (Spec.projectedTime (region_start (regionRef ed))
                  (region_end (regionRef ed)) outputDuration elapsed)) /\
  (elapsed > outputDuration ->
   previewTick ed processedBuffer (Some currentTime) startTime = TickReturned) /\
  previewTick ed processedBuffer None startTime = TickReturned.
Proof.
  cbv zeta. unfold previewTick, tick, Spec.projectedTime.
  repeat apply conj.
  - intros Hle.
    destruct (Rgt_dec (currentTime - startTime) (WebAudio.duration processedBuffer));
      [lra|reflexivity].
  - intros Hgt.
    destruct (Rgt_dec (currentTime - startTime) (WebAudio.duration processedBuffer));
      [reflexivity|lra].
  - reflexivity.
Qed.

End Editor.

(* ===================================================================== *)
(** ** The theorems at concrete inputs                                    *)
(* ===================================================================== *)

Section ConcreteRuns.

Local Open Scope R_scope.

Lemma requestedLength_octave_up : requestedLength Examples.octave_up = 220500.
Proof.
  unfold requestedLength, outputDuration, effectiveRate, detuneFactor.
  cbn [Examples.octave_up regionRef region_start region_end speed pitch
         audioBuffer sampleRate Spec.silence_1s_mono_44100].
  rewrite Rpower_2_octave. lra.
Qed.

Lemma processAudioRegion_output_length_witness :
  exists processedBuffer : AudioBuffer,
    @processAudioRegion Examples.silent_engine Examples.octave_up
    = Return (Some processedBuffer) /\
    Z.of_nat (bufferLength processedBuffer) = 220500%Z /\
    WebAudio.duration processedBuffer = 5.
Proof.
  destruct (@processAudioRegion_output_length Examples.silent_engine
              Examples.octave_up)
    as (processedBuffer & Hrender & _ & _ & _ & _ & Hoctave).
  - simpl. lra.
  - simpl. lra.
  - simpl. lra.
  - simpl. lra.
  - exact (le_n 1).
  - rewrite requestedLength_octave_up. lra.
  - destruct (Hoctave eq_refl eq_refl eq_refl eq_refl) as [Hlen Hdur].
    exists processedBuffer. repeat apply conj; assumption.
Defined.

Lemma requestedLength_half_frame :
  requestedLength MoreExamples.half_frame = / 2.
Proof.
  unfold requestedLength, outputDuration, effectiveRate, detuneFactor.
  cbn [MoreExamples.half_frame regionRef region_start region_end speed pitch
       audioBuffer sampleRate Spec.silence_1s_mono_44100].
  replace (0 / 12) with 0 by lra.
  rewrite Rpower_O by lra. lra.
Qed.

(** C1 as stated fails on a region that is not empty but shorter than one
    frame: with valid speed and pitch, nothing is rendered and the call
    ends with a NotSupportedError. *)
Lemma processAudioRegion_sub_frame_counterexample :
  region_start (regionRef MoreExamples.half_frame)
  < region_end (regionRef MoreExamples.half_frame) /\
  / 2 <= speed MoreExamples.half_frame <= 2 /\
  -12 <= pitch MoreExamples.half_frame <= 12 /\
  (forall engine : RenderEngine,
     @processAudioRegion engine MoreExamples.half_frame = Throw NotSupportedError) /\
  ~ (exists processedBuffer : AudioBuffer,
       @processAudioRegion Examples.silent_engine MoreExamples.half_frame
       = Return (Some processedBuffer)).
Proof.
  assert (Hthrow : forall engine : RenderEngine,
             @processAudioRegion engine MoreExamples.half_frame
             = Throw NotSupportedError).
  { intros engine. apply processAudioRegion_rejects_sub_frame.
    - simpl. lra.
    - rewrite requestedLength_half_frame. lra. }
  repeat apply conj; try (simpl; lra).
  - exact Hthrow.
  - intros [processedBuffer Hrender].
    rewrite Hthrow in Hrender. discriminate Hrender.
Defined.

Lemma processAudioRegion_gain_envelope_witness :
  exists gain : list AutomationEvent,
    scheduleGain 1 1 1 (outputDuration Examples.octave_up) = Return gain /\
    gainAtTime gain 0 = 0 /\
    gainAtTime gain (outputDuration Examples.octave_up) = 0.
Proof.
  destruct (@processAudioRegion_gain_envelope Examples.silent_engine
              Examples.octave_up)
    as (gain & Hgain & _ & _ & _ & _ & _ & _ & _ & Hstart & Hend).
  - simpl. lra.
  - simpl. lra.
  - simpl. lra.
  - simpl. lra.
  - simpl. lra.
  - simpl. lra.
  - exists gain. repeat apply conj.
    + exact Hgain.
    + apply Hstart. simpl. lra.
    + apply Hend. simpl. lra.
Defined.

Lemma empty_region_is_not_exported_witness :
  @processAudioRegion Examples.silent_engine Examples.empty_region = Return None /\
  @handleDownload Examples.silent_engine Examples.zero_codec
    (Some Examples.toy_lame) Examples.empty_region = [].
Proof.
  apply (@empty_region_is_not_exported Examples.silent_engine Examples.zero_codec).
  simpl. lra.
Defined.

Lemma missing_lamejs_fails_mp3_only_witness :
  exists processedBuffer : AudioBuffer,
    @handleDownload Examples.silent_engine Examples.zero_codec None
      Examples.octave_up
    = [CallAudioBufferToMp3 processedBuffer; ExportFailedAlert].
Proof.
  destruct (@missing_lamejs_fails_mp3_only Examples.silent_engine
              Examples.zero_codec) as (_ & Hmp3 & _).
  eexists. apply Hmp3; [reflexivity|].
  apply (@processAudioRegion_renders Examples.silent_engine Examples.octave_up).
  - simpl. lra.
  - simpl. lra.
  - simpl. lra.
  - exact (le_n 1).
  - rewrite requestedLength_octave_up. lra.
Defined.

Lemma duration_preview_buffer : WebAudio.duration Examples.preview_buffer = 3.
Proof. unfold WebAudio.duration. simpl. lra. Qed.

(** C9 as stated fails at [elapsed = outputDuration]: the tick still moves
    the playhead (to the end of the region) instead of stopping. *)
Lemma previewTick_boundary_counterexample :
  3 - 0 >= WebAudio.duration Examples.preview_buffer /\
  previewTick Examples.preview_editor Examples.preview_buffer (Some 3) 0
  = TickMoved 5 /\
  previewTick Examples.preview_editor Examples.preview_buffer (Some 3) 0
  <> TickReturned.
Proof.
  assert (Htick : previewTick Examples.preview_editor Examples.preview_buffer
                    (Some 3) 0 = TickMoved 5).
  { unfold previewTick, tick. rewrite duration_preview_buffer.
    cbn [Examples.preview_editor regionRef region_start region_end].
    destruct (Rgt_dec (3 - 0) 3); [lra|].
    f_equal. lra. }
  repeat apply conj.
  - rewrite duration_preview_buffer. lra.
  - exact Htick.
  - rewrite Htick. discriminate.
Defined.

Lemma previewTick_projection_witness :
  previewTick Examples.preview_editor Examples.preview_buffer (Some 1) 0
  = TickMoved (Spec.projectedTime 2 5 (WebAudio.duration Examples.preview_buffer)
                 (1 - 0)).
Proof.
  apply (previewTick_projection Examples.preview_editor Examples.preview_buffer 0 1).
  rewrite duration_preview_buffer. lra.
Defined.

(** The stereo example buffer, encoded: 44 header bytes, then the frames
    (1, -1), (0.5, -2) as 32767, -32768, 16383, -32768. *)
Example audioBufferToWav_stereo :
  @audioBufferToWav Examples.zero_codec Examples.stereo None
  = Return
      {| blob_bytes :=
           Spec.wav_header 1 2 8000 16 8
           ++ [xff; x7f; x00; x80; xff; x3f; x00; x80];
         blob_type := "audio/wav" |}.
Proof. vm_compute. reflexivity. Qed.

(** NaN is stored as 0 and the infinities as the ends of the range. *)
Example floatTo16BitPCM_non_finite :
  floatTo16BitPCM (alloc 6) 0 [NaN; PosInfinity; NegInfinity]
  = Return [x00; x00; xff; x7f; x00; x80].
Proof. vm_compute. reflexivity. Qed.

Lemma outputDuration_preview_editor : outputDuration Examples.preview_editor = 3.
Proof.
  unfold outputDuration, effectiveRate, detuneFactor.
  cbn [Examples.preview_editor regionRef region_start region_end speed pitch].
  replace (0 / 12) with 0 by lra.
  rewrite Rpower_O by lra. lra.
Qed.

(** Region [2, 5], speed 1, pitch 0, fades of 1 s, volume 1: the output
    lasts 3 s; the gain is halfway up at 0.5 s, 1 at 1.5 s and halfway down
    at 2.5 s. *)
Example fade_scenario :
  exists gain : list AutomationEvent,
    scheduleGain 1 1 1 (outputDuration Examples.preview_editor) = Return gain /\
    gainAtTime gain (1 / 2) = 1 / 2 /\
    gainAtTime gain (3 / 2) = 1 /\
    gainAtTime gain (5 / 2) = 1 / 2.
Proof.
  rewrite outputDuration_preview_editor.
  exists (fade_events 1 1 1 3).
  split; [apply scheduleGain_events; lra|].
  assert (Hfade : Rmin 1 (3 / 2) = 1) by (apply Rmin_left; lra).
  repeat apply conj;
    (rewrite fade_events_envelope by lra;
     unfold Spec.envelope; cbv zeta; rewrite Hfade;
     repeat match goal with
            | |- context [Rlt_dec ?a ?b] => destruct (Rlt_dec a b); try lra
            | |- context [Rle_dec ?a ?b] => destruct (Rle_dec a b); try lra
            end).
Qed.

End ConcreteRuns.

(* ===================================================================== *)
(** ** More on [audioUtils.ts]: edge cases, frames and symmetries         *)
(* ===================================================================== *)

Section AudioUtilsMore.

Context `{Float32Codec}.

(** The loop of [interleave] from any even [index]: the array keeps its
    length, the slots before [index] are left alone, and every later slot
    inside the array receives its input sample, or NaN when the input has
    run out. *)
Lemma interleave_loop_slots (inputL inputR : Float32Array) (len : nat) :
  forall (n index k : nat) (result : Float32Array),
    n = (len - index)%nat ->
    index = (2 * k)%nat ->
    length result = len ->
    let r := interleave_loop inputL inputR result len index k in
    length r = len /\
    (forall j : nat, (j < index)%nat -> r !! j = result !! j) /\
    (forall k' : nat, (k <= k')%nat ->
       ((2 * k' < len)%nat ->
        r !! (2 * k')%nat = Some (read_for_float32_store inputL k')) /\
       ((2 * k' + 1 < len)%nat ->
        r !! (2 * k' + 1)%nat = Some (read_for_float32_store inputR k'))).
Proof.
  induction n as [n IH] using lt_wf_ind.
  intros index k result Hn Hindex Hlen. cbv zeta.
  rewrite interleave_loop_unfold.
  destruct (decide (index < len)%nat) as [Hlt|Hge].
  - unfold Float32Array in *.
    set (result' :=
           <[S index := read_for_float32_store inputR k]>
             (<[index := read_for_float32_store inputL k]> result)).
    assert (Hlen' : length result' = len)
      by (unfold result'; rewrite !length_insert; exact Hlen).
    destruct (IH (len - S (S index))%nat ltac:(lia) (S (S index)) (S k) result'
                eq_refl ltac:(lia) Hlen') as (Rlen & Rkeep & Rslots).
    split; [exact Rlen|]. split.
    + intros j Hj. rewrite Rkeep by lia. unfold result'.
      rewrite !list_lookup_insert_ne by lia. reflexivity.
    + intros k' Hk'.
      destruct (decide (k' = k)) as [->|Hne].
      * split; intros Hin.
        -- rewrite Rkeep by lia. unfold result'.
           rewrite list_lookup_insert_ne by lia.
           rewrite <- Hindex. apply list_lookup_insert_eq. lia.
        -- rewrite Rkeep by lia. unfold result'.
           replace (2 * k + 1)%nat with (S index) by lia.
           apply list_lookup_insert_eq. rewrite length_insert. lia.
      * apply Rslots. lia.
  - split; [exact Hlen|]. split; [reflexivity|].
    intros k' Hk'. split; intros Hin; lia.
Qed.

(** X1.  Whatever the two input lengths, [interleave] returns an array of
    [inputL.length + inputR.length] samples whose slot [2k] holds
    [inputL[k]] and whose slot [2k+1] holds [inputR[k]]; where an input is
    too short the slot holds NaN, and the tail of the longer input is
    dropped. *)
Theorem interleave_any_lengths (inputL inputR : Float32Array) :
  length (interleave inputL inputR) = (length inputL + length inputR)%nat /\
  forall k : nat,
    ((2 * k < length inputL + length inputR)%nat ->
     interleave inputL inputR !! (2 * k)%nat
     = Some (default NaN (inputL !! k))) /\
    ((2 * k + 1 < length inputL + length inputR)%nat ->
     interleave inputL inputR !! (2 * k + 1)%nat
     = Some (default NaN (inputR !! k))).
Proof.
  unfold interleave. cbv zeta.
  destruct (interleave_loop_slots inputL inputR (length inputL + length inputR)
              (length inputL + length inputR - 0) 0 0
              (replicate (length inputL + length inputR) (Finite 0))
              eq_refl eq_refl (length_replicate _ _)) as (Rlen & _ & Rslots).
  split; [exact Rlen|].
  intros k. apply (Rslots k). lia.
Qed.

Lemma every_other_frames (l : Float32Array) :
  forall r : Float32Array,
    length l = length r ->
    Decode.channel0 (Spec.frames l r) = l /\
    Decode.channel1 (Spec.frames l r) = r.
Proof.
  unfold Decode.channel0, Decode.channel1.
  induction l as [|x l IH]; intros [|y r] Hlen; try discriminate.
  - split; reflexivity.
  - simpl in Hlen. destruct (IH r ltac:(lia)) as [H0 H1].
    split.
    + cbn [Spec.frames Decode.every_other]. rewrite H0. reflexivity.
    + cbn [Spec.frames tail Decode.every_other].
      destruct (Spec.frames l r) as [|a rest] eqn:E.
      * destruct l, r; try discriminate; reflexivity.
      * cbn [tail] in H1. rewrite H1. reflexivity.
Qed.

(** X2.  Splitting what [interleave] returns for two channels of one length
    back into its even and odd slots gives the two channels again. *)
Theorem interleave_split_round_trip (inputL inputR : Float32Array) :
  length inputL = length inputR ->
  Decode.channel0 (interleave inputL inputR) = inputL /\
  Decode.channel1 (interleave inputL inputR) = inputR.
Proof.
  intros Hlen. rewrite interleave_frames by exact Hlen.
  apply every_other_frames. exact Hlen.
Qed.


(** *** The byte writers: what is written, what is left alone, when they throw *)

Lemma store_length (view : DataView.t) (off : nat) (bs : list byte)
    (view' : DataView.t) :
  store view off bs = Return view' -> length view' = length view.
Proof.
  unfold store. destruct (off + length bs <=? length view)%nat; [|discriminate].
  intros [= <-]. apply length_inserts.
Qed.

Lemma store_overflow (view : DataView.t) (off : nat) (bs : list byte) :
  (length view < off + length bs)%nat -> store view off bs = Throw RangeError.
Proof.
  intros Hover. unfold store.
  destruct (Nat.leb_spec (off + length bs) (length view)); [lia|reflexivity].
Qed.

Lemma store_cases (view : DataView.t) (off : nat) (bs : list byte) :
  ((off + length bs <= length view)%nat /\
   exists view', store view off bs = Return view' /\ length view' = length view)
  \/ ((length view < off + length bs)%nat /\ store view off bs = Throw RangeError).
Proof.
  destruct (le_lt_dec (off + length bs) (length view)) as [Hfit|Hover].
  - left. split; [exact Hfit|]. unfold store.
    destruct (Nat.leb_spec (off + length bs) (length view)); [|lia].
    eexists. split; [reflexivity|]. apply length_inserts.
  - right. split; [exact Hover|]. apply store_overflow. exact Hover.
Qed.

Lemma split_window (output : list byte) (offset n : nat) :
  (offset + n <= length output)%nat ->
  output = take offset output ++ take n (drop offset output)
           ++ drop (offset + n) output /\
  length (take offset output) = offset /\
  length (take n (drop offset output)) = n.
Proof.
  intros Hfit. repeat apply conj.
  - rewrite <- drop_drop, !take_drop. reflexivity.
  - rewrite length_take. lia.
  - rewrite length_take, length_drop. lia.
Qed.

Lemma floatTo16BitPCM_window (output : DataView.t) (offset : nat)
    (input : Float32Array) :
  (offset + 2 * length input <= length output)%nat ->
  floatTo16BitPCM output offset input
  = Return (take offset output ++ Spec.pcm16_data input
            ++ drop (offset + 2 * length input) output).
Proof.
  intros Hfit.
  destruct (split_window output offset (2 * length input) Hfit)
    as (Hout & Hpre & Hmid).
  rewrite Hout at 1.
  apply floatTo16BitPCM_middle; [symmetry; exact Hpre | exact Hmid].
Qed.

Lemma writeFloat32_window (output : DataView.t) (offset : nat)
    (input : Float32Array) :
  (offset + 4 * length input <= length output)%nat ->
  writeFloat32 output offset input
  = Return (take offset output ++ Spec.float32_data input
            ++ drop (offset + 4 * length input) output).
Proof.
  intros Hfit.
  destruct (split_window output offset (4 * length input) Hfit)
    as (Hout & Hpre & Hmid).
  rewrite Hout at 1.
  apply writeFloat32_middle; [symmetry; exact Hpre | exact Hmid].
Qed.

Lemma window_frame (output data : list byte) (offset n : nat) :
  (offset + n <= length output)%nat ->
  length data = n ->
  let output' := take offset output ++ data ++ drop (offset + n) output in
  length output' = length output /\
  take offset output' = take offset output /\
  drop (offset + n) output' = drop (offset + n) output.
Proof.
  intros Hfit Hdata. cbv zeta.
  assert (Hpre : length (take offset output) = offset)
    by (rewrite length_take; lia).
  repeat apply conj.
  - rewrite !length_app, Hpre, Hdata, length_drop. lia.
  - rewrite take_app_length' by (symmetry; exact Hpre). reflexivity.
  - rewrite app_assoc.
    rewrite drop_app_length' by (rewrite length_app, Hpre, Hdata; reflexivity).
    reflexivity.
Qed.

(** X3.  When the samples fit, [floatTo16BitPCM] returns a view of the
    same length in which only the window of two bytes per sample that
    starts at [offset] can differ: the bytes before [offset] and the bytes
    after the last sample are the ones the view held before. *)
Theorem floatTo16BitPCM_frame (output : DataView.t) (offset : nat)
    (input : Float32Array) :
  (offset + 2 * length input <= length output)%nat ->
  exists output' : DataView.t,
    floatTo16BitPCM output offset input = Return output' /\
    length output' = length output /\
    take offset output' = take offset output /\
    drop (offset + 2 * length input) output'
    = drop (offset + 2 * length input) output.
Proof.
  intros Hfit. eexists. split.
  - apply floatTo16BitPCM_window. exact Hfit.
  - apply (window_frame output (Spec.pcm16_data input) offset
             (2 * length input) Hfit (length_pcm16_data input)).
Qed.

(** X4.  When there is at least one sample and the samples do not all fit
    between [offset] and the end of the view, [floatTo16BitPCM] ends with
    the RangeError of the first [setInt16] that falls outside. *)
Theorem floatTo16BitPCM_overflow_throws (input : Float32Array) :
  forall (output : DataView.t) (offset : nat),
    input <> [] ->
    (length output < offset + 2 * length input)%nat ->
    floatTo16BitPCM output offset input = Throw RangeError.
Proof.
  induction input as [|x input IH]; intros output offset Hne Hover;
    [congruence|].
  cbn [floatTo16BitPCM]. cbv zeta. unfold setInt16, ordered.
  match goal with
  | |- context [store output offset ?bs] =>
      destruct (store_cases output offset bs)
        as [(Hfit & output' & -> & Hlen)|(_ & ->)]
  end; [|reflexivity].
  cbn [mbind Completion_bind JS.bind].
  cbn [length le_bytes] in Hfit, Hover.
  destruct input as [|y input]; [simpl in Hover; lia|].
  apply IH; [discriminate|]. rewrite Hlen. simpl in *. lia.
Qed.

Lemma floatTo16BitPCM_read_back (output : DataView.t) (offset : nat)
    (input : Float32Array) (i : nat) (x : Number) :
  (offset + 2 * length input <= length output)%nat ->
  input !! i = Some x ->
  getInt16 (take offset output ++ Spec.pcm16_data input
            ++ drop (offset + 2 * length input) output) (offset + 2 * i)
  = Some (Spec.pcm16 x).
Proof.
  intros Hfit Hx.
  pose proof (lookup_lt_Some _ _ _ Hx) as Hi.
  rewrite <- (take_drop_middle input i x Hx) at 1.
  unfold Spec.pcm16_data. rewrite flat_map_app. cbn [flat_map].
  rewrite <- !app_assoc. rewrite (app_assoc (take offset output)).
  replace (offset + 2 * i)%nat
    with (length (take offset output
                  ++ flat_map (fun x => le_bytes 2 (Spec.pcm16 x))
                       (take i input))).
  - apply getInt16_le_bytes. apply pcm16_range.
  - rewrite length_app.
    change (flat_map (fun x => le_bytes 2 (Spec.pcm16 x)) (take i input))
      with (Spec.pcm16_data (take i input)).
    rewrite length_pcm16_data, !length_take. lia.
Qed.

Lemma pcm16_monotone (p q : Q) :
  (p <= q)%Q -> (Spec.pcm16 (Finite p) <= Spec.pcm16 (Finite q))%Z.
Proof.
  intros Hpq. cbn [Spec.pcm16]. apply truncate_mono. unfold Spec.clamp.
  destruct (Qltb_reflect p (-1)), (Qltb_reflect 1 p), (Qltb_reflect p 0),
    (Qltb_reflect q (-1)), (Qltb_reflect 1 q), (Qltb_reflect q 0); lra.
Qed.

(** X5.  PCM16 quantisation keeps the order and the sign of finite
    samples: of two samples written by one call, the larger one is never
    stored as the smaller integer, a sample that is not negative is never
    stored as a negative integer, and a sample that is not positive is
    never stored as a positive one. *)
Theorem floatTo16BitPCM_order_and_sign (output : DataView.t) (offset : nat)
    (input : Float32Array) (i j : nat) (p q : Q) :
  (offset + 2 * length input <= length output)%nat ->
  input !! i = Some (Finite p) ->
  input !! j = Some (Finite q) ->
  (p <= q)%Q ->
  exists (output' : DataView.t) (a b : Z),
    floatTo16BitPCM output offset input = Return output' /\
    getInt16 output' (offset + 2 * i) = Some a /\
    getInt16 output' (offset + 2 * j) = Some b /\
    (a <= b)%Z /\
    ((0 <= p)%Q -> (0 <= a)%Z) /\
    ((p <= 0)%Q -> (a <= 0)%Z).
Proof.
  intros Hfit Hi Hj Hpq.
  eexists. exists (Spec.pcm16 (Finite p)), (Spec.pcm16 (Finite q)).
  repeat apply conj.
  - apply floatTo16BitPCM_window. exact Hfit.
  - exact (floatTo16BitPCM_read_back _ _ _ _ _ Hfit Hi).
  - exact (floatTo16BitPCM_read_back _ _ _ _ _ Hfit Hj).
  - apply pcm16_monotone. exact Hpq.
  - intros Hp. exact (pcm16_monotone 0 p Hp).
  - intros Hp. exact (pcm16_monotone p 0 Hp).
Qed.

Lemma truncate_opp (v : Q) : truncate (- v) = (- truncate v)%Z.
Proof.
  unfold truncate.
  destruct (Qle_bool_reflect 0 v) as [Hv|Hv],
           (Qle_bool_reflect 0 (- v)) as [Hn|Hn].
  - assert (Hz : (v == 0)%Q) by lra.
    rewrite (Qfloor_comp (- v) 0), (Qfloor_comp v 0);
      [reflexivity | exact Hz | lra].
  - unfold Qceiling. rewrite (Qfloor_comp (- - v) v) by lra. reflexivity.
  - unfold Qceiling. rewrite Z.opp_involutive. reflexivity.
  - lra.
Qed.

Lemma clamp_opp (q : Q) : (Spec.clamp (- q) == - Spec.clamp q)%Q.
Proof.
  unfold Spec.clamp.
  destruct (Qltb_reflect (- q) (-1)), (Qltb_reflect 1 (- q)),
    (Qltb_reflect q (-1)), (Qltb_reflect 1 q); lra.
Qed.

Lemma mp3_int16_negate (x : Number) :
  Spec.mp3_int16 (Decode.negate x) = (- Spec.mp3_int16 x)%Z.
Proof.
  destruct x as [q| | |]; try reflexivity.
  cbn [Decode.negate Spec.mp3_int16].
  rewrite <- truncate_opp. apply truncate_comp.
  rewrite clamp_opp. lra.
Qed.

(** X6.  The MP3 adapter's conversion is odd: negating every sample of a
    channel negates every 16-bit integer handed to the encoder, NaN and the
    infinities included. *)
Theorem floatToInt16_odd (data : Float32Array) :
  floatToInt16 (map Decode.negate data) 0
    (replicate (length (map Decode.negate data)) 0)
  = map Z.opp (floatToInt16 data 0 (replicate (length data) 0)).
Proof.
  rewrite !floatToInt16_channel, !map_map.
  apply map_ext. exact mp3_int16_negate.
Qed.

Lemma binary32_value_ToUint32 (bits : Z) :
  Decode.binary32_value (ToUint32 bits) = Decode.binary32_value bits.
Proof.
  unfold Decode.binary32_value, ToUint32. cbv zeta.
  rewrite Z.mod_mod by lia. reflexivity.
Qed.

(** X7.  When the samples fit, [writeFloat32] returns a view of the same
    length that differs only in the window of four bytes per sample at
    [offset]; and when the platform's encoder is a binary32 encoder on the
    samples written, reading the four bytes of a sample back as a
    little-endian binary32 gives the sample itself: nothing is clamped or
    scaled. *)
Theorem writeFloat32_stores_bit_patterns (output : DataView.t) (offset : nat)
    (input : Float32Array) :
  (offset + 4 * length input <= length output)%nat ->
  (forall x : Number, In x input -> Decode.binary32_value (float32_bits x) = x) ->
  exists output' : DataView.t,
    writeFloat32 output offset input = Return output' /\
    length output' = length output /\
    take offset output' = take offset output /\
    drop (offset + 4 * length input) output'
    = drop (offset + 4 * length input) output /\
    forall (i : nat) (x : Number),
      input !! i = Some x ->
      Decode.getFloat32 output' (offset + 4 * i) = Some x.
Proof.
  intros Hfit Hcodec. eexists. split; [apply writeFloat32_window; exact Hfit|].
  destruct (window_frame output (Spec.float32_data input) offset
              (4 * length input) Hfit (length_float32_data input))
    as (Hlen & Htake & Hdrop).
  repeat apply conj; [exact Hlen | exact Htake | exact Hdrop |].
  intros i x Hx.
  pose proof (lookup_lt_Some _ _ _ Hx) as Hi.
  assert (Hin : In x input)
    by (apply list_elem_of_In; apply (list_elem_of_lookup_2 _ _ _ Hx)).
  unfold Decode.getFloat32.
  rewrite <- (take_drop_middle input i x Hx) at 1.
  unfold Spec.float32_data. rewrite flat_map_app. cbn [flat_map].
  rewrite <- !app_assoc. rewrite (app_assoc (take offset output)).
  replace (offset + 4 * i)%nat
    with (length (take offset output
                  ++ flat_map (fun x => le_bytes 4 (float32_bits x))
                       (take i input))).
  - rewrite getUint32_le_bytes. cbn [fmap option_fmap option_map].
    f_equal.
    change (float32_bits x mod 4294967296) with (ToUint32 (float32_bits x)).
    rewrite binary32_value_ToUint32. apply Hcodec. exact Hin.
  - rewrite length_app.
    change (flat_map (fun x => le_bytes 4 (float32_bits x)) (take i input))
      with (Spec.float32_data (take i input)).
    rewrite length_float32_data, !length_take. lia.
Qed.

Lemma writeString_middle (str : string) :
  forall (pre old post : list byte),
    length old = String.length str ->
    writeString (pre ++ old ++ post) (length pre) str
    = Return (pre ++ list_byte_of_string str ++ post).
Proof.
  induction str as [|c str IH]; intros pre old post Hold.
  - destruct old; [reflexivity|discriminate].
  - destruct old as [|o old]; [discriminate|].
    cbn [writeString]. unfold setUint8.
    rewrite (store_middle pre [o] (old ++ post)) by reflexivity.
    cbn [mbind Completion_bind JS.bind].
    rewrite byte_of_charCode.
    change (pre ++ [byte_of_ascii c] ++ old ++ post)
      with (pre ++ [byte_of_ascii c] ++ (old ++ post)).
    rewrite (app_assoc pre).
    replace (S (length pre)) with (length (pre ++ [byte_of_ascii c]))
      by (rewrite length_app; simpl; lia).
    rewrite IH by (simpl in Hold; lia).
    rewrite <- app_assoc. reflexivity.
Qed.

(** X8.  When the string fits, [writeString] returns the view with the
    string's character codes, one byte each, in the place of the bytes
    from [offset] on, and every other byte as it was; when the string is
    not empty and does not fit, it ends with a RangeError. *)
Theorem writeString_bytes (view : DataView.t) (offset : nat) (str : string) :
  ((offset + String.length str <= length view)%nat ->
   writeString view offset str
   = Return (take offset view ++ list_byte_of_string str
             ++ drop (offset + String.length str) view)) /\
  (str <> EmptyString ->
   (length view < offset + String.length str)%nat ->
   writeString view offset str = Throw RangeError).
Proof.
  split.
  - intros Hfit.
    destruct (split_window view offset (String.length str) Hfit)
      as (Hview & Hpre & Hmid).
    rewrite Hview at 1.
    pose proof (writeString_middle str (take offset view)
                  (take (String.length str) (drop offset view))
                  (drop (offset + String.length str) view) Hmid) as Hrun.
    rewrite Hpre in Hrun. exact Hrun.
  - revert view offset.
    induction str as [|c str IH]; intros view offset Hne Hover; [congruence|].
    cbn [writeString]. unfold setUint8.
    match goal with
    | |- context [store view offset ?bs] =>
        destruct (store_cases view offset bs)
          as [(Hfit & view' & -> & Hlen)|(_ & ->)]
    end; [|reflexivity].
    cbn [mbind Completion_bind JS.bind].
    cbn [length String.length] in Hfit, Hover.
    destruct str as [|c' str]; [simpl in Hover; lia|].
    apply IH; [discriminate|]. rewrite Hlen. simpl in *. lia.
Qed.

End AudioUtilsMore.

Lemma interleave_split_round_trip_witness :
  Decode.channel0 (interleave [Finite 1; Finite 2] [Finite 3; Finite 4])
  = [Finite 1; Finite 2] /\
  Decode.channel1 (interleave [Finite 1; Finite 2] [Finite 3; Finite 4])
  = [Finite 3; Finite 4].
Proof.
  apply (interleave_split_round_trip [Finite 1; Finite 2] [Finite 3; Finite 4]).
  reflexivity.
Defined.

Lemma floatTo16BitPCM_frame_witness :
  exists output' : DataView.t,
    floatTo16BitPCM [x01; x02; x03; x04; x05; x06] 2 [Finite 1] = Return output' /\
    length output' = length [x01; x02; x03; x04; x05; x06] /\
    take 2 output' = take 2 [x01; x02; x03; x04; x05; x06] /\
    drop (2 + 2 * length [Finite 1]) output'
    = drop (2 + 2 * length [Finite 1]) [x01; x02; x03; x04; x05; x06].
Proof.
  apply (floatTo16BitPCM_frame [x01; x02; x03; x04; x05; x06] 2 [Finite 1]).
  simpl. lia.
Defined.

Lemma floatTo16BitPCM_overflow_throws_witness :
  floatTo16BitPCM (alloc 5) 2 [Finite 1; Finite 0] = Throw RangeError.
Proof.
  apply (floatTo16BitPCM_overflow_throws [Finite 1; Finite 0] (alloc 5) 2).
  - discriminate.
  - simpl. lia.
Defined.

Lemma floatTo16BitPCM_order_and_sign_witness :
  exists (output' : DataView.t) (a b : Z),
    floatTo16BitPCM (alloc 6) 0 [Finite 0; Finite (- (1 # 2)); Finite (1 # 2)]
    = Return output' /\
    getInt16 output' (0 + 2 * 1) = Some a /\
    getInt16 output' (0 + 2 * 2) = Some b /\
    (a <= b)%Z /\
    ((0 <= - (1 # 2))%Q -> (0 <= a)%Z) /\
    ((- (1 # 2) <= 0)%Q -> (a <= 0)%Z).
Proof.
  apply (floatTo16BitPCM_order_and_sign (alloc 6)
           0 [Finite 0; Finite (- (1 # 2)); Finite (1 # 2)] 1 2
           (- (1 # 2)) (1 # 2)).
  - simpl. lia.
  - reflexivity.
  - reflexivity.
  - vm_compute. discriminate.
Defined.

Lemma writeFloat32_stores_bit_patterns_witness :
  exists output' : DataView.t,
    @writeFloat32 CodecExamples.two_values (alloc 10) 1
      [Finite 2; Finite ((-3) # 2)]
    = Return output' /\
    length output' = length (alloc 10) /\
    take 1 output' = take 1 (alloc 10) /\
    drop (1 + 4 * length [Finite 2; Finite ((-3) # 2)]) output'
    = drop (1 + 4 * length [Finite 2; Finite ((-3) # 2)]) (alloc 10) /\
    forall (i : nat) (x : Number),
      [Finite 2; Finite ((-3) # 2)] !! i = Some x ->
      Decode.getFloat32 output' (1 + 4 * i) = Some x.
Proof.
  apply (@writeFloat32_stores_bit_patterns CodecExamples.two_values (alloc 10) 1
           [Finite 2; Finite ((-3) # 2)]).
  - simpl. lia.
  - intros x [<-|[<-|[]]]; vm_compute; reflexivity.
Defined.

Lemma writeString_bytes_witness :
  writeString (alloc 6) 1 "data"
  = Return [x00; "d"%byte; "a"%byte; "t"%byte; "a"%byte; x00] /\
  writeString (alloc 4) 1 "data" = Throw RangeError.
Proof.
  split.
  - apply (proj1 (writeString_bytes (alloc 6) 1 "data")). simpl. lia.
  - apply (proj2 (writeString_bytes (alloc 4) 1 "data")).
    + discriminate.
    + simpl. lia.
Defined.

(* ===================================================================== *)
(** ** More on the renderer and the export path                           *)
(* ===================================================================== *)

Section RendererMore.

Context `{RenderEngine} `{Float32Codec}.

Local Open Scope R_scope.

Lemma fraction_bounds (x y : R) : 0 <= x <= y -> 0 < y -> 0 <= x / y <= 1.
Proof.
  intros [Hx Hxy] Hy.
  pose proof (Rinv_0_lt_compat y Hy) as Hinv.
  assert (Hone : y * / y = 1) by (apply Rinv_r; lra).
  unfold Rdiv. split; nra.
Qed.

Lemma envelope_bounds (volume fadeIn fadeOut D t : R) :
  0 < D -> 0 <= volume -> 0 <= fadeIn -> 0 <= fadeOut -> 0 <= t <= D ->
  0 <= Spec.envelope volume fadeIn fadeOut D t <= volume.
Proof.
  intros HD Hv Hin Hout Ht. unfold Spec.envelope. cbv zeta.
  set (a := Rmin fadeIn (D / 2)). set (c := Rmin fadeOut (D / 2)).
  assert (Ha : 0 <= a) by (unfold a; apply Rmin_glb; lra).
  assert (Hc : 0 <= c <= D / 2)
    by (unfold c; split; [apply Rmin_glb; lra | apply Rmin_r]).
  destruct (Rlt_dec t a) as [Hta|Hta].
  - pose proof (fraction_bounds t a ltac:(lra) ltac:(lra)) as Hf. nra.
  - destruct (Rle_dec t (D - c)) as [Htc|Htc]; [lra|].
    pose proof (fraction_bounds (D - t) c ltac:(lra) ltac:(lra)) as Hf. nra.
Qed.

(** X9.  For an output of positive duration, a volume that is not
    negative and fade lengths that are not negative, the automation that
    [processAudioRegion] schedules never throws, the fade-in ends no later
    than the fade-out begins, and over the whole output the gain stays
    between 0 and the chosen volume. *)
Theorem scheduleGain_within_volume (volume fadeIn fadeOut D : R) :
  0 < D -> 0 <= volume -> 0 <= fadeIn -> 0 <= fadeOut ->
  exists gain : list AutomationEvent,
    scheduleGain volume fadeIn fadeOut D = Return gain /\
    Rmin fadeIn (D / 2) <= D - Rmin fadeOut (D / 2) /\
    forall t : R, 0 <= t <= D -> 0 <= gainAtTime gain t <= volume.
Proof.
  intros HD Hv Hin Hout.
  exists (fade_events volume fadeIn fadeOut D). repeat apply conj.
  - apply scheduleGain_events. exact HD.
  - pose proof (Rmin_r fadeIn (D / 2)). pose proof (Rmin_r fadeOut (D / 2)). lra.
  - intros t Ht. rewrite fade_events_envelope by assumption.
    apply envelope_bounds; assumption.
Qed.

(** X10.  A region that is not empty but renders to less than one frame
    makes the offline context's constructor throw a NotSupportedError:
    [processAudioRegion] rejects, and [handleDownload] shows the failure
    alert without calling an encoder or saving a file. *)
Theorem sub_frame_region_fails (window_lamejs : option LameJs) (ed : Editor) :
  region_start (regionRef ed) < region_end (regionRef ed) ->
  0 < speed ed ->
  0 <= requestedLength ed < 1 ->
  processAudioRegion ed = Throw NotSupportedError /\
  handleDownload window_lamejs ed = [ExportFailedAlert].
Proof.
  intros Hregion Hspeed Hlen.
  assert (Hthrow : processAudioRegion ed = Throw NotSupportedError).
  { unfold processAudioRegion. cbv zeta.
    destruct (Rle_dec (region_end (regionRef ed) - region_start (regionRef ed)) 0)
      as [Hempty|_]; [lra|].
    change ((region_end (regionRef ed) - region_start (regionRef ed))
            / (speed ed * Rpower 2 (pitch ed / 12)))
      with (outputDuration ed).
    change (outputDuration ed * IZR (sampleRate (audioBuffer ed)))
      with (requestedLength ed).
    unfold newOfflineAudioContext. cbv zeta.
    destruct (decide (numberOfChannels (audioBuffer ed) = 0%nat));
      [reflexivity|].
    unfold to_unsigned_long, truncR.
    destruct (Rle_dec 0 (requestedLength ed)) as [_|Hneg]; [|lra].
    rewrite (Int_part_small _ Hlen).
    reflexivity. }
  split; [exact Hthrow|].
  unfold handleDownload. rewrite Hthrow. reflexivity.
Qed.

Lemma INR_to_nat (n : Z) : (0 <= n)%Z -> INR (Z.to_nat n) = IZR n.
Proof. intros Hn. rewrite INR_IZR_INZ, Z2Nat.id by exact Hn. reflexivity. Qed.

(** X11.  The buffer that [processAudioRegion] renders lasts as long as
    the output duration it computed, to within less than one frame. *)
Theorem processAudioRegion_duration_within_a_frame (ed : Editor) :
  region_start (regionRef ed) < region_end (regionRef ed) ->
  0 <= region_start (regionRef ed) ->
  0 < speed ed ->
  (1 <= numberOfChannels (audioBuffer ed))%nat ->
  (0 < sampleRate (audioBuffer ed))%Z ->
  1 <= requestedLength ed < 4294967296 ->
  exists processedBuffer : AudioBuffer,
    processAudioRegion ed = Return (Some processedBuffer) /\
    Rabs (WebAudio.duration processedBuffer - outputDuration ed)
    < 1 / IZR (sampleRate (audioBuffer ed)).
Proof.
  intros Hregion Hstart Hspeed Hch Hrate Hlen.
  eexists. split; [apply processAudioRegion_renders; assumption|].
  destruct (to_unsigned_long_in_range _ Hlen) as [_ Hrange].
  pose proof (Int_part_bounds (requestedLength ed)) as Hb.
  unfold WebAudio.duration.
  cbn [startRendering bufferLength sampleRate graph_context ctx_length
       ctx_sampleRate].
  rewrite INR_to_nat by lia.
  set (n := IZR (Int_part (requestedLength ed))) in *.
  assert (Hsr : 0 < IZR (sampleRate (audioBuffer ed))) by (apply IZR_lt; lia).
  set (sr := IZR (sampleRate (audioBuffer ed))) in *.
  assert (HD : outputDuration ed = requestedLength ed / sr)
    by (unfold requestedLength; fold sr; field; lra).
  rewrite HD.
  pose proof (Rinv_0_lt_compat sr Hsr) as Hinv.
  unfold Rdiv. apply Rabs_def1; nra.
Qed.

Lemma detuneFactor_octave (ed : Editor) :
  detuneFactor (Controls.setPitch (pitch ed + 12) ed) = 2 * detuneFactor ed.
Proof.
  unfold detuneFactor. cbn [Controls.setPitch pitch].
  replace ((pitch ed + 12) / 12) with (pitch ed / 12 + 1) by lra.
  rewrite Rpower_plus, Rpower_1 by lra. lra.
Qed.

Lemma requestedLength_octave (ed : Editor) :
  0 < speed ed ->
  requestedLength (Controls.setPitch (pitch ed + 12) ed) = requestedLength ed / 2 /\
  requestedLength (Controls.setSpeed (2 * speed ed) ed) = requestedLength ed / 2.
Proof.
  intros Hs.
  pose proof (Rpower_2_pos (pitch ed / 12)) as Hpow.
  split.
  - unfold requestedLength, outputDuration, effectiveRate.
    rewrite detuneFactor_octave. unfold detuneFactor.
    cbn [Controls.setPitch regionRef speed audioBuffer].
    field. lra.
  - unfold requestedLength, outputDuration, effectiveRate, detuneFactor.
    cbn [Controls.setSpeed regionRef speed pitch audioBuffer].
    field. lra.
Qed.

(** X12.  Raising the pitch by twelve semitones and doubling the speed
    shorten the output alike: both renders succeed, their frame counts are
    within one frame of each other, and each is within one frame of half
    the requested length of the unchanged settings. *)
Theorem octave_up_renders_like_double_speed (ed : Editor) :
  region_start (regionRef ed) < region_end (regionRef ed) ->
  0 <= region_start (regionRef ed) ->
  0 < speed ed ->
  (1 <= numberOfChannels (audioBuffer ed))%nat ->
  1 <= requestedLength ed / 2 < 4294967296 ->
  exists up fast : AudioBuffer,
    processAudioRegion (Controls.setPitch (pitch ed + 12) ed) = Return (Some up) /\
    processAudioRegion (Controls.setSpeed (2 * speed ed) ed) = Return (Some fast) /\
    (-1 <= Z.of_nat (bufferLength up) - Z.of_nat (bufferLength fast) <= 1)%Z /\
    (-1 <= Z.of_nat (bufferLength up) - Spec.round (requestedLength ed / 2) <= 1)%Z /\
    (-1 <= Z.of_nat (bufferLength fast) - Spec.round (requestedLength ed / 2) <= 1)%Z.
Proof.
  intros Hregion Hstart Hspeed Hch Hlen.
  destruct (requestedLength_octave ed Hspeed) as [Hup Hfast].
  destruct (to_unsigned_long_in_range _ Hlen) as [_ Hrange].
  pose proof (Int_part_round (requestedLength ed / 2)) as Hround.
  eexists. eexists. split; [|split].
  - apply processAudioRegion_renders; try assumption.
    rewrite Hup. exact Hlen.
  - apply processAudioRegion_renders; try assumption.
    + cbn [Controls.setSpeed speed]. lra.
    + rewrite Hfast. exact Hlen.
  - cbn [startRendering bufferLength graph_context ctx_length].
    rewrite Hup, Hfast. rewrite Z2Nat.id by lia. lia.
Qed.

Lemma detuneFactor_range (ed : Editor) :
  -12 <= pitch ed <= 12 -> / 2 <= detuneFactor ed <= 2.
Proof.
  intros [Hlo Hhi]. unfold detuneFactor.
  assert (Hone : Rpower 2 1 = 2) by (apply Rpower_1; lra).
  assert (Hinv : Rpower 2 (Ropp 1) = / 2) by (rewrite Rpower_Ropp, Hone; reflexivity).
  split.
  - rewrite <- Hinv. apply Rle_Rpower; lra.
  - rewrite <- Hone at 2. apply Rle_Rpower; lra.
Qed.

(** X13.  With the speed slider in [0.5, 2] and the pitch slider in
    [-12, 12], the output lasts between a quarter of the selected span and
    four times the span, and both ends are reached: at half speed and one
    octave down a selection is rendered four times as long as it is. *)
Theorem outputDuration_range (ed : Editor) :
  region_start (regionRef ed) < region_end (regionRef ed) ->
  / 2 <= speed ed <= 2 ->
  -12 <= pitch ed <= 12 ->
  let span := region_end (regionRef ed) - region_start (regionRef ed) in
  span / 4 <= outputDuration ed <= 4 * span /\
  (speed ed = / 2 -> pitch ed = -12 -> outputDuration ed = 4 * span) /\
  (speed ed = 2 -> pitch ed = 12 -> outputDuration ed = span / 4).
Proof.
  intros Hregion Hspeed Hpitch. cbv zeta.
  pose proof (detuneFactor_range ed Hpitch) as Hd.
  unfold outputDuration, effectiveRate.
  set (span := region_end (regionRef ed) - region_start (regionRef ed)) in *.
  assert (Hspan : 0 < span) by (unfold span; lra).
  repeat apply conj.
  - assert (Hrate : 0 < speed ed * detuneFactor ed <= 4) by nra.
    assert (Hinv : / 4 <= / (speed ed * detuneFactor ed))
      by (apply Rinv_le_contravar; lra).
    unfold Rdiv. nra.
  - assert (Hrate : / 4 <= speed ed * detuneFactor ed) by nra.
    assert (Hinv : / (speed ed * detuneFactor ed) <= / / 4)
      by (apply Rinv_le_contravar; lra).
    rewrite Rinv_inv in Hinv.
    unfold Rdiv. nra.
  - intros Hs Hp. unfold detuneFactor. rewrite Hs, Hp.
    replace (-12 / 12) with (Ropp 1) by lra.
    rewrite Rpower_Ropp, Rpower_1 by lra. field.
  - intros Hs Hp. unfold detuneFactor. rewrite Hs, Hp.
    replace (12 / 12) with 1 by lra.
    rewrite Rpower_1 by lra. field.
Qed.

Lemma rendered_buffer_wf (g : RenderGraph) :
  (1 <= ctx_numberOfChannels (graph_context g))%nat ->
  AudioBuffer_wf (startRendering g).
Proof.
  intros Hch.
  destruct (startRendering_shape g) as (Hn & _ & _ & Hall).
  split; [rewrite Hn; exact Hch | exact Hall].
Qed.

(** X14.  When a region inside the clip renders, and lamejs is loaded if
    MP3 was chosen,
    [handleDownload] calls the encoder of the chosen format on the rendered
    buffer, saves one file with that format's extension and media type,
    and reports one successful download; nothing fails.  The WAV file is
    the PCM16 encoding of the rendered buffer. *)
Theorem export_of_rendered_region_succeeds (window_lamejs : option LameJs)
    (ed : Editor) :
  region_start (regionRef ed) < region_end (regionRef ed) ->
  0 <= region_start (regionRef ed) ->
  0 < speed ed ->
  (1 <= numberOfChannels (audioBuffer ed))%nat ->
  1 <= requestedLength ed < 4294967296 ->
  (exportFormat ed = mp3 -> window_lamejs <> None) ->
  exists (processedBuffer : AudioBuffer) (blob : Blob),
    processAudioRegion ed = Return (Some processedBuffer) /\
    handleDownload window_lamejs ed
    = match exportFormat ed with
      | wav => [CallAudioBufferToWav processedBuffer;
                SaveFile blob "wav"; DownloadSuccess]
      | mp3 => [CallAudioBufferToMp3 processedBuffer;
                SaveFile blob "mp3"; DownloadSuccess]
      end /\
    blob_type blob
    = match exportFormat ed with
      | wav => "audio/wav"%string
      | mp3 => "audio/mp3"%string
      end /\
    (exportFormat ed = wav ->
     blob_bytes blob = Spec.wav_file false processedBuffer).
Proof.
  intros Hregion Hstart Hspeed Hch Hlen Hlame.
  pose proof (processAudioRegion_renders ed Hregion Hstart Hspeed Hch Hlen)
    as Hrender.
  match type of Hrender with
  | _ = Return (Some (startRendering ?g)) => set (graph := g) in *
  end.
  assert (Hwf : AudioBuffer_wf (startRendering graph))
    by (apply rendered_buffer_wf; exact Hch).
  exists (startRendering graph).
  unfold handleDownload. rewrite Hrender.
  destruct (exportFormat ed) eqn:Hfmt.
  - exists (newBlob [Spec.wav_file false (startRendering graph)] "audio/wav").
    repeat apply conj; try reflexivity.
    + rewrite (audioBufferToWav_wav_file _ None Hwf). reflexivity.
    + intros _. cbn [newBlob blob_bytes concat]. apply app_nil_r.
  - destruct window_lamejs as [lamejs|]; [|exfalso; apply Hlame; reflexivity].
    destruct (channelData (startRendering graph) !! 0%nat) as [left|] eqn:Hleft.
    2:{ apply lookup_ge_None in Hleft. destruct Hwf as [Hone _].
        unfold numberOfChannels in Hone. lia. }
    pose proof (audioBufferToMp3_loaded lamejs _ left Hwf Hleft) as Hmp3.
    cbv zeta in Hmp3.
    eexists. repeat apply conj; try reflexivity.
    + rewrite Hmp3. reflexivity.
    + reflexivity.
    + intros Habs. discriminate Habs.
Qed.

(** X15.  After the reset button the render is a plain cut: for a region
    that is not empty and does not start before the clip it succeeds with
    the source's sample rate, and its number of frames is within one frame
    of the selected span times the sample rate, whatever the sliders showed
    before. *)
Theorem resetEffects_renders_the_span (ed : Editor) :
  region_start (regionRef ed) < region_end (regionRef ed) ->
  0 <= region_start (regionRef ed) ->
  (1 <= numberOfChannels (audioBuffer ed))%nat ->
  1 <= (region_end (regionRef ed) - region_start (regionRef ed))
       * IZR (sampleRate (audioBuffer ed)) < 4294967296 ->
  exists processedBuffer : AudioBuffer,
    processAudioRegion (Controls.resetEffects ed) = Return (Some processedBuffer) /\
    sampleRate processedBuffer = sampleRate (audioBuffer ed) /\
    (-1 <= Z.of_nat (bufferLength processedBuffer)
           - Spec.round ((region_end (regionRef ed) - region_start (regionRef ed))
                         * IZR (sampleRate (audioBuffer ed))) <= 1)%Z.
Proof.
  intros Hregion Hstart Hch Hlen.
  assert (Hreq : requestedLength (Controls.resetEffects ed)
                 = (region_end (regionRef ed) - region_start (regionRef ed))
                   * IZR (sampleRate (audioBuffer ed))).
  { unfold requestedLength, outputDuration, effectiveRate, detuneFactor.
    cbn [Controls.resetEffects Controls.setVolume Controls.setFadeOutDuration
         Controls.setFadeInDuration Controls.setPitch Controls.setSpeed
         regionRef speed pitch audioBuffer].
    replace (0 / 12) with 0 by lra.
    rewrite Rpower_O by lra. field. }
  destruct (to_unsigned_long_in_range _ Hlen) as [_ Hrange].
  pose proof (Int_part_round
                ((region_end (regionRef ed) - region_start (regionRef ed))
                 * IZR (sampleRate (audioBuffer ed)))) as Hround.
  eexists. split; [|split].
  - apply processAudioRegion_renders.
    + exact Hregion.
    + exact Hstart.
    + cbn. lra.
    + exact Hch.
    + rewrite Hreq. exact Hlen.
  - reflexivity.
  - cbn [startRendering bufferLength graph_context ctx_length].
    rewrite Hreq. rewrite Z2Nat.id by lia. lia.
Qed.

End RendererMore.

Section RendererRuns.

Local Open Scope R_scope.

Lemma scheduleGain_within_volume_witness :
  exists gain : list AutomationEvent,
    scheduleGain 2 1 (1 / 2) 3 = Return gain /\
    Rmin 1 (3 / 2) <= 3 - Rmin (1 / 2) (3 / 2) /\
    forall t : R, 0 <= t <= 3 -> 0 <= gainAtTime gain t <= 2.
Proof.
  apply (scheduleGain_within_volume 2 1 (1 / 2) 3); lra.
Defined.

Lemma sub_frame_region_fails_witness :
  @processAudioRegion Examples.silent_engine MoreExamples.half_frame
  = Throw NotSupportedError /\
  @handleDownload Examples.silent_engine Examples.zero_codec
    (Some Examples.toy_lame) MoreExamples.half_frame
  = [ExportFailedAlert].
Proof.
  apply (@sub_frame_region_fails Examples.silent_engine Examples.zero_codec).
  - simpl. lra.
  - simpl. lra.
  - rewrite requestedLength_half_frame. lra.
Defined.

Lemma processAudioRegion_duration_within_a_frame_witness :
  exists processedBuffer : AudioBuffer,
    @processAudioRegion Examples.silent_engine Examples.octave_up
    = Return (Some processedBuffer) /\
    Rabs (WebAudio.duration processedBuffer - outputDuration Examples.octave_up)
    < 1 / IZR (sampleRate (audioBuffer Examples.octave_up)).
Proof.
  apply (@processAudioRegion_duration_within_a_frame Examples.silent_engine
           Examples.octave_up).
  - simpl. lra.
  - simpl. lra.
  - simpl. lra.
  - exact (le_n 1).
  - reflexivity.
  - rewrite requestedLength_octave_up. lra.
Defined.

Lemma requestedLength_preview_editor :
  requestedLength Examples.preview_editor = 132300.
Proof.
  unfold requestedLength. rewrite outputDuration_preview_editor.
  cbn [Examples.preview_editor audioBuffer sampleRate Spec.silence_1s_mono_44100].
  lra.
Qed.

Lemma octave_up_renders_like_double_speed_witness :
  exists up fast : AudioBuffer,
    @processAudioRegion Examples.silent_engine
      (Controls.setPitch (pitch Examples.preview_editor + 12) Examples.preview_editor)
    = Return (Some up) /\
    @processAudioRegion Examples.silent_engine
      (Controls.setSpeed (2 * speed Examples.preview_editor) Examples.preview_editor)
    = Return (Some fast) /\
    (-1 <= Z.of_nat (bufferLength up) - Z.of_nat (bufferLength fast) <= 1)%Z /\
    (-1 <= Z.of_nat (bufferLength up)
           - Spec.round (requestedLength Examples.preview_editor / 2) <= 1)%Z /\
    (-1 <= Z.of_nat (bufferLength fast)
           - Spec.round (requestedLength Examples.preview_editor / 2) <= 1)%Z.
Proof.
  apply (@octave_up_renders_like_double_speed Examples.silent_engine
           Examples.preview_editor).
  - simpl. lra.
  - simpl. lra.
  - simpl. lra.
  - exact (le_n 1).
  - rewrite requestedLength_preview_editor. lra.
Defined.

Lemma outputDuration_range_witness :
  (10 - 0) / 4 <= outputDuration Examples.octave_up <= 4 * (10 - 0).
Proof.
  apply (outputDuration_range Examples.octave_up); simpl; lra.
Defined.

Lemma export_of_rendered_region_succeeds_witness :
  exists (processedBuffer : AudioBuffer) (blob : Blob),
    @processAudioRegion Examples.silent_engine Examples.octave_up
    = Return (Some processedBuffer) /\
    @handleDownload Examples.silent_engine Examples.zero_codec
      (Some Examples.toy_lame) Examples.octave_up
    = [CallAudioBufferToMp3 processedBuffer; SaveFile blob "mp3"; DownloadSuccess] /\
    blob_type blob = "audio/mp3"%string.
Proof.
  destruct (@export_of_rendered_region_succeeds Examples.silent_engine
              Examples.zero_codec (Some Examples.toy_lame) Examples.octave_up)
    as (processedBuffer & blob & Hrender & Heffects & Htype & _).
  - simpl. lra.
  - simpl. lra.
  - simpl. lra.
  - exact (le_n 1).
  - rewrite requestedLength_octave_up. lra.
  - intros _. discriminate.
  - exists processedBuffer, blob. repeat apply conj; assumption.
Defined.

Lemma resetEffects_renders_the_span_witness :
  exists processedBuffer : AudioBuffer,
    @processAudioRegion Examples.silent_engine
      (Controls.resetEffects Examples.octave_up)
    = Return (Some processedBuffer) /\
    sampleRate processedBuffer = 44100%Z /\
    (-1 <= Z.of_nat (bufferLength processedBuffer)
           - Spec.round ((10 - 0) * 44100) <= 1)%Z.
Proof.
  apply (@resetEffects_renders_the_span Examples.silent_engine Examples.octave_up).
  - simpl. lra.
  - simpl. lra.
  - exact (le_n 1).
  - simpl. lra.
Defined.

End RendererRuns.

(* ===================================================================== *)
(** ** The selection and its drag handlers                                *)
(* ===================================================================== *)

Section RegionSelection.

Import RegionUI.

Local Open Scope R_scope.

Ltac min_max :=
  unfold Rmin, Rmax;
  repeat match goal with
         | |- context [Rle_dec ?a ?b] => destruct (Rle_dec a b)
         end;
  try lra.

Lemma updateRegionDOM_keeps (ws : option WaveSurfer) (elements : bool)
    (c : Component) :
  regionRef (updateRegionDOM ws elements c) = regionRef c /\
  dragRef (updateRegionDOM ws elements c) = dragRef c /\
  currentDuration (updateRegionDOM ws elements c) = currentDuration c.
Proof.
  unfold updateRegionDOM.
  destruct ws as [ws|]; [|repeat split].
  destruct (negb elements); [repeat split|].
  cbv zeta. destruct (Rle_dec (getDuration ws) 0); repeat split.
Qed.

Lemma ready_selection (ws : WaveSurfer) (elements : bool) (c : Component) :
  regionRef (ready ws elements c)
  = {| region_start := 0; region_end := Rmin (getDuration ws) 30 |} /\
  dragRef (ready ws elements c) = dragRef c.
Proof.
  unfold ready. cbv zeta.
  destruct (updateRegionDOM_keeps (Some ws) elements
              {| regionRef := {| region_start := 0;
                                 region_end := Rmin (getDuration ws) 30 |};
                 dragRef := dragRef c;
                 currentDuration := Rmin (getDuration ws) 30;
                 totalDuration := getDuration ws;
                 isReady := true;
                 boxStyle := boxStyle c;
                 preview := preview c |}) as (Hr & Hd & _).
  split; assumption.
Qed.

Lemma handleMove_dragging (w : WaveSurfer) (elements : bool) (clientX : R)
    (c : Component) (t : DragTarget) :
  target (dragRef c) = Some t ->
  regionRef (handleMove (Some w) elements clientX c)
  = match t with
    | target_start =>
        {| region_start :=
             Rmin (Rmax 0 (region_start (startTimeState (dragRef c))
                           + (clientX - startX (dragRef c)
                              + (scrollLeft (getWrapper w)
                                 - startScrollLeft (dragRef c)))
                             / (scrollWidth (getWrapper w) / getDuration w)))
                  (region_end (startTimeState (dragRef c)) - 1 / 10);
           region_end := region_end (regionRef c) |}
    | target_end =>
        {| region_start := region_start (regionRef c);
           region_end :=
             Rmax (Rmin (getDuration w)
                        (region_end (startTimeState (dragRef c))
                         + (clientX - startX (dragRef c)
                            + (scrollLeft (getWrapper w)
                               - startScrollLeft (dragRef c)))
                           / (scrollWidth (getWrapper w) / getDuration w)))
                  (region_start (startTimeState (dragRef c)) + 1 / 10) |}
    | target_box =>
        {| region_start :=
             Rmax 0 (Rmin (getDuration w
                           - (region_end (startTimeState (dragRef c))
                              - region_start (startTimeState (dragRef c))))
                          (region_start (startTimeState (dragRef c))
                           + (clientX - startX (dragRef c)
                              + (scrollLeft (getWrapper w)
                                 - startScrollLeft (dragRef c)))
                             / (scrollWidth (getWrapper w) / getDuration w)));
           region_end :=
             Rmax 0 (Rmin (getDuration w
                           - (region_end (startTimeState (dragRef c))
                              - region_start (startTimeState (dragRef c))))
                          (region_start (startTimeState (dragRef c))
                           + (clientX - startX (dragRef c)
                              + (scrollLeft (getWrapper w)
                                 - startScrollLeft (dragRef c)))
                             / (scrollWidth (getWrapper w) / getDuration w)))
             + (region_end (startTimeState (dragRef c))
                - region_start (startTimeState (dragRef c))) |}
    end.
Proof.
  intros Ht. unfold handleMove. rewrite Ht. cbv zeta.
  match goal with
  | |- context [updateRegionDOM ?a ?b ?x] =>
      destruct (updateRegionDOM_keeps a b x) as (Hr & _)
  end.
  rewrite Hr. cbn [regionRef]. destruct t; reflexivity.
Qed.

Lemma handleMove_selection (ws : option WaveSurfer) (elements : bool)
    (clientX : R) (c : Component) :
  dragRef (handleMove ws elements clientX c) = dragRef c /\
  (regionRef (handleMove ws elements clientX c) = regionRef c \/
   exists (t : DragTarget) (w : WaveSurfer) (timeDelta : R),
     target (dragRef c) = Some t /\ ws = Some w /\
     timeDelta
     = (clientX - startX (dragRef c)
        + (scrollLeft (getWrapper w) - startScrollLeft (dragRef c)))
       / (scrollWidth (getWrapper w) / getDuration w) /\
     let sts := startTimeState (dragRef c) in
     regionRef (handleMove ws elements clientX c)
     = match t with
       | target_start =>
           {| region_start :=
                Rmin (Rmax 0 (region_start sts + timeDelta))
                     (region_end sts - 1 / 10);
              region_end := region_end (regionRef c) |}
       | target_end =>
           {| region_start := region_start (regionRef c);
              region_end :=
                Rmax (Rmin (getDuration w) (region_end sts + timeDelta))
                     (region_start sts + 1 / 10) |}
       | target_box =>
           {| region_start :=
                Rmax 0 (Rmin (getDuration w - (region_end sts - region_start sts))
                             (region_start sts + timeDelta));
              region_end :=
                Rmax 0 (Rmin (getDuration w - (region_end sts - region_start sts))
                             (region_start sts + timeDelta))
                + (region_end sts - region_start sts) |}
       end).
Proof.
  unfold handleMove.
  destruct (target (dragRef c)) as [t|] eqn:Ht; [|split; [reflexivity|left; reflexivity]].
  destruct ws as [w|]; [|split; [reflexivity|left; reflexivity]].
  cbv zeta.
  match goal with
  | |- context [updateRegionDOM ?a ?b ?x] =>
      destruct (updateRegionDOM_keeps a b x) as (Hr & Hd & _)
  end.
  split; [rewrite Hd; reflexivity|].
  right. exists t, w. eexists. repeat apply conj; try reflexivity.
  rewrite Hr. cbn [regionRef]. destruct t; reflexivity.
Qed.




Lemma moves_keep (D : DragState) (P : Region -> Prop)
    (moves : list (option WaveSurfer * bool * R)) :
  (forall (c : Component) (ws : option WaveSurfer) (elements : bool) (x : R),
     dragRef c = D -> P (regionRef c) ->
     P (regionRef (handleMove ws elements x c))) ->
  forall c : Component,
    dragRef c = D -> P (regionRef c) ->
    P (regionRef (run c (moves_of moves))).
Proof.
  intros Hstep. induction moves as [|[[ws elements] x] moves IH];
    intros c Hd Hp; [exact Hp|].
  cbn [moves_of map run fold_left step fst snd].
  apply IH.
  - destruct (handleMove_selection ws elements x c) as [Hd' _].
    rewrite Hd'. exact Hd.
  - apply Hstep; assumption.
Qed.

(** X17.  From a press on one of the two handles to the release, the
    moves change that handle's edge only: a drag of the start handle leaves
    the end of the selection where it was, and a drag of the end handle
    leaves the start where it was. *)
Theorem handle_drag_keeps_the_other_edge (c : Component) (ws0 : option WaveSurfer)
    (inHandleStart inHandleEnd inBox : bool) (x0 : R)
    (moves : list (option WaveSurfer * bool * R)) :
  inHandleStart || inHandleEnd = true ->
  let pressed := handleDown ws0 true inHandleStart inHandleEnd inBox x0 c in
  let dragged := run pressed (moves_of moves) in
  if inHandleStart
  then region_end (regionRef dragged) = region_end (regionRef c)
  else region_start (regionRef dragged) = region_start (regionRef c).
Proof.
  intros Hhit. cbv zeta.
  unfold handleDown. cbn [negb].
  destruct inHandleStart; [|destruct inHandleEnd; [|discriminate Hhit]];
    match goal with
    | |- context [run ?pressed _] =>
        apply (moves_keep (dragRef pressed)
                 (fun r => _ r = _ (regionRef c)) moves)
    end; try reflexivity;
    intros c' ws elements x Hd Hp;
    destruct (handleMove_selection ws elements x c')
      as [_ [Hr|(t & w & timeDelta & Ht & _ & _ & Hr)]];
    try (rewrite Hr; exact Hp);
    cbv zeta in Hr; rewrite Hr; rewrite Hd in Ht;
    cbn [target dragRef startTimeState] in Ht;
    injection Ht as <-; cbn [region_start region_end]; exact Hp.
Qed.

(** X18.  On a clip shorter than a tenth of a second the clamps work
    against each other: any move of the start handle puts the start of the
    selection at [duration - 0.1], before the beginning of the clip, and
    any move of the end handle puts the end at 0.1, after the end of the
    clip, wherever the pointer is. *)
Theorem short_clip_drag_leaves_the_clip (ws w : WaveSurfer)
    (inHandleEnd inBox : bool) (x0 x1 : R) :
  0 < getDuration ws < 1 / 10 ->
  getDuration w = getDuration ws ->
  0 < scrollWidth (getWrapper w) ->
  let loaded := ready ws true mounted in
  let startMoved :=
    handleMove (Some w) true x1
      (handleDown (Some ws) true true inHandleEnd inBox x0 loaded) in
  let endMoved :=
    handleMove (Some w) true x1
      (handleDown (Some ws) true false true inBox x0 loaded) in
  region_start (regionRef startMoved) = getDuration ws - 1 / 10 /\
  region_start (regionRef startMoved) < 0 /\
  region_end (regionRef endMoved) = 1 / 10 /\
  getDuration ws < region_end (regionRef endMoved).
Proof.
  intros Hshort Hsame Hwidth. cbv zeta.
  destruct (ready_selection ws true mounted) as [Hr Hd].
  rewrite (Rmin_left (getDuration ws) 30) in Hr by lra.
  assert (Hstart :
    region_start (regionRef (handleMove (Some w) true x1
      (handleDown (Some ws) true true inHandleEnd inBox x0 (ready ws true mounted))))
    = getDuration ws - 1 / 10).
  { rewrite (handleMove_dragging w true x1 _ target_start) by reflexivity.
    unfold handleDown.
    cbn [negb dragRef startTimeState startX startScrollLeft region_start].
    rewrite Hr. cbn [region_start region_end]. min_max. }
  assert (Hend :
    region_end (regionRef (handleMove (Some w) true x1
      (handleDown (Some ws) true false true inBox x0 (ready ws true mounted))))
    = 1 / 10).
  { rewrite (handleMove_dragging w true x1 _ target_end) by reflexivity.
    unfold handleDown.
    cbn [negb dragRef startTimeState startX startScrollLeft region_end].
    rewrite Hr. cbn [region_start region_end]. rewrite Hsame. min_max. }
  rewrite Hstart, Hend. repeat apply conj; lra.
Qed.

(** X19.  For a selection inside the clip, [updateRegionDOM] gives the
    layer the width of the waveform and puts the box inside the layer: its
    left edge is not negative and its right edge is not past the layer's
    width. *)
Theorem region_box_stays_inside_the_layer (w : WaveSurfer) (c : Component) :
  0 < getDuration w ->
  0 <= scrollWidth (getWrapper w) ->
  selection_ok (getDuration w) (regionRef c) ->
  exists s : BoxStyle,
    boxStyle (updateRegionDOM (Some w) true c) = Some s /\
    layer_width s = scrollWidth (getWrapper w) /\
    0 <= box_left s /\
    0 <= box_width s /\
    box_left s + box_width s <= layer_width s.
Proof.
  intros Hd Hw (H0 & Hmin & Hmax).
  unfold updateRegionDOM. cbn [negb]. cbv zeta.
  destruct (Rle_dec (getDuration w) 0) as [Habs|_]; [lra|].
  eexists. split; [reflexivity|].
  cbn [layer_width box_left box_width].
  pose proof (fraction_bounds (region_start (regionRef c)) (getDuration w)
                ltac:(lra) Hd) as Hs.
  pose proof (fraction_bounds (region_end (regionRef c)) (getDuration w)
                ltac:(lra) Hd) as He.
  set (W := scrollWidth (getWrapper w)) in *.
  set (d := getDuration w) in *.
  set (a := region_start (regionRef c)) in *.
  set (b := region_end (regionRef c)) in *.
  assert (Ha : a * (W / d) = W * (a / d)) by (field; lra).
  assert (Hb : (b - a) * (W / d) = W * (b / d) - W * (a / d)) by (field; lra).
  rewrite Ha, Hb.
  assert (Hle : a / d <= b / d).
  { unfold Rdiv. apply Rmult_le_compat_r; [|lra].
    left. apply Rinv_0_lt_compat. exact Hd. }
  repeat apply conj; try reflexivity; nra.
Qed.

(** X20.  While the box is dragged and stays inside the layer, it follows
    the pointer: its left edge moves by the distance the pointer has moved
    on the screen plus the distance the waveform has scrolled since the
    press, and its width does not change. *)
Theorem box_follows_the_pointer (w0 w : WaveSurfer) (c : Component) (x0 x1 : R) :
  0 < getDuration w ->
  0 < scrollWidth (getWrapper w) ->
  let pxPerSec := scrollWidth (getWrapper w) / getDuration w in
  let totalPxDelta :=
    (x1 - x0) + (scrollLeft (getWrapper w) - scrollLeft (getWrapper w0)) in
  0 <= region_start (regionRef c) * pxPerSec + totalPxDelta ->
  region_end (regionRef c) * pxPerSec + totalPxDelta <= scrollWidth (getWrapper w) ->
  boxStyle (handleMove (Some w) true x1
              (handleDown (Some w0) true false false true x0 c))
  = Some {| layer_width := scrollWidth (getWrapper w);
            box_left := region_start (regionRef c) * pxPerSec + totalPxDelta;
            box_width :=
              (region_end (regionRef c) - region_start (regionRef c)) * pxPerSec |}.
Proof.
  intros Hd Hw. cbv zeta. intros Hleft Hright.
  unfold handleMove, handleDown.
  cbn [negb dragRef target startTimeState startX startScrollLeft]. cbv zeta.
  unfold updateRegionDOM. cbn [negb regionRef region_start region_end]. cbv zeta.
  destruct (Rle_dec (getDuration w) 0) as [Habs|_]; [lra|].
  cbn [boxStyle].
  set (W := scrollWidth (getWrapper w)) in *.
  set (d := getDuration w) in *.
  set (a := region_start (regionRef c)) in *.
  set (b := region_end (regionRef c)) in *.
  set (delta := x1 - x0 + (scrollLeft (getWrapper w) - scrollLeft (getWrapper w0))) in *.
  assert (Hpps : 0 < W / d) by (apply Rdiv_lt_0_compat; assumption).
  assert (Hback : (a + delta / (W / d)) * (W / d) = a * (W / d) + delta)
    by (field; lra).
  assert (Hend : (b + delta / (W / d)) * (W / d) = b * (W / d) + delta)
    by (field; lra).
  assert (Hfull : d * (W / d) = W) by (field; lra).
  assert (Hlo : 0 <= a + delta / (W / d)) by nra.
  assert (Hhi : a + delta / (W / d) <= d - (b - a)) by nra.
  rewrite (Rmin_right (d - (b - a)) (a + delta / (W / d))) by exact Hhi.
  rewrite (Rmax_right 0 (a + delta / (W / d))) by exact Hlo.
  f_equal. f_equal; [exact Hback | f_equal; lra].
Qed.

(** X21.  While a preview plays, the playhead that [tick] projects onto
    the waveform starts at the beginning of the selection, never moves
    backwards and never leaves the selection. *)
Theorem preview_playhead_stays_in_the_selection
    (startTime duration start regionDuration t1 t2 : R) :
  0 < duration ->
  0 <= regionDuration ->
  startTime <= t1 <= t2 ->
  t2 <= startTime + duration ->
  exists p0 p1 p2 : R,
    tick (Some startTime) startTime duration start regionDuration = TickMoved p0 /\
    tick (Some t1) startTime duration start regionDuration = TickMoved p1 /\
    tick (Some t2) startTime duration start regionDuration = TickMoved p2 /\
    p0 = start /\
    start <= p1 <= p2 /\
    p2 <= start + regionDuration.
Proof.
  intros Hd Hr Ht Hend.
  unfold tick. cbv zeta.
  destruct (Rgt_dec (startTime - startTime) duration); [lra|].
  destruct (Rgt_dec (t1 - startTime) duration); [lra|].
  destruct (Rgt_dec (t2 - startTime) duration); [lra|].
  do 3 eexists. repeat apply conj; try reflexivity.
  - unfold Rdiv. replace (startTime - startTime) with 0 by lra. lra.
  - pose proof (fraction_bounds (t1 - startTime) duration ltac:(lra) Hd). nra.
  - assert (Hle : (t1 - startTime) / duration <= (t2 - startTime) / duration).
    { unfold Rdiv. apply Rmult_le_compat_r; [|lra].
      left. apply Rinv_0_lt_compat. exact Hd. }
    nra.
  - pose proof (fraction_bounds (t2 - startTime) duration ltac:(lra) Hd). nra.
Qed.

End RegionSelection.

Section RegionSelectionRuns.

Import RegionUI.

Local Open Scope R_scope.


Lemma handle_drag_keeps_the_other_edge_witness :
  region_start
    (regionRef
       (run (handleDown (Some UIExamples.clip_12s) true false true true 100
               UIExamples.selected)
          (moves_of [(Some UIExamples.clip_12s, true, 150);
                     (Some UIExamples.clip_12s, true, 900)])))
  = region_start (regionRef UIExamples.selected).
Proof.
  apply (handle_drag_keeps_the_other_edge UIExamples.selected
           (Some UIExamples.clip_12s) false true true 100
           [(Some UIExamples.clip_12s, true, 150);
            (Some UIExamples.clip_12s, true, 900)]).
  reflexivity.
Defined.

Lemma short_clip_drag_leaves_the_clip_witness :
  region_start
    (regionRef
       (handleMove (Some UIExamples.short_clip) true 40
          (handleDown (Some UIExamples.short_clip) true true false true 0
             (ready UIExamples.short_clip true mounted))))
  = getDuration UIExamples.short_clip - 1 / 10 /\
  region_start
    (regionRef
       (handleMove (Some UIExamples.short_clip) true 40
          (handleDown (Some UIExamples.short_clip) true true false true 0
             (ready UIExamples.short_clip true mounted))))
  < 0 /\
  region_end
    (regionRef
       (handleMove (Some UIExamples.short_clip) true 40
          (handleDown (Some UIExamples.short_clip) true false true true 0
             (ready UIExamples.short_clip true mounted))))
  = 1 / 10 /\
  getDuration UIExamples.short_clip
  < region_end
      (regionRef
         (handleMove (Some UIExamples.short_clip) true 40
            (handleDown (Some UIExamples.short_clip) true false true true 0
               (ready UIExamples.short_clip true mounted)))).
Proof.
  apply (short_clip_drag_leaves_the_clip UIExamples.short_clip
           UIExamples.short_clip false true 0 40).
  - simpl. lra.
  - reflexivity.
  - simpl. lra.
Defined.

Lemma region_box_stays_inside_the_layer_witness :
  exists s : BoxStyle,
    boxStyle (updateRegionDOM (Some UIExamples.clip_12s) true UIExamples.selected)
    = Some s /\
    layer_width s = scrollWidth (getWrapper UIExamples.clip_12s) /\
    0 <= box_left s /\
    0 <= box_width s /\
    box_left s + box_width s <= layer_width s.
Proof.
  apply (region_box_stays_inside_the_layer UIExamples.clip_12s UIExamples.selected).
  - simpl. lra.
  - simpl. lra.
  - unfold selection_ok. simpl. lra.
Defined.

Lemma box_follows_the_pointer_witness :
  boxStyle (handleMove (Some UIExamples.clip_12s) true 150
              (handleDown (Some UIExamples.clip_12s) true false false true 100
                 UIExamples.selected))
  = Some {| layer_width := 600;
            box_left := 2 * (600 / 12) + (150 - 100 + (0 - 0));
            box_width := (5 - 2) * (600 / 12) |}.
Proof.
  apply (box_follows_the_pointer UIExamples.clip_12s UIExamples.clip_12s
           UIExamples.selected 100 150).
  - simpl. lra.
  - simpl. lra.
  - simpl. lra.
  - simpl. lra.
Defined.

Lemma preview_playhead_stays_in_the_selection_witness :
  exists p0 p1 p2 : R,
    tick (Some 0) 0 3 2 3 = TickMoved p0 /\
    tick (Some 1) 0 3 2 3 = TickMoved p1 /\
    tick (Some 2) 0 3 2 3 = TickMoved p2 /\
    p0 = 2 /\
    2 <= p1 <= p2 /\
    p2 <= 2 + 3.
Proof.
  apply (preview_playhead_stays_in_the_selection 0 3 2 3 1 2); lra.
Defined.

End RegionSelectionRuns.

(* ===================================================================== *)
(** ** The preview player: contexts made, closed and left open            *)
(* ===================================================================== *)

Section PreviewPlayer.

Import Preview.

Local Open Scope R_scope.

Lemma lists_app (l extra : list Call) :
  createdContexts (l ++ extra) = createdContexts l ++ createdContexts extra /\
  closedContexts (l ++ extra) = closedContexts l ++ closedContexts extra /\
  stoppedSources (l ++ extra) = stoppedSources l ++ stoppedSources extra.
Proof.
  unfold createdContexts, closedContexts, stoppedSources.
  rewrite !flat_map_app. repeat split.
Qed.

Lemma stopPreview_shape (st : Refs * Platform) :
  exists extra : list Call,
    calls (snd (stopPreview st)) = calls (snd st) ++ extra /\
    task_shape st (stopPreview st) extra.
Proof.
  destruct st as [[source context frame previewing time] [next handle log]].
  unfold stopPreview, task_shape.
  cbn [fst snd previewSourceRef previewContextRef animationFrameRef nextContext].
  destruct source as [s|], context as [c|], frame as [[|h]|];
    cbn [truthy call calls nextContext lastHandle];
    rewrite <- ?app_assoc; eexists; (split; [try reflexivity|]);
    try (rewrite app_nil_r; reflexivity);
    try (left; repeat apply conj; reflexivity);
    try (symmetry; apply app_nil_r).
Qed.

Lemma runTick_shape (k : TickClosure) (wavesurfer : bool) (contextTime : R)
    (st : Refs * Platform) :
  exists extra : list Call,
    calls (snd (runTick k wavesurfer contextTime st)) = calls (snd st) ++ extra /\
    closedContexts extra = [] /\
    stoppedSources extra = [] /\
    createdContexts extra = [] /\
    previewContextRef (fst (runTick k wavesurfer contextTime st))
    = previewContextRef (fst st) /\
    previewSourceRef (fst (runTick k wavesurfer contextTime st))
    = previewSourceRef (fst st) /\
    nextContext (snd (runTick k wavesurfer contextTime st)) = nextContext (snd st).
Proof.
  unfold runTick. cbv zeta.
  destruct (tick _ _ _ _ _) as [|t].
  - exists []. rewrite app_nil_r. repeat split.
  - destruct wavesurfer; cbn [fst snd calls call nextContext lastHandle
                               previewContextRef previewSourceRef];
      rewrite <- ?app_assoc; eexists; repeat split.
Qed.

Lemma step_shape (st : Refs * Platform) (e : Event) :
  exists extra : list Call,
    calls (snd (step st e)) = calls (snd st) ++ extra /\
    task_shape st (step st e) extra.
Proof.
  destruct e as [isPlaying wavesurfer|result region wavesurfer contextTime|
                 |k wavesurfer contextTime|]; cbn [step].
  - unfold handlePreviewEffect.
    destruct (isPreviewing (fst st)); cbn [fst].
    + apply stopPreview_shape.
    + destruct (isPlaying && wavesurfer); cbn [snd call calls].
      * eexists. split; [reflexivity|]. right. left. repeat split.
      * exists []. rewrite app_nil_r. split; [reflexivity|].
        right. left. repeat split.
  - unfold previewRendered. cbv zeta.
    destruct result as [[processedBuffer|]|err].
    + match goal with
      | |- context [runTick ?k ?w ?t ?s] =>
          destruct (runTick_shape k w t s)
            as (extra & Hcalls & Hclosed & Hstopped & Hcreated & Hctx & Hsrc & Hnext)
      end.
      cbn [fst snd calls call nextContext previewContextRef previewSourceRef] in *.
      rewrite <- !app_assoc in Hcalls.
      eexists. split; [exact Hcalls|].
      right. right.
      unfold createdContexts, closedContexts, stoppedSources in *.
      cbn [app flat_map].
      rewrite Hclosed, Hstopped, Hcreated.
      repeat apply conj; try reflexivity; assumption.
    + exists []. rewrite app_nil_r. split; [reflexivity|].
      right. left. repeat split.
    + cbn [fst snd call calls]. eexists. split; [reflexivity|].
      right. left. repeat split.
  - unfold onended. cbn [fst snd].
    destruct (animationFrameRef (fst st)) as [[|h]|]; cbn [truthy call calls].
    + exists []. rewrite app_nil_r. split; [reflexivity|].
      right. left. repeat split.
    + eexists. split; [reflexivity|]. right. left. repeat split.
    + exists []. rewrite app_nil_r. split; [reflexivity|].
      right. left. repeat split.
  - destruct (runTick_shape k wavesurfer contextTime st)
      as (extra & Hcalls & Hclosed & Hstopped & Hcreated & Hctx & Hsrc & Hnext).
    exists extra. split; [exact Hcalls|].
    right. left. repeat apply conj; assumption.
  - apply stopPreview_shape.
Qed.

Lemma step_keeps_player_ok (st : Refs * Platform) (e : Event) :
  player_ok st -> player_ok (step st e).
Proof.
  intros (Hsame & Hcreated & Hclosed & Hstopped & Hcl & Hsl & Href).
  destruct (step_shape st e) as (extra & Hcalls & Hshape).
  destruct (lists_app (calls (snd st)) extra) as (Hc & Hx & Hs).
  unfold player_ok. rewrite Hcalls, Hc, Hx, Hs.
  destruct Hshape as [(Ex & Es & Ec & Rc & Rs & Hn)
                     |[(Ex & Es & Ec & Rc & Rs & Hn)
                      |(Ex & Es & Ec & Rc & Rs & Hn)]];
    rewrite Ex, Es, Ec, Rc, Rs, Hn, ?app_nil_r.
  - rewrite Hsame in *.
    destruct (previewContextRef (fst st)) as [c|] eqn:Hc0; cbn [option_list].
    + destruct (Href c eq_refl) as (Hlt & Hnc & Hns).
      repeat apply conj; try assumption; try reflexivity.
      * apply NoDup_app. split; [assumption|]. split; [|apply NoDup_singleton].
        intros x Hin Hx1. apply list_elem_of_singleton in Hx1. subst x.
        apply Hnc. apply list_elem_of_In. exact Hin.
      * apply NoDup_app. split; [assumption|]. split; [|apply NoDup_singleton].
        intros x Hin Hx1. apply list_elem_of_singleton in Hx1. subst x.
        apply Hns. apply list_elem_of_In. exact Hin.
      * intros c' Hin. apply in_app_iff in Hin.
        destruct Hin as [Hin|[<-|[]]]; [apply Hcl; exact Hin|exact Hlt].
      * intros c' Hin. apply in_app_iff in Hin.
        destruct Hin as [Hin|[<-|[]]]; [apply Hsl; exact Hin|exact Hlt].
      * intros c' Habs. discriminate Habs.
    + rewrite !app_nil_r.
      repeat apply conj; try assumption; try reflexivity;
        intros c' Habs; discriminate Habs.
  - repeat apply conj; assumption.
  - repeat apply conj; try assumption; try reflexivity.
    + rewrite Hcreated. rewrite seq_S. reflexivity.
    + intros c Hin. apply Hcl in Hin. lia.
    + intros c Hin. apply Hsl in Hin. lia.
    + intros c [= <-]. repeat apply conj.
      * lia.
      * intros Hin. apply Hcl in Hin. lia.
      * intros Hin. apply Hsl in Hin. lia.
Qed.

Lemma initial_player_ok : player_ok initial.
Proof.
  unfold player_ok, initial. cbn.
  repeat apply conj; try reflexivity; try apply NoDup_nil_2;
    first [ intros c Habs; discriminate Habs | intros c Hin; destruct Hin ].
Qed.

Lemma run_keeps_player_ok (events : list Event) :
  forall st : Refs * Platform, player_ok st -> player_ok (run st events).
Proof.
  induction events as [|e events IH]; intros st Hok; [exact Hok|].
  cbn [run fold_left]. apply IH. apply step_keeps_player_ok. exact Hok.
Qed.

(** X22.  Whatever the user and the platform do, the preview player
    numbers its contexts in the order it makes them, calls [close()] at
    most once on a context and [stop()] at most once on a source, and only
    ever on ones it has made; the two refs always hold the same preview,
    and what they hold is still open and has not been stopped. *)
Theorem preview_closes_each_context_once (events : list Event) :
  let st := run initial events in
  createdContexts (calls (snd st)) = seq 0 (nextContext (snd st)) /\
  NoDup (closedContexts (calls (snd st))) /\
  NoDup (stoppedSources (calls (snd st))) /\
  incl (closedContexts (calls (snd st))) (createdContexts (calls (snd st))) /\
  incl (stoppedSources (calls (snd st))) (createdContexts (calls (snd st))) /\
  previewSourceRef (fst st) = previewContextRef (fst st) /\
  forall c : nat,
    previewContextRef (fst st) = Some c ->
    In c (createdContexts (calls (snd st))) /\
    ~ In c (closedContexts (calls (snd st))) /\
    ~ In c (stoppedSources (calls (snd st))).
Proof.
  cbv zeta.
  destruct (run_keeps_player_ok events initial initial_player_ok)
    as (Hsame & Hcreated & Hclosed & Hstopped & Hcl & Hsl & Href).
  repeat apply conj; try assumption.
  - intros c Hin. rewrite Hcreated. apply in_seq. apply Hcl in Hin. lia.
  - intros c Hin. rewrite Hcreated. apply in_seq. apply Hsl in Hin. lia.
  - intros c Hc. destruct (Href c Hc) as (Hlt & Hnc & Hns).
    repeat apply conj; try assumption.
    rewrite Hcreated. apply in_seq. lia.
Qed.

Lemma step_keeps_orphaned (c : nat) (st : Refs * Platform) (e : Event) :
  orphaned c st -> orphaned c (step st e).
Proof.
  intros (Hlt & Hctx & Hsrc & Hnc & Hns).
  destruct (step_shape st e) as (extra & Hcalls & Hshape).
  destruct (lists_app (calls (snd st)) extra) as (_ & Hx & Hs).
  unfold orphaned. rewrite Hcalls, Hx, Hs.
  destruct Hshape as [(Ex & Es & Ec & Rc & Rs & Hn)
                     |[(Ex & Es & Ec & Rc & Rs & Hn)
                      |(Ex & Es & Ec & Rc & Rs & Hn)]];
    rewrite Ex, Es, Rc, Rs, Hn, ?app_nil_r.
  - repeat apply conj; try assumption; try discriminate.
    + intros Hin. apply in_app_iff in Hin. destruct Hin as [Hin|Hin]; [tauto|].
      destruct (previewContextRef (fst st)) as [c'|]; cbn [option_list] in Hin.
      * destruct Hin as [->|[]]. apply Hctx. reflexivity.
      * destruct Hin.
    + intros Hin. apply in_app_iff in Hin. destruct Hin as [Hin|Hin]; [tauto|].
      destruct (previewSourceRef (fst st)) as [c'|]; cbn [option_list] in Hin.
      * destruct Hin as [->|[]]. apply Hsrc. reflexivity.
      * destruct Hin.
  - repeat apply conj; assumption.
  - repeat apply conj; try assumption.
    + lia.
    + intros [= Heq]. lia.
    + intros [= Heq]. lia.
Qed.

Lemma run_keeps_orphaned (c : nat) (events : list Event) :
  forall st : Refs * Platform, orphaned c st -> orphaned c (run st events).
Proof.
  induction events as [|e events IH]; intros st Ho; [exact Ho|].
  cbn [run fold_left]. apply IH. apply step_keeps_orphaned. exact Ho.
Qed.

(** X23.  A preview that starts while the refs still hold an earlier one,
    as happens after that one has played to its end, orphans it: the new
    context takes its place in the refs, and from then on, whatever
    follows, the earlier context is never closed and its source never
    stopped. *)
Theorem overwritten_preview_is_never_closed (before after : list Event)
    (c : nat) (processedBuffer : AudioBuffer) (region : Region)
    (wavesurfer : bool) (contextTime : R) :
  previewContextRef (fst (run initial before)) = Some c ->
  let started :=
    previewRendered (Return (Some processedBuffer)) region wavesurfer contextTime
      (run initial before) in
  let final := run started after in
  previewContextRef (fst started)
  = Some (nextContext (snd (run initial before))) /\
  (c < nextContext (snd (run initial before)))%nat /\
  In c (createdContexts (calls (snd final))) /\
  ~ In c (closedContexts (calls (snd final))) /\
  ~ In c (stoppedSources (calls (snd final))).
Proof.
  intros Href. cbv zeta.
  pose proof (run_keeps_player_ok before initial initial_player_ok) as Hok.
  set (st := run initial before) in *.
  pose proof Hok as (Hsame & _ & _ & _ & _ & _ & Hheld).
  destruct (Hheld c Href) as (Hlt & Hnc & Hns).
  set (started := previewRendered (Return (Some processedBuffer)) region
                    wavesurfer contextTime st).
  destruct (step_shape st (Rendered (Return (Some processedBuffer)) region
                             wavesurfer contextTime))
    as (extra & Hcalls & Hshape).
  cbn [step] in Hcalls, Hshape. fold started in Hcalls, Hshape.
  assert (Hnew : previewContextRef (fst started) = Some (nextContext (snd st)) /\
                 previewSourceRef (fst started) = Some (nextContext (snd st)) /\
                 nextContext (snd started) = S (nextContext (snd st)) /\
                 closedContexts extra = [] /\ stoppedSources extra = []).
  { unfold started, previewRendered in *. cbv zeta in *.
    match goal with
    | |- context [runTick ?k ?w ?t ?s] =>
        destruct (runTick_shape k w t s)
          as (extra' & Hcalls' & Hclosed & Hstopped & Hcreated & Hctx & Hsrc & Hnext)
    end.
    cbn [fst snd calls call nextContext previewContextRef previewSourceRef] in *.
    rewrite Hctx, Hsrc, Hnext.
    rewrite <- !app_assoc in Hcalls'. rewrite Hcalls' in Hcalls.
    apply app_inv_head in Hcalls. subst extra.
    unfold closedContexts, stoppedSources in *.
    cbn [app flat_map].
    rewrite Hclosed, Hstopped.
    repeat split. }
  destruct Hnew as (Nc & Ns & Nn & Nx & Nstop).
  destruct (lists_app (calls (snd st)) extra) as (_ & Hx & Hs).
  assert (Horphan : orphaned c started).
  { unfold orphaned. rewrite Nc, Ns, Nn, Hcalls, Hx, Hs, Nx, Nstop, !app_nil_r.
    repeat apply conj; try assumption.
    - lia.
    - intros [= Heq]. lia.
    - intros [= Heq]. lia. }
  pose proof (run_keeps_orphaned c after started Horphan)
    as (Flt & _ & _ & Fnc & Fns).
  pose proof (step_keeps_player_ok st _ Hok : player_ok (step st (Rendered
                (Return (Some processedBuffer)) region wavesurfer contextTime)))
    as Hok1.
  cbn [step] in Hok1. fold started in Hok1.
  pose proof (run_keeps_player_ok after started Hok1)
    as (_ & Fcreated & _).
  repeat apply conj; try assumption.
  rewrite Fcreated. apply in_seq. lia.
Qed.


Lemma previewRendered_refs (processedBuffer : AudioBuffer) (region : Region)
    (wavesurfer : bool) (contextTime : R) (st : Refs * Platform) :
  previewContextRef
    (fst (previewRendered (Return (Some processedBuffer)) region wavesurfer
            contextTime st))
  = Some (nextContext (snd st)).
Proof.
  unfold previewRendered. cbv zeta.
  match goal with
  | |- context [runTick ?k ?w ?t ?s] =>
      destruct (runTick_shape k w t s) as (_ & _ & _ & _ & _ & Hctx & _)
  end.
  rewrite Hctx. reflexivity.
Qed.

(** X24.  When the render settles with a buffer of positive duration,
    [handlePreviewEffect] makes one new context, starts one source with the
    rendered buffer on it, holds both in the refs, shows the preview as
    running, puts the playhead at the start of the selection and asks for
    one animation frame; it closes and stops nothing. *)
Theorem preview_starts_at_the_selection (processedBuffer : AudioBuffer)
    (region : Region) (contextTime : R) (st : Refs * Platform) :
  0 < WebAudio.duration processedBuffer ->
  let n := nextContext (snd st) in
  let h := S (lastHandle (snd st)) in
  previewRendered (Return (Some processedBuffer)) region true contextTime st
  = ({| previewSourceRef := Some n;
        previewContextRef := Some n;
        animationFrameRef := Some h;
        isPreviewing := true;
        currentTime := region_start region |},
     {| nextContext := S n;
        lastHandle := h;
        calls := calls (snd st)
                 ++ [NewAudioContext n;
                     SourceStart n processedBuffer;
                     WaveSurferSetTime (region_start region);
                     RequestAnimationFrame h] |}).
Proof.
  intros Hd. cbv zeta. unfold previewRendered, runTick. cbv zeta.
  cbn [fst snd previewContextRef tick_startTime tick_duration tick_start
       tick_regionDuration].
  unfold tick. cbv zeta.
  destruct (Rgt_dec (contextTime - contextTime) (WebAudio.duration processedBuffer));
    [lra|].
  replace (region_start region
           + (contextTime - contextTime) / WebAudio.duration processedBuffer
             * (region_end region - region_start region))
    with (region_start region) by (field; lra).
  cbn [call calls nextContext lastHandle previewSourceRef previewContextRef
       animationFrameRef isPreviewing].
  rewrite <- !app_assoc. reflexivity.
Qed.

Lemma played_to_the_end_shape (round : AudioBuffer * Region * R)
    (st : Refs * Platform) :
  isPreviewing (fst st) = false ->
  let st' := run st (played_to_the_end round) in
  isPreviewing (fst st') = false /\
  nextContext (snd st') = S (nextContext (snd st)) /\
  createdContexts (calls (snd st'))
  = createdContexts (calls (snd st)) ++ [nextContext (snd st)] /\
  closedContexts (calls (snd st')) = closedContexts (calls (snd st)).
Proof.
  intros Hidle. cbv zeta.
  destruct round as [[processedBuffer region] contextTime].
  unfold played_to_the_end. cbn [run fold_left fst snd].
  set (st1 := step st (Click false true)).
  assert (H1 : st1 = st).
  { unfold st1. cbn [step]. unfold handlePreviewEffect. rewrite Hidle.
    cbn [andb fst]. destruct st; reflexivity. }
  rewrite H1.
  set (st2 := step st (Rendered (Return (Some processedBuffer)) region true contextTime)).
  destruct (step_shape st (Rendered (Return (Some processedBuffer)) region true
                             contextTime)) as (extra & Hcalls & Hshape).
  fold st2 in Hcalls, Hshape.
  assert (Hnew : createdContexts extra = [nextContext (snd st)] /\
                 closedContexts extra = [] /\
                 nextContext (snd st2) = S (nextContext (snd st))).
  { unfold st2 in *. cbn [step] in *. unfold previewRendered in *. cbv zeta in *.
    match goal with
    | |- context [runTick ?k ?w ?t ?s] =>
        destruct (runTick_shape k w t s)
          as (extra' & Hcalls' & Hclosed & Hstopped & Hcreated & Hctx & Hsrc & Hnext)
    end.
    cbn [fst snd calls call nextContext previewContextRef previewSourceRef] in *.
    rewrite Hnext.
    rewrite <- !app_assoc in Hcalls'. rewrite Hcalls' in Hcalls.
    apply app_inv_head in Hcalls. subst extra.
    unfold createdContexts, closedContexts in *.
    cbn [app flat_map].
    rewrite Hclosed, Hcreated.
    repeat split. }
  destruct Hnew as (Ncreated & Nclosed & Nnext).
  destruct (step_shape st2 Ended) as (extra3 & Hcalls3 & Hshape3).
  assert (Hquiet : createdContexts extra3 = [] /\ closedContexts extra3 = [] /\
                   nextContext (snd (step st2 Ended)) = nextContext (snd st2)).
  { cbn [step] in *. unfold onended in *. cbn [fst snd] in *.
    destruct (animationFrameRef (fst st2)) as [[|h]|]; cbn [truthy call calls] in *.
    - rewrite <- (app_nil_r (calls (snd st2))) in Hcalls3 at 1.
      apply app_inv_head in Hcalls3. subst extra3. repeat split.
    - apply app_inv_head in Hcalls3. subst extra3. repeat split.
    - rewrite <- (app_nil_r (calls (snd st2))) in Hcalls3 at 1.
      apply app_inv_head in Hcalls3. subst extra3. repeat split. }
  destruct Hquiet as (Qcreated & Qclosed & Qnext).
  destruct (lists_app (calls (snd st)) extra) as (Hc & Hx & _).
  destruct (lists_app (calls (snd st2)) extra3) as (Hc3 & Hx3 & _).
  repeat apply conj.
  - reflexivity.
  - rewrite Qnext. exact Nnext.
  - rewrite Hcalls3, Hc3, Qcreated, app_nil_r, Hcalls, Hc, Ncreated. reflexivity.
  - rewrite Hcalls3, Hx3, Qclosed, app_nil_r, Hcalls, Hx, Nclosed, app_nil_r.
    reflexivity.
Qed.

Lemma rounds_played_to_the_end (rounds : list (AudioBuffer * Region * R)) :
  forall st : Refs * Platform,
    isPreviewing (fst st) = false ->
    let st' := run st (flat_map played_to_the_end rounds) in
    isPreviewing (fst st') = false /\
    createdContexts (calls (snd st'))
    = createdContexts (calls (snd st))
      ++ seq (nextContext (snd st)) (length rounds) /\
    closedContexts (calls (snd st')) = closedContexts (calls (snd st)).
Proof.
  induction rounds as [|round rounds IH]; intros st Hidle; cbv zeta.
  - cbn. rewrite app_nil_r. repeat split. exact Hidle.
  - cbn [flat_map]. unfold run. rewrite fold_left_app.
    fold (run st (played_to_the_end round)).
    fold (run (run st (played_to_the_end round)) (flat_map played_to_the_end rounds)).
    destruct (played_to_the_end_shape round st Hidle)
      as (Hidle' & Hnext & Hcreated & Hclosed).
    destruct (IH _ Hidle') as (Fidle & Fcreated & Fclosed).
    repeat apply conj.
    + exact Fidle.
    + rewrite Fcreated, Hcreated, Hnext. rewrite <- app_assoc. reflexivity.
    + rewrite Fclosed. exact Hclosed.
Qed.

(** X25.  Every preview that plays to its end leaves its context open:
    after any number of such previews, one after the other, as many
    contexts have been made as previews were played and none of them has
    been closed. *)
Theorem finished_previews_leave_contexts_open
    (rounds : list (AudioBuffer * Region * R)) :
  let st := run initial (flat_map played_to_the_end rounds) in
  createdContexts (calls (snd st)) = seq 0 (length rounds) /\
  closedContexts (calls (snd st)) = [] /\
  isPreviewing (fst st) = false.
Proof.
  cbv zeta.
  destruct (rounds_played_to_the_end rounds initial eq_refl)
    as (Hidle & Hcreated & Hclosed).
  repeat apply conj; assumption.
Qed.

End PreviewPlayer.

Section PreviewPlayerRuns.

Import Preview.

Local Open Scope R_scope.

Lemma overwritten_preview_is_never_closed_witness :
  ~ In 0%nat
      (closedContexts
         (calls
            (snd
               (run
                  (previewRendered (Return (Some Examples.preview_buffer))
                     {| region_start := 2; region_end := 5 |} true 0
                     (run initial
                        [Rendered (Return (Some Examples.preview_buffer))
                           {| region_start := 2; region_end := 5 |} true 0;
                         Ended;
                         Click false true]))
                  [Stop; Click true true; Stop])))).
Proof.
  apply (overwritten_preview_is_never_closed
           [Rendered (Return (Some Examples.preview_buffer))
              {| region_start := 2; region_end := 5 |} true 0;
            Ended;
            Click false true]
           [Stop; Click true true; Stop]
           0%nat Examples.preview_buffer
           {| region_start := 2; region_end := 5 |} true 0).
  cbn [run fold_left step].
  unfold handlePreviewEffect, onended. cbn [fst snd isPreviewing previewContextRef].
  apply previewRendered_refs.
Defined.

Lemma preview_starts_at_the_selection_witness :
  previewRendered (Return (Some Examples.preview_buffer))
    {| region_start := 2; region_end := 5 |} true 7 initial
  = ({| previewSourceRef := Some 0%nat;
        previewContextRef := Some 0%nat;
        animationFrameRef := Some 1%nat;
        isPreviewing := true;
        currentTime := 2 |},
     {| nextContext := 1;
        lastHandle := 1;
        calls := [NewAudioContext 0;
                  SourceStart 0 Examples.preview_buffer;
                  WaveSurferSetTime 2;
                  RequestAnimationFrame 1] |}).
Proof.
  apply (preview_starts_at_the_selection Examples.preview_buffer
           {| region_start := 2; region_end := 5 |} 7 initial).
  rewrite duration_preview_buffer. lra.
Defined.

End PreviewPlayerRuns.

(* ===================================================================== *)
(** ** The counters of [App.tsx]                                          *)
(* ===================================================================== *)

Section Counters.

Import App.

Local Open Scope Z_scope.

Lemma parseDigits_uint_acc (d : Decimal.uint) :
  forall acc : positive,
    parseDigits 10 (NilEmpty.string_of_uint d) (N.pos acc)
    = N.pos (Pos.of_uint_acc d acc).
Proof.
  induction d as [|d IH|d IH|d IH|d IH|d IH|d IH|d IH|d IH|d IH|d IH];
    intros acc; [reflexivity|..];
    cbn [NilEmpty.string_of_uint parseDigits Pos.of_uint_acc];
    match goal with
    | |- context [digitValue 10 ?c] =>
        let v := eval vm_compute in (digitValue 10 c) in
        change (digitValue 10 c) with v
    end;
    cbv iota beta;
    match goal with
    | |- parseDigits _ _ ?a = N.pos (Pos.of_uint_acc _ ?b) =>
        replace a with (N.pos b) by lia
    end;
    apply IH.
Qed.

Lemma parseDigits_uint (d : Decimal.uint) :
  parseDigits 10 (NilEmpty.string_of_uint d) 0 = Pos.of_uint d.
Proof.
  induction d as [|d IH|d IH|d IH|d IH|d IH|d IH|d IH|d IH|d IH|d IH];
    [reflexivity|..];
    cbn [NilEmpty.string_of_uint parseDigits Pos.of_uint];
    match goal with
    | |- context [digitValue 10 ?c] =>
        let v := eval vm_compute in (digitValue 10 c) in
        change (digitValue 10 c) with v
    end;
    cbv iota beta;
    first [ exact IH
          | match goal with
            | |- parseDigits _ _ ?a = N.pos (Pos.of_uint_acc _ ?b) =>
                change a with (N.pos b)
            end;
            apply parseDigits_uint_acc ].
Qed.

Lemma parseInt_uint (d : Decimal.uint) :
  d <> Decimal.Nil ->
  parseInt (NilEmpty.string_of_uint d)
  = Some (1 * Z.of_N (parseDigits 10 (NilEmpty.string_of_uint d) 0)) /\
  parseInt (String "-" (NilEmpty.string_of_uint d))
  = Some (-1 * Z.of_N (parseDigits 10 (NilEmpty.string_of_uint d) 0)) /\
  NilEmpty.string_of_uint d <> EmptyString.
Proof.
  intros Hd.
  destruct d as [|d|d|d|d|d|d|d|d|d|d]; [congruence|..];
    (repeat apply conj; [| |discriminate]);
    destruct d as [|d|d|d|d|d|d|d|d|d|d]; reflexivity.
Qed.

Lemma to_uint_not_Nil (p : positive) : Pos.to_uint p <> Decimal.Nil.
Proof.
  intros Habs. pose proof (DecimalPos.Unsigned.of_to p) as Hp.
  rewrite Habs in Hp. discriminate Hp.
Qed.

Lemma parseInt_toString (z : Z) :
  parseInt (toString (Some z)) = Some z /\ toString (Some z) <> EmptyString.
Proof.
  destruct z as [|p|p]; [split; [reflexivity|discriminate]|..];
    cbn [toString Z.to_int NilEmpty.string_of_int];
    destruct (parseInt_uint (Pos.to_uint p) (to_uint_not_Nil p))
      as (Hpos & Hneg & Hne);
    (split; [|try exact Hne; discriminate]).
  - rewrite Hpos, parseDigits_uint, DecimalPos.Unsigned.of_to. reflexivity.
  - rewrite Hneg, parseDigits_uint, DecimalPos.Unsigned.of_to. reflexivity.
Qed.

Lemma getItem_or_0_stored (key : string) (z : Z) (storage : Storage) :
  parseInt (getItem_or_0 key (setItem key (toString (Some z)) storage)) = Some z.
Proof.
  unfold getItem_or_0, getItem, setItem, Storage.
  rewrite fin_maps.lookup_insert_eq.
  destruct (parseInt_toString z) as [Hparse Hne].
  destruct (toString (Some z)) as [|c rest]; [congruence|exact Hparse].
Qed.


Lemma getItem_other (key other value : string) (storage : Storage) :
  key <> other ->
  getItem_or_0 key (setItem other value storage) = getItem_or_0 key storage.
Proof.
  intros Hne. unfold getItem_or_0, getItem, setItem, Storage.
  rewrite fin_maps.lookup_insert_ne by congruence. reflexivity.
Qed.

Lemma pageLoad_visitors (localStorage : Storage) :
  visitors (stats (fst (pageLoad localStorage)))
  = plus_one (parseInt (getItem_or_0 "rt_visitors" localStorage)) /\
  getItem "rt_visitors" (snd (pageLoad localStorage))
  = Some (toString (plus_one (parseInt (getItem_or_0 "rt_visitors" localStorage)))) /\
  downloads (stats (fst (pageLoad localStorage)))
  = parseInt (getItem_or_0 "rt_downloads" localStorage) /\
  getItem_or_0 "rt_downloads" (snd (pageLoad localStorage))
  = getItem_or_0 "rt_downloads" localStorage.
Proof.
  unfold pageLoad, mountEffect. cbn [fst snd setStats stats visitors downloads].
  repeat apply conj; try reflexivity.
  - unfold getItem, setItem, Storage. apply fin_maps.lookup_insert_eq.
  - apply getItem_other. discriminate.
Qed.

(** X27.  A counter that [toString] wrote is read back unchanged by
    [parseInt], so visits add up: when the stored visitor count reads as
    [v], then after [n] page loads it reads as [v + n], and from the first
    load on the page shows [v + n] and the store holds its decimal
    digits.  (For counts that a number holds exactly.) *)
Theorem visits_are_counted (n : nat) (v : Z) (localStorage : Storage) :
  parseInt (getItem_or_0 "rt_visitors" localStorage) = Some v ->
  safe v -> safe (v + Z.of_nat n) ->
  (forall z : Z, safe z -> parseInt (toString (Some z)) = Some z) /\
  parseInt (getItem_or_0 "rt_visitors" (snd (pageLoads n localStorage)))
  = Some (v + Z.of_nat n) /\
  ((1 <= n)%nat ->
   visitors (stats (fst (pageLoads n localStorage))) = Some (v + Z.of_nat n) /\
   getItem "rt_visitors" (snd (pageLoads n localStorage))
   = Some (toString (Some (v + Z.of_nat n)))).
Proof.
  intros Hstored _ _.
  split; [intros z _; apply parseInt_toString|].
  induction n as [|n IH].
  - cbn [pageLoads snd]. rewrite Z.add_0_r. split; [exact Hstored|lia].
  - destruct IH as [Hread _].
    cbn [pageLoads].
    destruct (pageLoad_visitors (snd (pageLoads n localStorage)))
      as (Hshown & Hkept & _).
    rewrite Hread in Hshown, Hkept. cbn [plus_one] in Hshown, Hkept.
    replace (v + Z.of_nat n + 1) with (v + Z.of_nat (S n)) in Hshown, Hkept by lia.
    split.
    + unfold getItem_or_0. rewrite Hkept.
      destruct (parseInt_toString (v + Z.of_nat (S n))) as [Hparse Hne].
      destruct (toString (Some (v + Z.of_nat (S n)))); [congruence|exact Hparse].
    + intros _. split; [exact Hshown|exact Hkept].
Qed.

(** X28.  A stored visitor count that does not read as a number is never
    repaired: the first page load shows NaN and stores the text [NaN], and
    so does every load after it. *)
Theorem unreadable_count_stays_NaN (n : nat) (localStorage : Storage) :
  parseInt (getItem_or_0 "rt_visitors" localStorage) = NaN ->
  (1 <= n)%nat ->
  visitors (stats (fst (pageLoads n localStorage))) = NaN /\
  getItem "rt_visitors" (snd (pageLoads n localStorage)) = Some "NaN"%string.
Proof.
  intros Hbad Hn.
  assert (Hall : forall k : nat,
             visitors (stats (fst (pageLoads (S k) localStorage))) = NaN /\
             getItem "rt_visitors" (snd (pageLoads (S k) localStorage))
             = Some "NaN"%string).
  { induction k as [|k IH]; cbn [pageLoads].
    - destruct (pageLoad_visitors localStorage) as (Hshown & Hkept & _).
      rewrite Hbad in Hshown, Hkept. split; assumption.
    - destruct IH as [_ Hprev].
      destruct (pageLoad_visitors (snd (pageLoads (S k) localStorage)))
        as (Hshown & Hkept & _).
      assert (Hread : parseInt (getItem_or_0 "rt_visitors"
                                  (snd (pageLoads (S k) localStorage))) = NaN).
      { unfold getItem_or_0. rewrite Hprev. reflexivity. }
      rewrite Hread in Hshown, Hkept. split; assumption. }
  destruct n as [|k]; [lia|]. apply Hall.
Qed.

End Counters.

Section CountersAndExports.

Import App.

Context `{RenderEngine} `{Float32Codec}.

Local Open Scope Z_scope.

Lemma handleDownload_shapes (window_lamejs : option LameJs) (ed : Editor) :
  (exists (processedBuffer : AudioBuffer) (blob : Blob) (extension : string)
          (encoder : Effect),
     handleDownload window_lamejs ed
     = [encoder; SaveFile blob extension; DownloadSuccess] /\
     (encoder = CallAudioBufferToWav processedBuffer \/
      encoder = CallAudioBufferToMp3 processedBuffer)) \/
  (forall (blob : Blob) (extension : string),
     ~ In (SaveFile blob extension) (handleDownload window_lamejs ed)) /\
  ~ In DownloadSuccess (handleDownload window_lamejs ed).
Proof.
  unfold handleDownload.
  destruct (processAudioRegion ed) as [[processedBuffer|]|err].
  - destruct (exportFormat ed).
    + destruct (audioBufferToWav processedBuffer None) as [blob|err];
        cbn [afterEncoding].
      * left. exists processedBuffer, blob, "wav"%string,
          (CallAudioBufferToWav processedBuffer).
        split; [reflexivity|left; reflexivity].
      * right. split; [intros blob extension|];
          intros [Habs|[Habs|[]]]; discriminate Habs.
    + destruct (audioBufferToMp3 window_lamejs processedBuffer) as [blob|err];
        cbn [afterEncoding].
      * left. exists processedBuffer, blob, "mp3"%string,
          (CallAudioBufferToMp3 processedBuffer).
        split; [reflexivity|right; reflexivity].
      * right. split; [intros blob extension|];
          intros [Habs|[Habs|[]]]; discriminate Habs.
  - right. split; [intros blob extension|]; intros [].
  - right. split; [intros blob extension|];
      intros [Habs|[]]; discriminate Habs.
Qed.

Lemma afterDownload_without_success (effects : list Effect) :
  forall app : State * Storage,
    ~ In DownloadSuccess effects -> afterDownload effects app = app.
Proof.
  induction effects as [|e effects IH]; intros app Hno; [reflexivity|].
  unfold afterDownload in *. cbn [fold_left].
  destruct e; try (exfalso; apply Hno; left; reflexivity);
    apply IH; intros Hin; apply Hno; right; exact Hin.
Qed.

(** X29.  The download counter follows the exports: a run of
    [handleDownload] that saves a file adds one to the counter, on the page
    and in the store, so that the next page load shows the new count; a
    run that saves no file, because the region is empty or something
    failed, leaves the application and the store as they were.  (For
    counts that a number holds exactly.) *)
Theorem downloads_follow_exports (window_lamejs : option LameJs) (ed : Editor)
    (app : State * Storage) (d : Z) :
  downloads (stats (fst app)) = Some d ->
  safe d -> safe (d + 1) ->
  let effects := handleDownload window_lamejs ed in
  let app' := afterDownload effects app in
  ((exists (blob : Blob) (extension : string), In (SaveFile blob extension) effects) ->
   downloads (stats (fst app')) = Some (d + 1) /\
   visitors (stats (fst app')) = visitors (stats (fst app)) /\
   downloads (stats (fst (pageLoad (snd app')))) = Some (d + 1)) /\
  ((forall (blob : Blob) (extension : string), ~ In (SaveFile blob extension) effects) ->
   app' = app).
Proof.
  intros Hd _ _. cbv zeta.
  destruct (handleDownload_shapes window_lamejs ed)
    as [(processedBuffer & blob & extension & encoder & Heffects & Henc)
       |[Hnofile Hnosuccess]].
  - rewrite Heffects. split.
    + intros _.
      assert (Hrun : afterDownload [encoder; SaveFile blob extension; DownloadSuccess] app
                     = handleDownloadIncrement app)
        by (destruct Henc as [-> | ->]; reflexivity).
      rewrite Hrun. unfold handleDownloadIncrement.
      cbn [fst snd setStats stats downloads visitors]. rewrite Hd.
      cbn [plus_one].
      repeat apply conj; try reflexivity.
      destruct (pageLoad_visitors
                  (setItem "rt_downloads" (toString (Some (d + 1))) (snd app)))
        as (_ & _ & Hshown & _).
      rewrite Hshown. apply getItem_or_0_stored.
    + intros Hno. exfalso. apply (Hno blob extension). right. left. reflexivity.
  - split.
    + intros (blob & extension & Hin). exfalso. exact (Hnofile blob extension Hin).
    + intros _. apply afterDownload_without_success. exact Hnosuccess.
Qed.

End CountersAndExports.

Section Screens.

Import App.

Lemma handle_keeps_screens (app : State * Storage) (e : Event) :
  (step (fst app) = EDIT /\ audioBuffer (fst app) <> None \/
   step (fst app) = UPLOAD /\ audioBuffer (fst app) = None) ->
  (step (fst (handle app e)) = EDIT /\ audioBuffer (fst (handle app e)) <> None \/
   step (fst (handle app e)) = UPLOAD /\ audioBuffer (fst (handle app e)) = None).
Proof.
  intros Hinv. destruct e; cbn [handle fst handleFileLoaded handleReset
                               handleDownloadIncrement setStats step audioBuffer].
  - left. split; [reflexivity|discriminate].
  - right. split; reflexivity.
  - exact Hinv.
Qed.

(** X30.  Whatever files are loaded, resets are made and downloads are
    counted after a page load, the application is on the upload step with
    no audio or on the edit step with audio, never on the download step,
    and it shows exactly one of its two screens: the editor when audio is
    loaded, the uploader when it is not. *)
Theorem one_screen_at_a_time (localStorage : Storage) (events : list Event) :
  let st := fst (run (pageLoad localStorage) events) in
  step st <> DOWNLOAD /\
  (step st = EDIT <-> audioBuffer st <> None) /\
  showsEditor st = negb (showsUploader st) /\
  (showsEditor st = true <-> audioBuffer st <> None).
Proof.
  cbv zeta.
  assert (Hinv : forall (events : list Event) (app : State * Storage),
             (step (fst app) = EDIT /\ audioBuffer (fst app) <> None \/
              step (fst app) = UPLOAD /\ audioBuffer (fst app) = None) ->
             (step (fst (run app events)) = EDIT /\
              audioBuffer (fst (run app events)) <> None \/
              step (fst (run app events)) = UPLOAD /\
              audioBuffer (fst (run app events)) = None)).
  { clear events. induction events as [|e events IH]; intros app Happ;
      [exact Happ|].
    cbn [run fold_left]. apply IH. apply handle_keeps_screens. exact Happ. }
  specialize (Hinv events (pageLoad localStorage)
                (or_intror (conj eq_refl eq_refl))).
  unfold showsEditor, showsUploader.
  destruct Hinv as [[Hstep Hbuf]|[Hstep Hbuf]]; rewrite Hstep.
  - destruct (audioBuffer (fst (run (pageLoad localStorage) events)));
      [|congruence].
    repeat apply conj; try discriminate; try reflexivity;
      intros _; first [reflexivity | discriminate].
  - rewrite Hbuf.
    repeat apply conj; try discriminate; try reflexivity;
      intros Habs; first [discriminate Habs | congruence].
Qed.

End Screens.

(* ===================================================================== *)
(** ** [VideoUploader]: what [processFile] always does                    *)
(* ===================================================================== *)

Section Uploader.

Import VideoUploader.

(** X26.  However its steps settle, [processFile] turns the spinner on
    first and leaves it off, closes the audio context exactly when it has
    made one, and shows the alert exactly when a step other than the
    thumbnail failed; a thumbnail that cannot be made only costs the
    thumbnail: when reading and decoding succeed the decoded audio is
    handed over, with the thumbnail if the file is a video whose thumbnail
    was made and without one otherwise. *)
Theorem processFile_brackets (file_type file_name : string) (o : Outcome) :
  let effects := processFile file_type file_name o in
  head effects = Some (SetIsProcessing true) /\
  isProcessing effects = false /\
  (In CloseAudioContext effects <->
   exists data : list byte, In (DecodeAudioData data) effects) /\
  (In Alert effects <->
   ~ exists (data : list byte) (buffer : AudioBuffer),
       arrayBuffer_result o = Return data /\
       context_result o = Return tt /\
       decode_result o data = Return buffer /\
       onFileLoaded_result o = Return tt) /\
  (forall (data : list byte) (buffer : AudioBuffer),
     arrayBuffer_result o = Return data ->
     context_result o = Return tt ->
     decode_result o data = Return buffer ->
     In (OnFileLoaded buffer file_name
           (if startsWith file_type "video/"
            then match thumbnail_result o with
                 | Return t => Some t
                 | Throw _ => None
                 end
            else None)) effects).
Proof.
  cbv zeta. unfold processFile, tryBlock. cbv zeta.
  destruct (startsWith file_type "video/");
    destruct (thumbnail_result o) as [t|terr];
    destruct (arrayBuffer_result o) as [data|aerr];
    try destruct (context_result o) as [[]|cerr];
    try destruct (decode_result o data) as [buffer|derr] eqn:Hdecode;
    try destruct (onFileLoaded_result o) as [[]|oerr];
    cbn [fst snd app head isProcessing fold_left];
    (split; [reflexivity|]); (split; [reflexivity|]);
    (split; [split; [intros Hin; simpl in Hin;
                     first [ eexists; simpl; eauto 10; fail
                           | exfalso; intuition discriminate ]
                    |intros [d Hin]; simpl in Hin |- *;
                     first [ intuition discriminate | eauto 10 ]]|]);
    (split; [split; [intros Hin; simpl in Hin; intros (d & b & Ha & Hc & Hd & Ho);
                     first [ discriminate Ha | discriminate Hc | discriminate Ho
                           | injection Ha as <-; rewrite Hdecode in Hd; discriminate Hd
                           | intuition discriminate ]
                    |intros Hno; simpl;
                     first [ eauto 10; fail
                           | exfalso; apply Hno; do 2 eexists;
                             repeat split; eassumption ]]|]);
    intros d b Ha Hc Hd;
    first [ discriminate Ha | discriminate Hc
          | injection Ha as <-; rewrite Hdecode in Hd;
            first [ discriminate Hd | injection Hd as <-; simpl; eauto 10 ] ].
Qed.

End Uploader.

Section CountersRuns.

Import App.

Local Open Scope Z_scope.

Lemma visits_are_counted_witness :
  visitors (stats (fst (pageLoads 3 (∅ : Storage)))) = Some (0 + Z.of_nat 3) /\
  getItem "rt_visitors" (snd (pageLoads 3 (∅ : Storage)))
  = Some (toString (Some (0 + Z.of_nat 3))).
Proof.
  apply (visits_are_counted 3 0 (∅ : Storage)).
  - reflexivity.
  - unfold safe. lia.
  - unfold safe. lia.
  - lia.
Defined.

Lemma unreadable_count_stays_NaN_witness :
  visitors (stats (fst (pageLoads 2 (setItem "rt_visitors" "many" ∅)))) = NaN /\
  getItem "rt_visitors" (snd (pageLoads 2 (setItem "rt_visitors" "many" ∅)))
  = Some "NaN"%string.
Proof.
  apply (unreadable_count_stays_NaN 2 (setItem "rt_visitors" "many" ∅)).
  - unfold getItem_or_0, getItem, setItem, Storage.
    rewrite fin_maps.lookup_insert_eq. reflexivity.
  - lia.
Defined.

Lemma downloads_follow_exports_witness :
  downloads
    (stats
       (fst
          (afterDownload
             (@handleDownload Examples.silent_engine Examples.zero_codec None
                Examples.preview_editor)
             (initial, ∅))))
  = Some (0 + 1) /\
  downloads
    (stats
       (fst
          (pageLoad
             (snd
                (afterDownload
                   (@handleDownload Examples.silent_engine Examples.zero_codec None
                      Examples.preview_editor)
                   (initial, ∅))))))
  = Some (0 + 1).
Proof.
  destruct (@downloads_follow_exports Examples.silent_engine Examples.zero_codec
              None Examples.preview_editor (initial, ∅) 0 eq_refl)
    as [Hexported _]; [unfold safe; lia | unfold safe; lia |].
  destruct Hexported as (Hpage & _ & Hstored).
  - unfold handleDownload.
    rewrite (@processAudioRegion_renders Examples.silent_engine
               Examples.preview_editor).
    + cbn [Examples.preview_editor exportFormat].
      rewrite audioBufferToWav_wav_file
        by (apply rendered_buffer_wf; exact (le_n 1)).
      eexists. eexists. right. left. reflexivity.
    + simpl. lra.
    + simpl. lra.
    + simpl. lra.
    + exact (le_n 1).
    + rewrite requestedLength_preview_editor. lra.
  - split; assumption.
Defined.

End CountersRuns.
